(** * Idea Inc simulation engine: a shallow embedding of the engine core

    The development follows
    [services/simulation_service/app/engine/{agent,idea,world,manager}.py].

    Conventions of the embedding.
    - Python [int] is [Z]; Python [float] is idealised as an exact rational
      [Q] (the engine only adds, multiplies, divides and compares floats).
    - Python [str] is a list of Unicode code points ([pystr]), so that
      slicing [text[:n]] is [take n], as in Python.
    - [UUID] is the 128-bit integer the Python object wraps.
    - [Set[UUID]] is a [gset], [Dict[UUID, _]] a [gmap]; the iteration order
      of a Python set is unspecified and is the order of [elements] here.
    - Methods that mutate [self] return the updated object next to their
      result; objects shared through a dictionary are read and written back
      through that dictionary by identifier.
    - The process-wide [random] module, [uuid4] and [datetime.utcnow] are
      input streams with cursors ([Env]); a statement over every [Env]
      covers every outcome of the draws. *)

From Stdlib Require Import ZArith QArith Qminmax Lqa String Ascii HexString
  List.
From stdpp Require Import gmap strings list fin_maps sorting.

(** ** Basic data *)

Definition UUID := N.
Definition datetime := N.

(** A Python string: its code points. *)
Definition pystr := list N.

Definition py (s : string) : pystr :=
  map N_of_ascii (list_ascii_of_string s).

Definition unpy (s : pystr) : string :=
  string_of_list_ascii (map ascii_of_N s).

(** Textual forms.  [str(uuid)], [UUID(text)], [isoformat] and
    [fromisoformat] are library code; they are represented by a hexadecimal
    numeral, which has the one property the engine relies on: parsing the
    printed form gives the value back. *)
Definition uuid_str (u : UUID) : pystr := py (HexString.of_N u).
Definition uuid_parse (s : pystr) : UUID := HexString.to_N (unpy s).
Definition isoformat (d : datetime) : pystr := py (HexString.of_N d).
Definition fromisoformat (s : pystr) : datetime := HexString.to_N (unpy s).

(** [x < y] on floats. *)
Definition Qltb (x y : Q) : bool := negb (Qle_bool y x).

(** A loop whose body may raise: the first [None] aborts it. *)
Fixpoint foldl_opt {S A} (f : S → A → option S) (l : list A) (s : S)
    : option S :=
  match l with
  | [] => Some s
  | x :: l' => match f s x with Some s' => foldl_opt f l' s' | None => None end
  end.

(** [int(x)] for a float: truncation toward zero. *)
Definition py_int (x : Q) : Z := Z.quot (Qnum x) (Z.pos (Qden x)).

(** ** The environment: randomness, fresh identifiers, the clock *)

Module Env.
Record t := mk {
  rnd : nat → N;          (* raw output of the generator behind [random] *)
  rnd_pos : nat;
  variates : nat → Q;     (* successive results of [random.betavariate] *)
  variate_pos : nat;
  uuids : nat → UUID;     (* successive results of [uuid4()] *)
  uuid_pos : nat;
  clock : nat → datetime; (* successive results of [datetime.utcnow()] *)
  clock_pos : nat
}.

Definition next_raw (e : t) : N * t :=
  (rnd e (rnd_pos e),
   mk (rnd e) (S (rnd_pos e)) (variates e) (variate_pos e)
      (uuids e) (uuid_pos e) (clock e) (clock_pos e)).

(** [random.random()]: 53 random bits scaled into [0, 1). *)
Definition random (e : t) : Q * t :=
  let '(r, e') := next_raw e in
  (Qmake (Z.of_N (r mod 2 ^ 53)) (2 ^ 53), e').

(** A draw below [n] ([random._randbelow(n)], [n > 0]). *)
Definition randbelow (n : N) (e : t) : N * t :=
  let '(r, e') := next_raw e in ((r mod n)%N, e').

(** [random.randint(a, b)], for [a <= b]. *)
Definition randint (a b : Z) (e : t) : Z * t :=
  let '(r, e') := randbelow (Z.to_N (b - a + 1)) e in
  ((a + Z.of_N r)%Z, e').

(** [random.uniform(a, b)] is [a + (b - a) * random()]. *)
Definition uniform (a b : Q) (e : t) : Q * t :=
  let '(u, e') := random e in ((a + (b - a) * u)%Q, e').

(** [random.choice(seq)] on a non-empty sequence; [d] fills the type. *)
Definition choice {A} (d : A) (seq : list A) (e : t) : A * t :=
  let '(r, e') := randbelow (N.of_nat (length seq)) e in
  (nth (N.to_nat r) seq d, e').

(** [random.betavariate(alpha, beta)]: the next variate; its law is not
    part of the model. *)
Definition betavariate (alpha beta : Q) (e : t) : Q * t :=
  (variates e (variate_pos e),
   mk (rnd e) (rnd_pos e) (variates e) (S (variate_pos e))
      (uuids e) (uuid_pos e) (clock e) (clock_pos e)).

Definition uuid4 (e : t) : UUID * t :=
  (uuids e (uuid_pos e),
   mk (rnd e) (rnd_pos e) (variates e) (variate_pos e)
      (uuids e) (S (uuid_pos e)) (clock e) (clock_pos e)).

Definition utcnow (e : t) : datetime * t :=
  (clock e (clock_pos e),
   mk (rnd e) (rnd_pos e) (variates e) (variate_pos e)
      (uuids e) (uuid_pos e) (clock e) (S (clock_pos e))).

(** [random.shuffle(x)]: Fisher-Yates from the last index down to 1. *)
Definition swap {A} (x : list A) (i j : nat) : list A :=
  match x !! i, x !! j with
  | Some a, Some b => <[i := b]> (<[j := a]> x)
  | _, _ => x
  end.

Fixpoint shuffle_from {A} (i : nat) (x : list A) (e : t) : list A * t :=
  match i with
  | O => (x, e)
  | S i' =>
      let '(j, e') := randbelow (N.of_nat (S i)) e in
      shuffle_from i' (swap x i (N.to_nat j)) e'
  end.

Definition shuffle {A} (x : list A) (e : t) : list A * t :=
  shuffle_from (pred (length x)) x e.

(** [random.sample(population, k)] for a population of at most 21
    elements (the pool branch of the library). *)
Fixpoint sample_from {A} (k : nat) (pool : list A) (m : nat) (e : t)
    : list A * t :=
  match k with
  | O => ([], e)
  | S k' =>
      let '(j, e1) := randbelow (N.of_nat m) e in
      match pool !! N.to_nat j, pool !! pred m with
      | Some x, Some y =>
          let '(rest, e2) :=
            sample_from k' (<[N.to_nat j := y]> pool) (pred m) e1 in
          (x :: rest, e2)
      | _, _ => ([], e1)
      end
  end.

(** [None] where the library raises (sample larger than population). *)
Definition sample {A} (population : list A) (k : Z) (e : t)
    : option (list A * t) :=
  if (0 <=? k)%Z && (k <=? Z.of_nat (length population))%Z
  then Some (sample_from (Z.to_nat k) population (length population) e)
  else None.

(** [itertools.accumulate(weights)] *)
Fixpoint accumulate (acc : Q) (weights : list Q) : list Q :=
  match weights with
  | [] => []
  | x :: rest => (acc + x)%Q :: accumulate (acc + x)%Q rest
  end.

(** [bisect.bisect_right(a, x, lo, hi)] *)
Fixpoint bisect (fuel : nat) (a : list Q) (x : Q) (lo hi : nat) : nat :=
  match fuel with
  | O => lo
  | S fuel' =>
      if (lo <? hi)%nat then
        let mid := ((lo + hi) / 2)%nat in
        if negb (Qle_bool (nth mid a 0%Q) x)
        then bisect fuel' a x lo mid
        else bisect fuel' a x (S mid) hi
      else lo
  end.

(** [random.choices(population, weights=weights)[0]] *)
Definition choices {A} (population : list A) (weights : list Q) (e : t)
    : option (A * t) :=
  let n := length population in
  let cum_weights := accumulate 0%Q weights in
  if negb (length cum_weights =? n)%nat then None
  else
    match last cum_weights with
    | None => None
    | Some total =>
        if Qle_bool total 0 then None
        else
          let '(u, e') := random e in
          match population !! bisect (S n) cum_weights (u * total)%Q 0 (pred n) with
          | Some x => Some (x, e')
          | None => None
          end
    end.
End Env.

(** ** Python values, as far as [to_dict] and [from_dict] use them *)

Module Value.
#[warnings="-register-all"]
Inductive t :=
| VNone
| VInt (z : Z)
| VFloat (q : Q)
| VStr (s : pystr)
| VList (l : list t)
| VDict (d : list (string * t)).

(** [d[key]]: [None] is the [KeyError] (or the [TypeError] on a value
    that is no dictionary). *)
Fixpoint lookup (key : string) (d : list (string * t)) : option t :=
  match d with
  | [] => None
  | (k, v) :: d' => if String.eqb k key then Some v else lookup key d'
  end.

Definition getitem (v : t) (key : string) : option t :=
  match v with VDict d => lookup key d | _ => None end.

(** [d.get(key, default)] *)
Definition get (v : t) (key : string) (default : t) : t :=
  match v with
  | VDict d => match lookup key d with Some x => x | None => default end
  | _ => default
  end.

(** Truth value of [v] in a condition. *)
Definition truthy (v : t) : bool :=
  match v with
  | VNone => false
  | VInt z => negb (z =? 0)%Z
  | VFloat q => negb (Qeq_bool q 0)
  | VStr s => match s with [] => false | _ => true end
  | VList l => match l with [] => false | _ => true end
  | VDict d => match d with [] => false | _ => true end
  end.

(** Reading a value at the type a field is declared with; [None] where
    the value has another shape. *)
Definition as_str (v : t) : option pystr :=
  match v with VStr s => Some s | _ => None end.

Definition as_int (v : t) : option Z :=
  match v with VInt z => Some z | _ => None end.

Definition as_float (v : t) : option Q :=
  match v with VFloat q => Some q | VInt z => Some (inject_Z z) | _ => None end.

Definition as_list (v : t) : option (list t) :=
  match v with VList l => Some l | _ => None end.

Definition as_str_list (v : t) : option (list pystr) :=
  l ← as_list v; mapM as_str l.

(** [UUID(v)] *)
Definition as_uuid (v : t) : option UUID := uuid_parse <$> as_str v.

(** [{UUID(c) for c in v}], before the set is built. *)
Definition as_uuid_list (v : t) : option (list UUID) :=
  l ← as_list v; mapM as_uuid l.

(** [conv(data[key]) if data.get(key) else None] *)
Definition if_set {A} (data : t) (key : string) (conv : t → option A)
    : option (option A) :=
  if truthy (get data key VNone)
  then match getitem data key ≫= conv with
       | Some x => Some (Some x)
       | None => None
       end
  else Some None.

Definition of_str_list (l : list pystr) : t := VList (VStr <$> l).
Definition of_uuid (u : UUID) : t := VStr (uuid_str u).
End Value.

(** ** agent.py *)

Module AgentProfile.
Record t := mk {
  age_group : pystr;
  interests : list pystr;
  region : pystr;
  trust_threshold : Q;
  openness : Q;
  influence : Q
}.

Definition default : t :=
  mk (py "25-34") [] (py "NA") 0.5%Q 0.5%Q 0.1%Q.

Definition age_groups_catalog : list pystr :=
  [py "13-17"; py "18-24"; py "25-34"; py "35-44"; py "45-54"; py "55-64";
   py "65+"].

Definition interests_pool : list pystr :=
  [py "tech"; py "music"; py "sports"; py "politics"; py "science";
   py "art"; py "gaming"; py "fashion"; py "food"; py "travel"; py "health";
   py "finance"; py "entertainment"; py "education"; py "environment";
   py "social"].

(** [AgentProfile.random(region)] *)
Definition random (region : pystr) (e : Env.t) : option (t * Env.t) :=
  let '(age_group, e1) := Env.choice [] age_groups_catalog e in
  let '(k, e2) := Env.randint 2 5 e1 in
  '(interests, e3) ← Env.sample interests_pool k e2;
  let '(trust_threshold, e4) := Env.betavariate 2 2 e3 in
  let '(openness, e5) := Env.betavariate 2 2 e4 in
  let '(influence, e6) := Env.betavariate 1 5 e5 in
  Some (mk age_group interests region trust_threshold openness influence, e6).
End AgentProfile.

Module AgentState.
Record t := mk {
  mood : Q;
  susceptibility : Q;
  last_active_step : Z;
  exposure_count : Z;
  adoption_count : Z
}.

Definition default : t := mk 0%Q 0.5%Q 0 0 0.

Definition update_susceptibility (self : t) (adopted : bool) : t :=
  if adopted then
    mk (mood self) (Qmax 0.1 (susceptibility self * 0.95))
       (last_active_step self) (exposure_count self) (adoption_count self)
  else
    mk (mood self) (Qmin 0.9 (susceptibility self * 1.02))
       (last_active_step self) (exposure_count self) (adoption_count self).
End AgentState.

Module Agent.
Record t := mk {
  id : UUID;
  world_id : UUID;
  profile : AgentProfile.t;
  state : AgentState.t;
  connections : gset UUID;
  beliefs : gset UUID;
  idea_exposures : gmap UUID Z;
  memory_refs : list pystr
}.

(** The dataclass constructor with the defaults of the optional fields. *)
Definition new (id world_id : UUID) (profile : AgentProfile.t)
    (state : AgentState.t) : t :=
  mk id world_id profile state ∅ ∅ ∅ [].

Definition set_connections (c : gset UUID) (self : t) : t :=
  mk (id self) (world_id self) (profile self) (state self) c
     (beliefs self) (idea_exposures self) (memory_refs self).

Definition set_beliefs (b : gset UUID) (self : t) : t :=
  mk (id self) (world_id self) (profile self) (state self)
     (connections self) b (idea_exposures self) (memory_refs self).

Definition set_state (s : AgentState.t) (self : t) : t :=
  mk (id self) (world_id self) (profile self) s (connections self)
     (beliefs self) (idea_exposures self) (memory_refs self).

Definition set_idea_exposures (x : gmap UUID Z) (self : t) : t :=
  mk (id self) (world_id self) (profile self) (state self)
     (connections self) (beliefs self) x (memory_refs self).

Definition add_connection (self : t) (agent_id : UUID) : t :=
  if decide (agent_id ≠ id self)
  then set_connections ({[agent_id]} ∪ connections self) self
  else self.

Definition remove_connection (self : t) (agent_id : UUID) : t :=
  set_connections (connections self ∖ {[agent_id]}) self.

Definition has_idea (self : t) (idea_id : UUID) : bool :=
  bool_decide (idea_id ∈ beliefs self).

Definition expose_to_idea (self : t) (idea_id : UUID) : t * Z :=
  let st := state self in
  let st' := AgentState.mk (AgentState.mood st) (AgentState.susceptibility st)
               (AgentState.last_active_step st)
               (AgentState.exposure_count st + 1)
               (AgentState.adoption_count st) in
  let current := default 0%Z (idea_exposures self !! idea_id) in
  (set_idea_exposures (<[idea_id := (current + 1)%Z]> (idea_exposures self))
     (set_state st' self),
   (current + 1)%Z).

Definition adopt_idea (self : t) (idea_id : UUID) : t * bool :=
  if bool_decide (idea_id ∈ beliefs self) then (self, false)
  else
    let self1 := set_beliefs ({[idea_id]} ∪ beliefs self) self in
    let st := state self1 in
    let st' := AgentState.mk (AgentState.mood st)
                 (AgentState.susceptibility st)
                 (AgentState.last_active_step st)
                 (AgentState.exposure_count st)
                 (AgentState.adoption_count st + 1) in
    (set_state (AgentState.update_susceptibility st' true) self1, true).

Definition forget_idea (self : t) (idea_id : UUID) : t * bool :=
  if bool_decide (idea_id ∉ beliefs self) then (self, false)
  else (set_beliefs (beliefs self ∖ {[idea_id]}) self, true).

Definition calculate_adoption_probability (self : t)
    (idea_virality idea_relevance sender_influence : Q)
    (trust_factor context_modifier : Q) : Q :=
  let exposure_bonus := 1%Q in
  let p := (idea_virality
            * sender_influence
            * AgentProfile.openness (profile self)
            * idea_relevance
            * trust_factor
            * context_modifier
            * AgentState.susceptibility (state self)
            * exposure_bonus)%Q in
  Qmax 0 (Qmin 1 p).

(** [set(idea_tags) & set(self.profile.interests)] *)
Definition overlap (idea_tags interests : list pystr) : gset pystr :=
  list_to_set idea_tags ∩ list_to_set interests.

Definition calculate_idea_relevance (self : t) (idea_tags : list pystr) : Q :=
  let interests := AgentProfile.interests (profile self) in
  match idea_tags, interests with
  | [], _ | _, [] => 0.3%Q
  | _, _ =>
      let o := overlap idea_tags interests in
      if decide (size o = 0%nat) then 0.2%Q
      else
        let relevance :=
          (inject_Z (Z.of_nat (size o))
           / inject_Z (Z.of_nat (Nat.max (length idea_tags) (length interests))))%Q in
        (0.2 + relevance * 0.8)%Q
  end.

Definition to_dict (self : t) : Value.t :=
  let p := profile self in
  let st := state self in
  Value.VDict [
    ("id", Value.of_uuid (id self));
    ("world_id", Value.of_uuid (world_id self));
    ("profile", Value.VDict [
       ("age_group", Value.VStr (AgentProfile.age_group p));
       ("interests", Value.of_str_list (AgentProfile.interests p));
       ("region", Value.VStr (AgentProfile.region p));
       ("trust_threshold", Value.VFloat (AgentProfile.trust_threshold p));
       ("openness", Value.VFloat (AgentProfile.openness p));
       ("influence", Value.VFloat (AgentProfile.influence p))]);
    ("state", Value.VDict [
       ("mood", Value.VFloat (AgentState.mood st));
       ("susceptibility", Value.VFloat (AgentState.susceptibility st));
       ("last_active_step", Value.VInt (AgentState.last_active_step st));
       ("exposure_count", Value.VInt (AgentState.exposure_count st));
       ("adoption_count", Value.VInt (AgentState.adoption_count st))]);
    ("connections", Value.VList (Value.of_uuid <$> elements (connections self)));
    ("beliefs", Value.VList (Value.of_uuid <$> elements (beliefs self)))
  ]%string.

(** [from_dict]: [None] stands for the exception of a missing key or an
    ill-shaped value. *)
Definition from_dict (data : Value.t) : option t :=
  id' ← Value.getitem data "id" ≫= Value.as_uuid;
  world_id' ← Value.getitem data "world_id" ≫= Value.as_uuid;
  p ← Value.getitem data "profile";
  age_group ← Value.getitem p "age_group" ≫= Value.as_str;
  interests ← Value.getitem p "interests" ≫= Value.as_str_list;
  region ← Value.getitem p "region" ≫= Value.as_str;
  trust_threshold ← Value.getitem p "trust_threshold" ≫= Value.as_float;
  openness ← Value.getitem p "openness" ≫= Value.as_float;
  influence ← Value.getitem p "influence" ≫= Value.as_float;
  st ← Value.getitem data "state";
  mood ← Value.getitem st "mood" ≫= Value.as_float;
  susceptibility ← Value.getitem st "susceptibility" ≫= Value.as_float;
  last_active_step ← Value.getitem st "last_active_step" ≫= Value.as_int;
  exposure_count ← Value.getitem st "exposure_count" ≫= Value.as_int;
  adoption_count ← Value.getitem st "adoption_count" ≫= Value.as_int;
  let agent :=
    new id' world_id'
      (AgentProfile.mk age_group interests region trust_threshold openness
         influence)
      (AgentState.mk mood susceptibility last_active_step exposure_count
         adoption_count) in
  cs ← Value.getitem data "connections" ≫= Value.as_uuid_list;
  bs ← Value.getitem data "beliefs" ≫= Value.as_uuid_list;
  Some (set_beliefs (list_to_set bs) (set_connections (list_to_set cs) agent)).
End Agent.

(** ** idea.py *)

Module MutationType.
Inductive t :=
  SIMPLIFY | EMOTIONALIZE | LOCALIZE | POLARIZE | MEMEIFY | RANDOM.

#[global] Instance eq_dec : EqDecision t.
Proof. solve_decision. Defined.

(** [list(MutationType)], in declaration order. *)
Definition members : list t :=
  [SIMPLIFY; EMOTIONALIZE; LOCALIZE; POLARIZE; MEMEIFY; RANDOM].

(** [mutation_type.value] *)
Definition value (m : t) : pystr :=
  match m with
  | SIMPLIFY => py "simplify"
  | EMOTIONALIZE => py "emotionalize"
  | LOCALIZE => py "localize"
  | POLARIZE => py "polarize"
  | MEMEIFY => py "memeify"
  | RANDOM => py "random"
  end.

(** [MutationType(value)]; [None] stands for the [ValueError] raised on a
    string that is no member's value. *)
Definition of_value (s : pystr) : option t :=
  find (λ m, bool_decide (value m = s)) members.
End MutationType.

Module IdeaTarget.
Record t := mk {
  age_groups : list pystr;
  interests : list pystr;
  regions : list pystr
}.

Definition default : t := mk [] [] [].

Definition is_nil {A} (l : list A) : bool :=
  match l with [] => true | _ => false end.

Definition matches_agent (self : t) (agent_age_group : pystr)
    (agent_interests : list pystr) (agent_region : pystr) : Q :=
  let '(score, checks) := (0%Q, 0%Z) in
  let '(score, checks) :=
    if is_nil (age_groups self) then (score, checks)
    else (if bool_decide (agent_age_group ∈ age_groups self)
          then (score + 1)%Q else score, (checks + 1)%Z) in
  let '(score, checks) :=
    if is_nil (interests self) then (score, checks)
    else
      let o : gset pystr :=
        list_to_set (interests self) ∩ list_to_set agent_interests in
      (if decide (size o = 0%nat) then score
       else (score + inject_Z (Z.of_nat (size o))
                     / inject_Z (Z.of_nat (length (interests self))))%Q,
       (checks + 1)%Z) in
  let '(score, checks) :=
    if is_nil (regions self) then (score, checks)
    else (if bool_decide (agent_region ∈ regions self)
          then (score + 1)%Q else score, (checks + 1)%Z) in
  if (checks =? 0)%Z then 1%Q else (score / inject_Z checks)%Q.
End IdeaTarget.

(** The error raised by [create_mutation]: [ValueError(message)]. *)
Inductive Exception := ValueError (message : pystr).

Module Idea.
Record t := mk {
  id : UUID;
  creator_id : UUID;
  world_id : UUID;
  text : pystr;
  tags : list pystr;
  media_refs : list pystr;
  target : IdeaTarget.t;
  virality_score : Q;
  emotional_valence : Q;
  complexity : Q;
  parent_id : option UUID;
  mutation_type : option MutationType.t;
  generation : Z;
  mutation_count : Z;
  mutation_budget : Z;
  embedding_id : option pystr;
  adopter_count : Z;
  reach : Z;
  rejection_count : Z;
  created_at : datetime
}.

Definition set_world_id (x : UUID) (i : t) : t :=
  mk (id i) (creator_id i) x (text i) (tags i) (media_refs i) (target i)
     (virality_score i) (emotional_valence i) (complexity i) (parent_id i)
     (mutation_type i) (generation i) (mutation_count i) (mutation_budget i)
     (embedding_id i) (adopter_count i) (reach i) (rejection_count i)
     (created_at i).

Definition set_mutation_count (x : Z) (i : t) : t :=
  mk (id i) (creator_id i) (world_id i) (text i) (tags i) (media_refs i)
     (target i) (virality_score i) (emotional_valence i) (complexity i)
     (parent_id i) (mutation_type i) (generation i) x (mutation_budget i)
     (embedding_id i) (adopter_count i) (reach i) (rejection_count i)
     (created_at i).

Definition set_counters (adopters reach' rejections : Z) (i : t) : t :=
  mk (id i) (creator_id i) (world_id i) (text i) (tags i) (media_refs i)
     (target i) (virality_score i) (emotional_valence i) (complexity i)
     (parent_id i) (mutation_type i) (generation i) (mutation_count i)
     (mutation_budget i) (embedding_id i) adopters reach' rejections
     (created_at i).

Definition adoption_rate (self : t) : Q :=
  if (reach self =? 0)%Z then 0%Q
  else (inject_Z (adopter_count self) / inject_Z (reach self))%Q.

Definition effective_virality (self : t) : Q :=
  let complexity_factor := (1 - complexity self * 0.5)%Q in
  (virality_score self * complexity_factor)%Q.

Definition can_mutate (self : t) : bool :=
  (mutation_count self <? mutation_budget self)%Z.

Definition record_exposure (self : t) : t :=
  set_counters (adopter_count self) (reach self + 1) (rejection_count self) self.

Definition record_adoption (self : t) : t :=
  set_counters (adopter_count self + 1) (reach self) (rejection_count self) self.

Definition record_rejection (self : t) : t :=
  set_counters (adopter_count self) (reach self) (rejection_count self + 1) self.

(** [create_mutation]: the parent after the call, and either the error
    raised or the mutant.  The mutant's [id] and [created_at] come from the
    dataclass default factories [uuid4] and [datetime.utcnow]. *)
Definition create_mutation (self : t) (mutation_type' : MutationType.t)
    (new_text : pystr) (virality_change emotional_change : Q) (e : Env.t)
    : t * (Exception + t) * Env.t :=
  if negb (can_mutate self) then
    (self, inl (ValueError (py "Idea has exceeded mutation budget")), e)
  else
    let self' := set_mutation_count (mutation_count self + 1) self in
    let '(new_id, e1) := Env.uuid4 e in
    let '(now, e2) := Env.utcnow e1 in
    let mutant :=
      mk new_id (creator_id self') (world_id self') new_text
         (tags self') (media_refs self')
         (IdeaTarget.mk (IdeaTarget.age_groups (target self'))
                        (IdeaTarget.interests (target self'))
                        (IdeaTarget.regions (target self')))
         (Qmax 0 (Qmin 1 (virality_score self' + virality_change)))
         (Qmax 0 (Qmin 1 (emotional_valence self' + emotional_change)))
         (complexity self')
         (Some (id self')) (Some mutation_type')
         (generation self' + 1) 0 (mutation_budget self')
         None 0 0 0 now in
    (self', inr mutant, e2).

Definition calculate_spread_probability (self : t)
    (sender_influence receiver_openness relevance trust_factor : Q) : Q :=
  let p := (effective_virality self
            * sender_influence
            * receiver_openness
            * relevance
            * trust_factor
            * (0.5 + emotional_valence self * 0.5))%Q in
  Qmax 0 (Qmin 1 p).
Definition to_dict (self : t) : Value.t :=
  Value.VDict [
    ("id", Value.of_uuid (id self));
    ("creator_id", Value.of_uuid (creator_id self));
    ("world_id", Value.of_uuid (world_id self));
    ("text", Value.VStr (text self));
    ("tags", Value.of_str_list (tags self));
    ("media_refs", Value.of_str_list (media_refs self));
    ("target", Value.VDict [
       ("age_groups", Value.of_str_list (IdeaTarget.age_groups (target self)));
       ("interests", Value.of_str_list (IdeaTarget.interests (target self)));
       ("regions", Value.of_str_list (IdeaTarget.regions (target self)))]);
    ("virality_score", Value.VFloat (virality_score self));
    ("emotional_valence", Value.VFloat (emotional_valence self));
    ("complexity", Value.VFloat (complexity self));
    ("parent_id", match parent_id self with
                  | Some u => Value.of_uuid u
                  | None => Value.VNone
                  end);
    ("mutation_type", match mutation_type self with
                      | Some m => Value.VStr (MutationType.value m)
                      | None => Value.VNone
                      end);
    ("generation", Value.VInt (generation self));
    ("mutation_count", Value.VInt (mutation_count self));
    ("mutation_budget", Value.VInt (mutation_budget self));
    ("embedding_id", match embedding_id self with
                     | Some x => Value.VStr x
                     | None => Value.VNone
                     end);
    ("adopter_count", Value.VInt (adopter_count self));
    ("reach", Value.VInt (reach self));
    ("rejection_count", Value.VInt (rejection_count self));
    ("adoption_rate", Value.VFloat (adoption_rate self));
    ("created_at", Value.VStr (isoformat (created_at self)))
  ]%string.

(** An [Optional[str]] field read with [data.get(key)]. *)
Definition as_optional_str (v : Value.t) : option (option pystr) :=
  match v with
  | Value.VNone => Some None
  | Value.VStr x => Some (Some x)
  | _ => None
  end.

(** [from_dict]: [None] stands for the exception of a missing key, an
    unknown mutation type or an ill-shaped value. *)
Definition from_dict (data : Value.t) (e : Env.t) : option (t * Env.t) :=
  id' ← Value.getitem data "id" ≫= Value.as_uuid;
  creator_id' ← Value.getitem data "creator_id" ≫= Value.as_uuid;
  world_id' ← Value.getitem data "world_id" ≫= Value.as_uuid;
  text' ← Value.getitem data "text" ≫= Value.as_str;
  tags' ← Value.as_str_list (Value.get data "tags" (Value.VList []));
  media_refs' ← Value.as_str_list (Value.get data "media_refs" (Value.VList []));
  let tgt := Value.get data "target" (Value.VDict []) in
  age_groups ← Value.as_str_list (Value.get tgt "age_groups" (Value.VList []));
  interests ← Value.as_str_list (Value.get tgt "interests" (Value.VList []));
  regions ← Value.as_str_list (Value.get tgt "regions" (Value.VList []));
  virality_score' ←
    Value.as_float (Value.get data "virality_score" (Value.VFloat 0.2));
  emotional_valence' ←
    Value.as_float (Value.get data "emotional_valence" (Value.VFloat 0.5));
  complexity' ← Value.as_float (Value.get data "complexity" (Value.VFloat 0.3));
  parent_id' ←
    Value.if_set data "parent_id" Value.as_uuid;
  mutation_type' ←
    Value.if_set data "mutation_type"
      (λ v, Value.as_str v ≫= MutationType.of_value);
  generation' ← Value.as_int (Value.get data "generation" (Value.VInt 0));
  mutation_count' ← Value.as_int (Value.get data "mutation_count" (Value.VInt 0));
  mutation_budget' ← Value.as_int (Value.get data "mutation_budget" (Value.VInt 3));
  embedding_id' ← as_optional_str (Value.get data "embedding_id" Value.VNone);
  adopter_count' ← Value.as_int (Value.get data "adopter_count" (Value.VInt 0));
  reach' ← Value.as_int (Value.get data "reach" (Value.VInt 0));
  rejection_count' ← Value.as_int (Value.get data "rejection_count" (Value.VInt 0));
  created ← Value.if_set data "created_at" Value.as_str;
  let '(created_at', e') :=
    match created with
    | Some s => (fromisoformat s, e)
    | None => Env.utcnow e
    end in
  Some (mk id' creator_id' world_id' text' tags' media_refs'
          (IdeaTarget.mk age_groups interests regions)
          virality_score' emotional_valence' complexity' parent_id'
          mutation_type' generation' mutation_count' mutation_budget'
          embedding_id' adopter_count' reach' rejection_count' created_at',
        e').
End Idea.

(** ** world.py *)

Module WorldStatus.
Inductive t := CREATED | RUNNING | PAUSED | COMPLETED | ARCHIVED.

#[global] Instance eq_dec : EqDecision t.
Proof. solve_decision. Defined.
End WorldStatus.

Module NetworkType.
Inductive t := SCALE_FREE | SMALL_WORLD | RANDOM | GEO_LOCAL.
End NetworkType.

Module WorldConfig.
Record t := mk {
  population_size : Z;
  network_type : NetworkType.t;
  network_density : Q;
  mutation_rate : Q;
  decay_rate : Q;
  time_step_ms : Z;
  max_steps : option Z;
  regions : list pystr;
  region_weights : list Q
}.

Definition default : t :=
  mk 10000 NetworkType.SCALE_FREE 0.1%Q 0.01%Q 0.001%Q 100 None
     [py "NA"; py "EU"; py "ASIA"; py "LATAM"; py "AFRICA"; py "OCEANIA"]
     [0.2%Q; 0.25%Q; 0.35%Q; 0.1%Q; 0.05%Q; 0.05%Q].
End WorldConfig.

Module SpreadEvent.
Record t := mk {
  idea_id : UUID;
  from_agent_id : UUID;
  to_agent_id : UUID;
  probability : Q;
  accepted : bool;
  step : Z;
  timestamp : datetime
}.
End SpreadEvent.

(** [networkx.Graph]: an undirected graph, kept as a node set and a
    symmetric adjacency relation. *)
Module Graph.
Record t (V : Type) `{Countable V} := mk {
  nodes : gset V;
  adj : gset (V * V)
}.
Arguments mk {V _ _} _ _.
Arguments nodes {V _ _} _.
Arguments adj {V _ _} _.

Section ops.
Context `{Countable V}.

Definition empty : t V := mk ∅ ∅.

Definition add_node (g : t V) (u : V) : t V :=
  mk ({[u]} ∪ nodes g) (adj g).

Definition add_nodes_from (g : t V) (us : list V) : t V :=
  mk (list_to_set us ∪ nodes g) (adj g).

Definition add_edge (g : t V) (u v : V) : t V :=
  mk ({[u; v]} ∪ nodes g) ({[(u, v); (v, u)]} ∪ adj g).

Definition has_edge (g : t V) (u v : V) : Prop := (u, v) ∈ adj g.

(** [g.edges()]: every undirected edge once. *)
Definition edges (g : t V) : list (V * V) :=
  filter (λ p, (encode p.1 ≤ encode p.2)%positive) (elements (adj g)).
End ops.
End Graph.

(** The three generators of the [networkx] library the engine calls.  A
    generator returns [None] where the library raises. *)
Module NetworkX.
Record t := mk {
  barabasi_albert_graph : nat → Z → Env.t → option (Graph.t nat * Env.t);
  watts_strogatz_graph : nat → Z → Q → Env.t → option (Graph.t nat * Env.t);
  erdos_renyi_graph : nat → Q → Env.t → option (Graph.t nat * Env.t)
}.
End NetworkX.

(** [l[start:]] for a Python list. *)
Definition slice_from {A} (start : Z) (l : list A) : list A :=
  if (start <? 0)%Z then drop (Z.to_nat (Z.of_nat (length l) + start)) l
  else drop (Z.to_nat start) l.

(** [l[:stop]] for a Python list. *)
Definition slice_to {A} (stop : Z) (l : list A) : list A :=
  if (stop <? 0)%Z then take (Z.to_nat (Z.of_nat (length l) + stop)) l
  else take (Z.to_nat stop) l.

(** [list.sort(key=..., reverse=True)] and [sorted(..., reverse=True)]: the
    stable sort into non-increasing keys, elements of equal key staying in
    their original order.  [gt y x] is [key(y) > key(x)]. *)
Fixpoint insert_desc {A} (gt : A → A → bool) (x : A) (l : list A) : list A :=
  match l with
  | [] => [x]
  | y :: l' => if gt y x then y :: insert_desc gt x l' else x :: y :: l'
  end.

Definition sort_desc {A} (gt : A → A → bool) (l : list A) : list A :=
  foldr (insert_desc gt) [] l.

(** The entries of [WorldSnapshot.idea_stats] and
    [WorldSnapshot.regional_stats], and the snapshot itself. *)
Module IdeaStat.
Record t := mk {
  idea_id : pystr;
  text : pystr;
  adopters : Z;
  reach : Z;
  adoption_rate : Q;
  mutations : Z;
  generation : Z
}.
End IdeaStat.

Module RegionStat.
Record t := mk {
  total_agents : Z;
  active_agents : Z;
  total_adoptions : Z;
  saturation : Q
}.
End RegionStat.

Module WorldSnapshot.
Record t := mk {
  world_id : UUID;
  step : Z;
  timestamp : datetime;
  total_agents : Z;
  active_agents : Z;
  total_ideas : Z;
  total_adoptions : Z;
  idea_stats : list IdeaStat.t;
  regional_stats : gmap pystr RegionStat.t
}.
End WorldSnapshot.

(** The dictionary returned by [run_step] (the wall-clock [duration_ms] is
    left out). *)
Module StepResult.
Record t := mk {
  step : Z;
  spread_attempts : Z;
  adoptions : Z;
  mutations : Z;
  decays : Z;
  active_agents : Z
}.
End StepResult.

Module World.
Record t := mk {
  id : UUID;
  creator_id : UUID;
  name : pystr;
  description : pystr;
  config : WorldConfig.t;
  is_public : bool;
  status : WorldStatus.t;
  current_step : Z;
  created_at : datetime;
  started_at : option datetime;
  completed_at : option datetime;
  agents : gmap UUID Agent.t;
  ideas : gmap UUID Idea.t;
  network : Graph.t UUID;
  recent_events : list SpreadEvent.t;
  max_recent_events : Z;
  total_spread_events : Z;
  total_adoptions : Z;
  total_mutations : Z
}.

(** [World.__init__] *)
Definition new (id creator_id : UUID) (name : pystr) (config : WorldConfig.t)
    (description : pystr) (is_public : bool) (e : Env.t) : t * Env.t :=
  let '(now, e') := Env.utcnow e in
  (mk id creator_id name description config is_public WorldStatus.CREATED 0
      now None None ∅ ∅ Graph.empty [] 1000 0 0 0, e').

Definition set_lifecycle (st : WorldStatus.t) (step : Z)
    (started completed : option datetime) (w : t) : t :=
  mk (id w) (creator_id w) (name w) (description w) (config w) (is_public w)
     st step (created_at w) started completed (agents w) (ideas w)
     (network w) (recent_events w) (max_recent_events w)
     (total_spread_events w) (total_adoptions w) (total_mutations w).

Definition set_status (st : WorldStatus.t) (w : t) : t :=
  set_lifecycle st (current_step w) (started_at w) (completed_at w) w.

Definition set_agents (a : gmap UUID Agent.t) (w : t) : t :=
  mk (id w) (creator_id w) (name w) (description w) (config w) (is_public w)
     (status w) (current_step w) (created_at w) (started_at w)
     (completed_at w) a (ideas w) (network w) (recent_events w)
     (max_recent_events w) (total_spread_events w) (total_adoptions w)
     (total_mutations w).

Definition set_ideas (i : gmap UUID Idea.t) (w : t) : t :=
  mk (id w) (creator_id w) (name w) (description w) (config w) (is_public w)
     (status w) (current_step w) (created_at w) (started_at w)
     (completed_at w) (agents w) i (network w) (recent_events w)
     (max_recent_events w) (total_spread_events w) (total_adoptions w)
     (total_mutations w).

Definition set_network (g : Graph.t UUID) (w : t) : t :=
  mk (id w) (creator_id w) (name w) (description w) (config w) (is_public w)
     (status w) (current_step w) (created_at w) (started_at w)
     (completed_at w) (agents w) (ideas w) g (recent_events w)
     (max_recent_events w) (total_spread_events w) (total_adoptions w)
     (total_mutations w).

Definition set_events (ev : list SpreadEvent.t) (n : Z) (w : t) : t :=
  mk (id w) (creator_id w) (name w) (description w) (config w) (is_public w)
     (status w) (current_step w) (created_at w) (started_at w)
     (completed_at w) (agents w) (ideas w) (network w) ev
     (max_recent_events w) n (total_adoptions w) (total_mutations w).

Definition set_totals (adoptions mutations : Z) (w : t) : t :=
  mk (id w) (creator_id w) (name w) (description w) (config w) (is_public w)
     (status w) (current_step w) (created_at w) (started_at w)
     (completed_at w) (agents w) (ideas w) (network w) (recent_events w)
     (max_recent_events w) (total_spread_events w) adoptions mutations.

(** [self.agents.values()] and [self.agents.keys()] *)
Definition agent_values (w : t) : list Agent.t := (map_to_list (agents w)).*2.
Definition agent_keys (w : t) : list UUID := (map_to_list (agents w)).*1.

Definition _record_event (w : t) (event : SpreadEvent.t) : t :=
  let w1 := set_events (recent_events w ++ [event])
                       (total_spread_events w + 1) w in
  if (max_recent_events w1 <? Z.of_nat (length (recent_events w1)))%Z
  then set_events (slice_from (- max_recent_events w1) (recent_events w1))
                  (total_spread_events w1) w1
  else w1.

(** The branch of [_trigger_mutation] that fixes the changes and the new
    text for the drawn mutation type. *)
Definition mutation_changes (mutation_type : MutationType.t)
    (idea : Idea.t) (e : Env.t) : (pystr * Q * Q) * Env.t :=
  let text := Idea.text idea in
  match mutation_type with
  | MutationType.SIMPLIFY =>
      ((py "[Simplified] " ++ take 100 text ++ py "...", 0.05%Q, 0%Q), e)
  | MutationType.EMOTIONALIZE =>
      ((py "[Emotional] " ++ text, 0.02%Q, 0.1%Q), e)
  | MutationType.POLARIZE =>
      ((py "[Polarized] " ++ text, 0.08%Q, 0.15%Q), e)
  | MutationType.MEMEIFY =>
      ((py "[Meme] " ++ take 50 text ++ py "... " ++ [128293%N], 0.1%Q, 0%Q), e)
  | _ =>
      let '(virality_change, e1) := Env.uniform (-0.05)%Q 0.1%Q e in
      let '(emotional_change, e2) := Env.uniform (-0.05)%Q 0.1%Q e1 in
      ((py "[Variant] " ++ text, virality_change, emotional_change), e2)
  end.

(** [_trigger_mutation(idea)], the idea being the catalog entry
    [idea_id].  The parent is updated in the catalog, the mutant is added
    under its own identifier (which [uuid4] makes differ from the
    identifiers in use; were it equal to [idea_id], the entry would be
    the mutant from then on). *)
Definition _trigger_mutation (w : t) (idea_id : UUID) (e : Env.t)
    : t * option Idea.t * Env.t :=
  match ideas w !! idea_id with
  | None => (w, None, e)
  | Some idea =>
      if negb (Idea.can_mutate idea) then (w, None, e)
      else
        let '(mutation_type, e1) :=
          Env.choice MutationType.SIMPLIFY MutationType.members e in
        let '((new_text, virality_change, emotional_change), e2) :=
          mutation_changes mutation_type idea e1 in
        match Idea.create_mutation idea mutation_type new_text
                virality_change emotional_change e2 with
        | (idea', inr mutant, e3) =>
            (set_ideas (<[Idea.id mutant := mutant]>
                          (<[idea_id := idea']> (ideas w))) w,
             Some mutant, e3)
        | (idea', inl _, e3) =>
            (set_ideas (<[idea_id := idea']> (ideas w)) w, None, e3)
        end
  end.

Definition start (w : t) (e : Env.t) : t * Env.t :=
  if decide (status w = WorldStatus.CREATED) then
    let '(now, e') := Env.utcnow e in
    (set_lifecycle WorldStatus.RUNNING (current_step w) (Some now)
       (completed_at w) w, e')
  else (w, e).

Definition pause (w : t) : t :=
  if decide (status w = WorldStatus.RUNNING)
  then set_status WorldStatus.PAUSED w else w.

Definition resume (w : t) : t :=
  if decide (status w = WorldStatus.PAUSED)
  then set_status WorldStatus.RUNNING w else w.

(** The local counters of [run_step], with the world and the environment
    the loops act on. *)
Record tick := mk_tick {
  tw : t;
  te : Env.t;
  spread_attempts : Z;
  adoptions : Z;
  mutations : Z;
  decays : Z
}.

(** Body of [for connection_id in spreader.connections]. *)
Definition spread_to (spreader_id idea_id connection_id : UUID) (s : tick)
    : tick :=
  let w := tw s in
  match agents w !! spreader_id, ideas w !! idea_id,
        agents w !! connection_id with
  | Some spreader, Some idea, Some receiver =>
      if Agent.has_idea receiver idea_id then s
      else
        let relevance :=
          Agent.calculate_idea_relevance receiver (Idea.tags idea) in
        let probability :=
          Idea.calculate_spread_probability idea
            (AgentProfile.influence (Agent.profile spreader))
            (AgentProfile.openness (Agent.profile receiver))
            relevance 1%Q in
        let spread_attempts' := (spread_attempts s + 1)%Z in
        let idea1 := Idea.record_exposure idea in
        let receiver1 := (Agent.expose_to_idea receiver idea_id).1 in
        let '(u, e1) := Env.random (te s) in
        if Qltb u probability then
          let receiver2 := (Agent.adopt_idea receiver1 idea_id).1 in
          let idea2 := Idea.record_adoption idea1 in
          let w1 :=
            set_totals (total_adoptions w + 1) (total_mutations w)
              (set_ideas (<[idea_id := idea2]> (ideas w))
                 (set_agents (<[connection_id := receiver2]> (agents w)) w)) in
          let '(now, e2) := Env.utcnow e1 in
          let event :=
            SpreadEvent.mk idea_id (Agent.id spreader) (Agent.id receiver)
              probability true (current_step w1) now in
          let w2 := _record_event w1 event in
          if Idea.can_mutate idea2 then
            let '(u', e3) := Env.random e2 in
            if Qltb u' (WorldConfig.mutation_rate (config w2)) then
              match _trigger_mutation w2 idea_id e3 with
              | (w3, Some _, e4) =>
                  mk_tick
                    (set_totals (total_adoptions w3) (total_mutations w3 + 1) w3)
                    e4 spread_attempts' (adoptions s + 1) (mutations s + 1)
                    (decays s)
              | (w3, None, e4) =>
                  mk_tick w3 e4 spread_attempts' (adoptions s + 1)
                    (mutations s) (decays s)
              end
            else
              mk_tick w2 e3 spread_attempts' (adoptions s + 1) (mutations s)
                (decays s)
          else
            mk_tick w2 e2 spread_attempts' (adoptions s + 1) (mutations s)
              (decays s)
        else
          let idea2 := Idea.record_rejection idea1 in
          mk_tick
            (set_ideas (<[idea_id := idea2]> (ideas w))
               (set_agents (<[connection_id := receiver1]> (agents w)) w))
            e1 spread_attempts' (adoptions s) (mutations s) (decays s)
  | _, _, _ => s
  end.

(** Body of [for idea_id in list(spreader.beliefs)]. *)
Definition spread_idea (spreader_id idea_id : UUID) (s : tick) : tick :=
  match ideas (tw s) !! idea_id, agents (tw s) !! spreader_id with
  | Some _, Some spreader =>
      fold_left (λ s' connection_id, spread_to spreader_id idea_id connection_id s')
        (elements (Agent.connections spreader)) s
  | _, _ => s
  end.

(** Body of [for spreader in spreaders]: the spreader is the object stored
    under [spreader_id]; its beliefs are copied when its turn begins. *)
Definition spreader_turn (spreader_id : UUID) (s : tick) : tick :=
  match agents (tw s) !! spreader_id with
  | Some spreader =>
      fold_left (λ s' idea_id, spread_idea spreader_id idea_id s')
        (elements (Agent.beliefs spreader)) s
  | None => s
  end.

(** Body of the decay loop over [list(agent.beliefs)]. *)
Definition decay_belief (agent_id idea_id : UUID) (s : tick) : tick :=
  let w := tw s in
  let '(u, e1) := Env.random (te s) in
  if Qltb u (WorldConfig.decay_rate (config w)) then
    match agents w !! agent_id with
    | Some agent =>
        let '(agent', forgotten) := Agent.forget_idea agent idea_id in
        mk_tick (set_agents (<[agent_id := agent']> (agents w)) w) e1
          (spread_attempts s) (adoptions s) (mutations s)
          (if forgotten then decays s + 1 else decays s)%Z
    | None =>
        mk_tick w e1 (spread_attempts s) (adoptions s) (mutations s) (decays s)
    end
  else mk_tick w e1 (spread_attempts s) (adoptions s) (mutations s) (decays s).

Definition decay_agent (agent_id : UUID) (s : tick) : tick :=
  match agents (tw s) !! agent_id with
  | Some agent =>
      fold_left (λ s' idea_id, decay_belief agent_id idea_id s')
        (elements (Agent.beliefs agent)) s
  | None => s
  end.

(** The spreaders: the agents with a belief, by identifier. *)
Definition spreaders (w : t) : list UUID :=
  (filter (λ kv, Agent.beliefs kv.2 ≠ ∅) (map_to_list (agents w))).*1.

Definition active_agents (w : t) : Z :=
  Z.of_nat (length (spreaders w)).

(** The propagation loop over the shuffled spreaders. *)
Definition spread_phase (order : list UUID) (s : tick) : tick :=
  fold_left (λ s' spreader_id, spreader_turn spreader_id s') order s.

Definition decay_phase (s : tick) : tick :=
  fold_left (λ s' agent_id, decay_agent agent_id s') (agent_keys (tw s)) s.

(** [if self.config.max_steps and self.current_step >= self.config.max_steps] *)
Definition max_steps_reached (w : t) : bool :=
  match WorldConfig.max_steps (config w) with
  | Some m => negb (m =? 0)%Z && (m <=? current_step w)%Z
  | None => false
  end.

(** The end of [run_step]: step counter and completion. *)
Definition finish_step (w : t) (e : Env.t) : t * Env.t :=
  let w1 := set_lifecycle (status w) (current_step w + 1) (started_at w)
              (completed_at w) w in
  if max_steps_reached w1 then
    let '(now, e') := Env.utcnow e in
    (set_lifecycle WorldStatus.COMPLETED (current_step w1) (started_at w1)
       (Some now) w1, e')
  else (w1, e).

Definition run_step (w : t) (e : Env.t)
    : t * (pystr + StepResult.t) * Env.t :=
  if decide (status w ≠ WorldStatus.RUNNING) then
    (w, inl (py "World is not running"), e)
  else
    let '(order, e1) := Env.shuffle (spreaders w) e in
    let s1 := spread_phase order (mk_tick w e1 0 0 0 0) in
    let s2 := decay_phase s1 in
    let '(w', e') := finish_step (tw s2) (te s2) in
    (w',
     inr (StepResult.mk (current_step w') (spread_attempts s2) (adoptions s2)
            (mutations s2) (decays s2) (active_agents w')),
     e').

(** Body of the agent-creation loop of [initialize_population]. *)
Definition create_agent (st : t * Env.t) : option (t * Env.t) :=
  let '(w, e) := st in
  '(region, e1) ← Env.choices (WorldConfig.regions (config w))
                     (WorldConfig.region_weights (config w)) e;
  '(profile, e2) ← AgentProfile.random region e1;
  let '(agent_id, e3) := Env.uuid4 e2 in
  let agent := Agent.new agent_id (id w) profile AgentState.default in
  Some (set_network (Graph.add_node (network w) agent_id)
          (set_agents (<[agent_id := agent]> (agents w)) w), e3).

(** Body of [for i, j in temp_graph.edges()]. *)
Definition connect (agent_ids : list UUID) (w : t) (ij : nat * nat)
    : option t :=
  agent_i_id ← agent_ids !! ij.1;
  agent_j_id ← agent_ids !! ij.2;
  let w1 := set_network (Graph.add_edge (network w) agent_i_id agent_j_id) w in
  agent_i ← agents w1 !! agent_i_id;
  let w2 :=
    set_agents (<[agent_i_id := Agent.add_connection agent_i agent_j_id]>
                  (agents w1)) w1 in
  agent_j ← agents w2 !! agent_j_id;
  Some (set_agents (<[agent_j_id := Agent.add_connection agent_j agent_i_id]>
                      (agents w2)) w2).

(** GEO_LOCAL, body of [for _ in range(connections_to_make)]. *)
Definition geo_candidate (w : t) (agent_ids : list UUID) (n i : nat)
    (agent_i : Agent.t) (st : Graph.t nat * Env.t)
    : option (Graph.t nat * Env.t) :=
  let '(g, e) := st in
  let '(j, e1) := Env.randint 0 (Z.of_nat n - 1) e in
  let j := Z.to_nat j in
  if decide (i ≠ j) then
    agent_j_id ← agent_ids !! j;
    agent_j ← agents w !! agent_j_id;
    let '(u, e2) := Env.random e1 in
    if decide (AgentProfile.region (Agent.profile agent_i)
               = AgentProfile.region (Agent.profile agent_j)) then
      if Qltb u 0.7 then Some (Graph.add_edge g i j, e2) else Some (g, e2)
    else
      if Qltb u 0.3 then Some (Graph.add_edge g i j, e2) else Some (g, e2)
  else Some (g, e1).

(** GEO_LOCAL, body of [for i in range(n)]. *)
Definition geo_agent (w : t) (agent_ids : list UUID) (n : nat)
    (st : Graph.t nat * Env.t) (i : nat) : option (Graph.t nat * Env.t) :=
  agent_i_id ← agent_ids !! i;
  agent_i ← agents w !! agent_i_id;
  let connections_to_make :=
    Z.max 1 (py_int (inject_Z (Z.of_nat n)
                     * WorldConfig.network_density (config w))) in
  foldl_opt (λ st' _, geo_candidate w agent_ids n i agent_i st')
    (seq 0 (Z.to_nat connections_to_make)) st.

Definition geo_local_graph (w : t) (agent_ids : list UUID) (e : Env.t)
    : option (Graph.t nat * Env.t) :=
  let n := length agent_ids in
  foldl_opt (geo_agent w agent_ids n) (seq 0 n)
    (Graph.add_nodes_from Graph.empty (seq 0 n), e).

Definition _create_network (nx : NetworkX.t) (w : t) (e : Env.t)
    : option (t * Env.t) :=
  let agent_ids := agent_keys w in
  let n := length agent_ids in
  let density := WorldConfig.network_density (config w) in
  '(temp_graph, e') ←
    match WorldConfig.network_type (config w) with
    | NetworkType.SCALE_FREE =>
        let m := Z.max 2 (py_int (inject_Z (Z.of_nat n) * density / 2)) in
        NetworkX.barabasi_albert_graph nx n m e
    | NetworkType.SMALL_WORLD =>
        let k := Z.max 4 (py_int (inject_Z (Z.of_nat n) * density)) in
        NetworkX.watts_strogatz_graph nx n k 0.3%Q e
    | NetworkType.RANDOM =>
        NetworkX.erdos_renyi_graph nx n density e
    | NetworkType.GEO_LOCAL =>
        geo_local_graph w agent_ids e
    end;
  w' ← foldl_opt (connect agent_ids) (Graph.edges temp_graph) w;
  Some (w', e').

Definition initialize_population (nx : NetworkX.t) (w : t) (e : Env.t)
    : option (t * Env.t) :=
  '(w1, e1) ←
    foldl_opt (λ st _, create_agent st)
      (seq 0 (Z.to_nat (WorldConfig.population_size (config w)))) (w, e);
  _create_network nx w1 e1.
(** [agent_count] and [idea_count] *)
Definition agent_count (w : t) : Z := Z.of_nat (size (agents w)).
Definition idea_count (w : t) : Z := Z.of_nat (size (ideas w)).

(** [random.sample] of the standard library as [inject_idea] calls it, on
    the candidates by identifier; [None] where the library raises. *)
Definition sampler := list UUID → Z → Env.t → option (list UUID * Env.t).

(** The score [inject_idea] gives a candidate. *)
Definition seed_score (idea : Idea.t) (agent : Agent.t) : Q :=
  (IdeaTarget.matches_agent (Idea.target idea)
     (AgentProfile.age_group (Agent.profile agent))
     (AgentProfile.interests (Agent.profile agent))
     (AgentProfile.region (Agent.profile agent))
   * (0.5 + AgentProfile.influence (Agent.profile agent)))%Q.

(** Body of [for agent in adopters]: the agent is the object stored under
    [agent_key], the idea the catalog entry [idea_id]. *)
Definition seed_adopter (idea_id : UUID) (st : t * list UUID)
    (agent_key : UUID) : t * list UUID :=
  let '(w, adopted_ids) := st in
  match agents w !! agent_key with
  | Some agent =>
      let '(agent', adopted) := Agent.adopt_idea agent idea_id in
      if adopted then
        let ideas' :=
          match ideas w !! idea_id with
          | Some idea => <[idea_id := Idea.record_adoption idea]> (ideas w)
          | None => ideas w
          end in
        (set_ideas ideas' (set_agents (<[agent_key := agent']> (agents w)) w),
         adopted_ids ++ [Agent.id agent'])
      else (w, adopted_ids)
  | None => (w, adopted_ids)
  end.

(** [inject_idea(idea, initial_adopters)]: the world after the call, the
    identifiers returned, the environment. *)
Definition inject_idea (sample : sampler) (w : t) (idea : Idea.t)
    (initial_adopters : Z) (e : Env.t) : option (t * list UUID * Env.t) :=
  let idea1 := Idea.set_world_id (id w) idea in
  let w1 := set_ideas (<[Idea.id idea1 := idea1]> (ideas w)) w in
  let scored :=
    (λ kv : UUID * Agent.t, (kv.1, seed_score idea1 kv.2))
      <$> map_to_list (agents w1) in
  let sorted := sort_desc (λ y x : UUID * Q, Qltb x.2 y.2) scored in
  let top_candidates :=
    (slice_to (Z.max (initial_adopters * 10) 100) sorted).*1 in
  '(adopters, e') ←
    sample top_candidates
      (Z.min initial_adopters (Z.of_nat (length top_candidates))) e;
  let '(w2, adopted_ids) :=
    fold_left (seed_adopter (Idea.id idea1)) adopters (w1, []) in
  Some (w2, adopted_ids, e').

(** One entry of [idea_stats]. *)
Definition idea_stat (idea : Idea.t) : IdeaStat.t :=
  IdeaStat.mk (uuid_str (Idea.id idea)) (take 100 (Idea.text idea))
    (Idea.adopter_count idea) (Idea.reach idea) (Idea.adoption_rate idea)
    (Idea.mutation_count idea) (Idea.generation idea).

(** One entry of [regional_stats]. *)
Definition region_stat (w : t) (region : pystr) : RegionStat.t :=
  let region_agents :=
    filter (λ a, AgentProfile.region (Agent.profile a) = region)
      (agent_values w) in
  let active := length (filter (λ a, Agent.beliefs a ≠ ∅) region_agents) in
  let total_adoptions :=
    fold_left (λ n a, (n + Z.of_nat (size (Agent.beliefs a)))%Z)
      region_agents 0%Z in
  RegionStat.mk (Z.of_nat (length region_agents)) (Z.of_nat active)
    total_adoptions
    (if IdeaTarget.is_nil region_agents then 0%Q
     else (inject_Z (Z.of_nat active)
           / inject_Z (Z.of_nat (length region_agents)))%Q).

Definition get_snapshot (w : t) (e : Env.t) : WorldSnapshot.t * Env.t :=
  let idea_stats :=
    sort_desc (λ y x, (IdeaStat.adopters x <? IdeaStat.adopters y)%Z)
      (idea_stat <$> (map_to_list (ideas w)).*2) in
  let regional_stats :=
    fold_left (λ stats region, <[region := region_stat w region]> stats)
      (WorldConfig.regions (config w)) (∅ : gmap pystr RegionStat.t) in
  let '(now, e') := Env.utcnow e in
  (WorldSnapshot.mk (id w) (current_step w) now (agent_count w)
     (active_agents w) (idea_count w) (total_adoptions w) idea_stats
     regional_stats, e').
End World.

(** ** manager.py *)

Module SimulationManager.
(** [world_tasks] keeps the identifiers of the worlds that own a loop
    task; the manager's operations are modelled as they run when nothing
    else is scheduled between their statements. *)
Record t := mk {
  max_concurrent_worlds : Z;
  worlds : gmap UUID World.t;
  world_tasks : gset UUID;
  _running : bool
}.

Definition new (max_concurrent_worlds : Z) : t :=
  mk max_concurrent_worlds ∅ ∅ false.

Definition set_worlds (ws : gmap UUID World.t) (m : t) : t :=
  mk (max_concurrent_worlds m) ws (world_tasks m) (_running m).

Definition set_world_tasks (ts : gset UUID) (m : t) : t :=
  mk (max_concurrent_worlds m) (worlds m) ts (_running m).

Definition get_world (m : t) (world_id : UUID) : option World.t :=
  worlds m !! world_id.

(** The status of a world of the manager, if it exists. *)
Definition status_of (m : t) (world_id : UUID) : option WorldStatus.t :=
  World.status <$> worlds m !! world_id.

Definition create_world (nx : NetworkX.t) (m : t) (creator_id : UUID)
    (name description : pystr) (config : option WorldConfig.t)
    (is_public : bool) (e : Env.t) : option (t * World.t * Env.t) :=
  if (max_concurrent_worlds m <=? Z.of_nat (size (worlds m)))%Z then None
  else
    let '(world_id, e1) := Env.uuid4 e in
    let world_config := default WorldConfig.default config in
    let '(world, e2) :=
      World.new world_id creator_id name world_config description is_public e1 in
    '(world', e3) ← World.initialize_population nx world e2;
    Some (set_worlds (<[world_id := world']> (worlds m)) m, world', e3).

Definition start_world (m : t) (world_id : UUID) (e : Env.t)
    : t * bool * Env.t :=
  match worlds m !! world_id with
  | None => (m, false, e)
  | Some world =>
      if decide (World.status world = WorldStatus.RUNNING) then (m, true, e)
      else
        let '(world', e') := World.start world e in
        (set_world_tasks ({[world_id]} ∪ world_tasks m)
           (set_worlds (<[world_id := world']> (worlds m)) m),
         true, e')
  end.

Definition stop_world (m : t) (world_id : UUID) : t * bool :=
  match worlds m !! world_id with
  | None => (m, false)
  | Some world =>
      (set_world_tasks (world_tasks m ∖ {[world_id]})
         (set_worlds (<[world_id := World.pause world]> (worlds m)) m),
       true)
  end.

Definition delete_world (m : t) (world_id : UUID) : t * bool :=
  match worlds m !! world_id with
  | None => (m, false)
  | Some _ =>
      let m1 := (stop_world m world_id).1 in
      (set_worlds (delete world_id (worlds m1)) m1, true)
  end.

(** The loop of [step_world]: [for _ in range(steps)]. *)
Fixpoint run_steps (steps : nat) (world : World.t) (e : Env.t)
    : World.t * list (pystr + StepResult.t) * Env.t :=
  match steps with
  | O => (world, [], e)
  | S steps' =>
      let '(world1, result, e1) := World.run_step world e in
      let '(world2, results, e2) := run_steps steps' world1 e1 in
      (world2, result :: results, e2)
  end.

Definition step_world (m : t) (world_id : UUID) (steps : Z) (e : Env.t)
    : t * list (pystr + StepResult.t) * Env.t :=
  match worlds m !! world_id with
  | None => (m, [inl (py "World not found")], e)
  | Some world =>
      let original_status := World.status world in
      let world1 := World.set_status WorldStatus.RUNNING world in
      let '(world2, results, e') := run_steps (Z.to_nat steps) world1 e in
      let world3 :=
        if decide (original_status = WorldStatus.PAUSED)
        then World.set_status WorldStatus.PAUSED world2 else world2 in
      (set_worlds (<[world_id := world3]> (worlds m)) m, results, e')
  end.

(** [_run_world_loop]: the body of the loop task, for at most [fuel]
    iterations of its [while]. *)
Fixpoint _run_world_loop (fuel : nat) (m : t) (world_id : UUID) (e : Env.t)
    : t * Env.t :=
  match fuel with
  | O => (m, e)
  | S fuel' =>
      match worlds m !! world_id with
      | None => (m, e)
      | Some world =>
          if _running m && bool_decide (World.status world = WorldStatus.RUNNING)
          then
            let '(world', _, e') := World.run_step world e in
            _run_world_loop fuel' (set_worlds (<[world_id := world']> (worlds m)) m)
              world_id e'
          else (set_world_tasks (world_tasks m ∖ {[world_id]}) m, e)
      end
  end.
(** [active_world_count] *)
Definition active_world_count (m : t) : Z :=
  Z.of_nat (length (filter (λ w, World.status w = WorldStatus.RUNNING)
                      (map_to_list (worlds m)).*2)).

(** [start] and [stop] of the manager.  [stop] cancels every loop task
    and clears the table of tasks; it does not touch the worlds. *)
Definition start (m : t) : t :=
  mk (max_concurrent_worlds m) (worlds m) (world_tasks m) true.

Definition stop (m : t) : t :=
  mk (max_concurrent_worlds m) (worlds m) ∅ false.

(** [inject_idea]: the outer [None] is the exception [random.sample] raises
    inside [World.inject_idea]; the inner one the result for a world that
    does not exist.  The idea returned is the object the catalog holds. *)
Definition inject_idea (sample : World.sampler) (m : t)
    (world_id creator_id : UUID) (text : pystr) (tags : option (list pystr))
    (target : option IdeaTarget.t) (virality_score emotional_valence : Q)
    (initial_adopters : Z) (e : Env.t) : option (t * option Idea.t * Env.t) :=
  match worlds m !! world_id with
  | None => Some (m, None, e)
  | Some world =>
      let '(idea_id, e1) := Env.uuid4 e in
      let '(now, e2) := Env.utcnow e1 in
      let idea :=
        Idea.mk idea_id creator_id world_id text (default [] tags) []
          (default IdeaTarget.default target) virality_score
          emotional_valence 0.3%Q None None 0 0 3 None 0 0 0 now in
      '(world', _, e3) ← World.inject_idea sample world idea initial_adopters e2;
      Some (set_worlds (<[world_id := world']> (worlds m)) m,
            World.ideas world' !! idea_id, e3)
  end.

Definition get_snapshot (m : t) (world_id : UUID) (e : Env.t)
    : option WorldSnapshot.t * Env.t :=
  match worlds m !! world_id with
  | None => (None, e)
  | Some world =>
      let '(snapshot, e') := World.get_snapshot world e in (Some snapshot, e')
  end.

Definition get_idea (m : t) (world_id idea_id : UUID) : option Idea.t :=
  match worlds m !! world_id with
  | None => None
  | Some world => World.ideas world !! idea_id
  end.
End SimulationManager.

(** ** api/routes.py: the leaderboard *)

Module LeaderboardEntry.
Record t := mk {
  rank : Z;
  idea_id : pystr;
  text : pystr;
  creator_id : pystr;
  adopters : Z;
  reach : Z;
  adoption_rate : Q;
  generation : Z
}.
End LeaderboardEntry.

Module Routes.
(** The ideas [get_leaderboard] lists:
    [sorted(world.ideas.values(), key=adopter_count, reverse=True)[:limit]]. *)
Definition top_ideas (world : World.t) (limit : Z) : list Idea.t :=
  slice_to limit
    (sort_desc (λ y x, (Idea.adopter_count x <? Idea.adopter_count y)%Z)
       (map_to_list (World.ideas world)).*2).

(** Body of [for rank, idea in enumerate(ideas, 1)]. *)
Definition leaderboard_entry (i : nat) (idea : Idea.t) : LeaderboardEntry.t :=
  LeaderboardEntry.mk (Z.of_nat i + 1) (uuid_str (Idea.id idea))
    (take 100 (Idea.text idea)) (uuid_str (Idea.creator_id idea))
    (Idea.adopter_count idea) (Idea.reach idea) (Idea.adoption_rate idea)
    (Idea.generation idea).

(** [get_leaderboard]: [None] is the 404 answer for an unknown world;
    otherwise the world's step and the leaderboard. *)
Definition get_leaderboard (m : SimulationManager.t) (world_id : UUID)
    (limit : Z) : option (Z * list LeaderboardEntry.t) :=
  match SimulationManager.get_world m world_id with
  | None => None
  | Some world =>
      Some (World.current_step world,
            imap leaderboard_entry (top_ideas world limit))
  end.
End Routes.

(** * Predicates used in the statements *)

(** The clamp of a probability, [max(0.0, min(1.0, p))]. *)
Definition clamp01 (p : Q) : Q := Qmax 0 (Qmin 1 p).

(** The probability a tick computes for one attempt: the idea's formula
    with the default trust factor. *)
Definition tick_probability (spreader receiver : Agent.t) (idea : Idea.t) : Q :=
  Idea.calculate_spread_probability idea
    (AgentProfile.influence (Agent.profile spreader))
    (AgentProfile.openness (Agent.profile receiver))
    (Agent.calculate_idea_relevance receiver (Idea.tags idea)) 1%Q.

(** The part of an agent that no operation of a tick writes. *)
Definition static (a : Agent.t)
    : UUID * UUID * AgentProfile.t * gset UUID :=
  (Agent.id a, Agent.world_id a, Agent.profile a, Agent.connections a).

(** The part of a world that the two loops of a tick leave alone:
    configuration, status, step counter, graph, and the static part of
    every agent. *)
Definition skeleton (w : World.t) :=
  (World.config w, World.status w, World.current_step w, World.network w,
   static <$> World.agents w).

(** What an agent holds about one idea: its exposure count for it and
    whether it believes it. *)
Definition idea_view (i : UUID) (a : Agent.t) : option Z * bool :=
  (Agent.idea_exposures a !! i, bool_decide (i ∈ Agent.beliefs a)).

(** An idea whose mutation count is between 0 and its budget. *)
Definition within_budget (i : Idea.t) : Prop :=
  (0 <= Idea.mutation_count i <= Idea.mutation_budget i)%Z.

(** Every idea of the catalog is within its budget. *)
Definition budgets_kept (w : World.t) : Prop :=
  map_Forall (λ _ i, within_budget i) (World.ideas w).

(** Every agent is stored under its own identifier. *)
Definition keyed_by_id (w : World.t) : Prop :=
  ∀ k a, World.agents w !! k = Some a → Agent.id a = k.

(** For every edge (u, v) of the graph, v is in u's connections and u is in
    v's; and no agent is in its own connections. *)
Definition connections_sound (w : World.t) : Prop :=
  (∀ u v, Graph.has_edge (World.network w) u v →
     ∃ au av, World.agents w !! u = Some au ∧ World.agents w !! v = Some av
              ∧ v ∈ Agent.connections au ∧ u ∈ Agent.connections av)
  ∧ (∀ k a, World.agents w !! k = Some a → Agent.id a ∉ Agent.connections a).

(** A population before the graph is built: no edge, no connection. *)
Definition blank (w : World.t) : Prop :=
  keyed_by_id w
  ∧ Graph.adj (World.network w) = ∅
  ∧ ∀ k a, World.agents w !! k = Some a → Agent.connections a = ∅.

(** A graph without self-loops. *)
Definition loop_free (g : Graph.t nat) : Prop :=
  ∀ i j, (i, j) ∈ Graph.adj g → i ≠ j.

(** What the engine relies on from the library's generators: the graphs
    they return have no self-loops. *)
Definition generators_loop_free (nx : NetworkX.t) : Prop :=
  (∀ n m e g e', NetworkX.barabasi_albert_graph nx n m e = Some (g, e') →
                 loop_free g)
  ∧ (∀ n k p e g e', NetworkX.watts_strogatz_graph nx n k p e = Some (g, e') →
                     loop_free g)
  ∧ (∀ n p e g e', NetworkX.erdos_renyi_graph nx n p e = Some (g, e') →
                   loop_free g).

(** [max_steps] is set, not zero, and at most [current_step + n]. *)
Definition completes_within (w : World.t) (n : Z) : bool :=
  match WorldConfig.max_steps (World.config w) with
  | Some m => negb (m =? 0)%Z && (m <=? World.current_step w + n)%Z
  | None => false
  end.

(** [start_world; stop_world; start_world], the three calls run back to
    back as one caller awaits them. *)
Definition start_stop_start (m : SimulationManager.t) (world_id : UUID)
    (e : Env.t) : SimulationManager.t :=
  let '(m1, _, e1) := SimulationManager.start_world m world_id e in
  let '(m2, _) := SimulationManager.stop_world m1 world_id in
  (SimulationManager.start_world m2 world_id e1).1.1.

(** What [Agent.to_dict] keeps of an agent: everything but the per-idea
    exposure counts and the memory references, which [from_dict] leaves at
    their defaults. *)
Definition serialised_part (a : Agent.t) : Agent.t :=
  Agent.mk (Agent.id a) (Agent.world_id a) (Agent.profile a) (Agent.state a)
    (Agent.connections a) (Agent.beliefs a) ∅ [].

(** How often agent [c] has been exposed to idea [i]. *)
Definition exposures_to (w : World.t) (c i : UUID) : Z :=
  match World.agents w !! c with
  | Some a => default 0%Z (Agent.idea_exposures a !! i)
  | None => 0%Z
  end.

(** Agent [c] believes idea [i]. *)
Definition believes (w : World.t) (c i : UUID) : Prop :=
  ∃ a, World.agents w !! c = Some a ∧ i ∈ Agent.beliefs a.

(** The state of [run_step] when the loop over the shuffled spreaders
    begins. *)
Definition tick_start (w : World.t) (e : Env.t) : World.tick :=
  World.mk_tick w (Env.shuffle (World.spreaders w) e).2 0 0 0 0.

(** What the engine relies on from [uuid4]: from now on it returns no
    identifier of [used], and no identifier twice. *)
Definition uuid4_fresh (used : gset UUID) (e : Env.t) : Prop :=
  (∀ n, (Env.uuid_pos e ≤ n)%nat → Env.uuids e n ∉ used)
  ∧ (∀ m n, (Env.uuid_pos e ≤ m < n)%nat → Env.uuids e m ≠ Env.uuids e n).

(** ** Predicates of the further properties *)

(** The result of a step on a RUNNING world, from the state of the two
    loops when they end. *)
Definition step_outcome (s : World.tick)
    : World.t * (pystr + StepResult.t) * Env.t :=
  let '(w', e') := World.finish_step (World.tw s) (World.te s) in
  (w',
   inr (StepResult.mk (World.current_step w') (World.spread_attempts s)
          (World.adoptions s) (World.mutations s) (World.decays s)
          (World.active_agents w')),
   e').

(** The counters of a tick that started in world [w0]: no more mutations
    than adoptions, no more adoptions than attempts, and the world's totals
    moved by the adoptions and the mutations. *)
Definition counters_consistent (w0 : World.t) (s : World.tick) : Prop :=
  (0 <= World.mutations s <= World.adoptions s)%Z
  ∧ (World.adoptions s <= World.spread_attempts s)%Z
  ∧ (0 <= World.decays s)%Z
  ∧ World.total_adoptions (World.tw s)
    = (World.total_adoptions w0 + World.adoptions s)%Z
  ∧ World.total_mutations (World.tw s)
    = (World.total_mutations w0 + World.mutations s)%Z
  ∧ World.total_spread_events (World.tw s)
    = (World.total_spread_events w0 + World.adoptions s)%Z.

(** An event written by a tick that starts at step [step0]: it records an
    adoption, carries the step number the tick started with, and a
    probability in (0, 1]. *)
Definition tick_event (step0 : Z) (ev : SpreadEvent.t) : Prop :=
  SpreadEvent.accepted ev = true
  ∧ SpreadEvent.step ev = step0
  ∧ (0 < SpreadEvent.probability ev <= 1)%Q.

(** The events of [w] are events of [w0] or events of the running tick. *)
Definition events_from (w0 w : World.t) : Prop :=
  World.current_step w = World.current_step w0
  ∧ ∀ ev, ev ∈ World.recent_events w →
          ev ∈ World.recent_events w0 ∨ tick_event (World.current_step w0) ev.

(** The buffer of recent events holds at most [M] events, [M] being the
    world's bound. *)
Definition buffer_within (M : Z) (w : World.t) : Prop :=
  World.max_recent_events w = M
  ∧ (Z.of_nat (length (World.recent_events w)) <= M)%Z.

(** The sum of an agent's per-idea exposure counts. *)
Definition exposure_total (a : Agent.t) : Z :=
  map_fold (λ _ n acc, (n + acc)%Z) 0%Z (Agent.idea_exposures a).

(** The agent's [exposure_count] is the sum of its per-idea counts. *)
Definition exposures_accounted (a : Agent.t) : Prop :=
  AgentState.exposure_count (Agent.state a) = exposure_total a.

(** The susceptibility is between the floor 0.1 and the ceiling 0.9. *)
Definition susceptibility_in_range (a : Agent.t) : Prop :=
  (0.1 <= AgentState.susceptibility (Agent.state a) <= 0.9)%Q.






(** Every agent of [w0] is in [w], with at least the beliefs it had. *)
Definition beliefs_grow (w0 w : World.t) : Prop :=
  ∀ k a, World.agents w0 !! k = Some a →
         ∃ a', World.agents w !! k = Some a'
               ∧ Agent.beliefs a ⊆ Agent.beliefs a'.

(** The idea [inject_idea] stores in world [w], after [n] seeds adopted
    it. *)
Definition seeded (w : World.t) (idea : Idea.t) (n : nat) : Idea.t :=
  Idea.set_counters (Idea.adopter_count idea + Z.of_nat n) (Idea.reach idea)
    (Idea.rejection_count idea) (Idea.set_world_id (World.id w) idea).

(** The world with the idea in its catalog, before the seeds adopt it. *)
Definition with_idea (w : World.t) (idea : Idea.t) : World.t :=
  World.set_ideas
    (<[Idea.id idea := Idea.set_world_id (World.id w) idea]> (World.ideas w)) w.

(** The state of the loop of [inject_idea] over the seeds: [st.1] is the
    world, [st.2] the identifiers appended so far.  Only agents and ideas
    differ from [w]; the stored idea counts the seeds; every seed is an
    agent of [w] that did not believe the idea and has adopted it; every
    other agent is as in [w]. *)
Definition seeding (w : World.t) (idea : Idea.t) (st : World.t * list UUID)
    : Prop :=
  World.set_agents (World.agents w) (World.set_ideas (World.ideas w) st.1) = w
  ∧ World.ideas st.1
    = <[Idea.id idea := seeded w idea (length st.2)]> (World.ideas w)
  ∧ NoDup st.2
  ∧ (∀ k, k ∈ st.2 →
       ∃ a, World.agents w !! k = Some a
            ∧ (Idea.id idea ∉ Agent.beliefs a)
            ∧ World.agents st.1 !! k
              = Some (Agent.adopt_idea a (Idea.id idea)).1)
  ∧ (∀ k, k ∉ st.2 → World.agents st.1 !! k = World.agents w !! k).

(** What the engine relies on from [random.sample]: for [0 <= k <= n] it
    returns [k] elements of the population, taken at distinct positions. *)
Definition sampler_sound (sample : World.sampler) : Prop :=
  ∀ population k e,
    (0 <= k <= Z.of_nat (length population))%Z →
    ∃ chosen e',
      sample population k e = Some (chosen, e')
      ∧ length chosen = Z.to_nat k
      ∧ chosen ⊆ population
      ∧ (NoDup population → NoDup chosen).

(** The manager holds at most [max_concurrent_worlds] worlds. *)
Definition within_capacity (m : SimulationManager.t) : Prop :=
  (Z.of_nat (size (SimulationManager.worlds m))
   <= SimulationManager.max_concurrent_worlds m)%Z.

(** Draws that take no identifier from [uuid4]. *)
Definition same_uuids (e e' : Env.t) : Prop :=
  Env.uuids e' = Env.uuids e ∧ Env.uuid_pos e' = Env.uuid_pos e.

(** An agent as [initialize_population] leaves it in world [w0], stored
    under [k] in a world with graph [g]: keyed by its identifier, in world
    [w0], in its default state without beliefs and exposures, in a region
    of the configuration, and connected along edges of [g] only. *)
Definition initial_agent (w0 : World.t) (g : Graph.t UUID) (k : UUID)
    (a : Agent.t) : Prop :=
  Agent.id a = k
  ∧ Agent.world_id a = World.id w0
  ∧ Agent.state a = AgentState.default
  ∧ Agent.beliefs a = ∅
  ∧ Agent.idea_exposures a = ∅
  ∧ AgentProfile.region (Agent.profile a)
    ∈ WorldConfig.regions (World.config w0)
  ∧ ∀ v, v ∈ Agent.connections a → Graph.has_edge g k v.

(** The population and the graph while [initialize_population] builds them
    in world [w0]: only agents and graph differ from [w0], the nodes of the
    graph are the agents, the adjacency is symmetric. *)
Definition population_of (w0 w : World.t) : Prop :=
  World.set_agents (World.agents w0) (World.set_network (World.network w0) w)
  = w0
  ∧ Graph.nodes (World.network w) = dom (World.agents w)
  ∧ (∀ u v, Graph.has_edge (World.network w) u v →
            Graph.has_edge (World.network w) v u)
  ∧ ∀ k a, World.agents w !! k = Some a →
           initial_agent w0 (World.network w) k a.

(** * Sample worlds and environments *)

(** An environment whose raw random draws are all [r]; [uuid4] counts up
    from 1000 and the clock from 0. *)
Definition env_const (r : N) : Env.t :=
  Env.mk (λ _, r) 0 (λ _, 0%Q) 0 (λ n, N.of_nat (1000 + n)) 0
    (λ n, N.of_nat n) 0.

(** An environment whose first raw random draw is [first] and whose later
    draws are zero. *)
Definition env_first_draw (first : N) : Env.t :=
  Env.mk (λ n, match n with O => first | _ => 0%N end) 0 (λ _, 0%Q) 0
    (λ n, N.of_nat (100 + n)) 0 (λ n, N.of_nat n) 0.

(** A world whose catalog holds the idea "Hello" (virality 0.2, emotional
    valence 0.5, budget 3). *)
Definition hello_idea : Idea.t :=
  Idea.mk 1%N 2%N 3%N (py "Hello") [] [] IdeaTarget.default
    0.2%Q 0.5%Q 0.3%Q None None 0 0 3 None 0 0 0 0%N.

Definition hello_world : World.t :=
  World.mk 3%N 2%N (py "w") [] WorldConfig.default true WorldStatus.RUNNING 0
    0%N None None ∅ {[1%N := hello_idea]} Graph.empty [] 1000 0 0 0.

(** A manager holding one world without agents, status CREATED, under
    identifier 7. *)
Definition created_world (max_steps : option Z) : World.t :=
  World.mk 7%N 2%N (py "w") []
    (WorldConfig.mk 100 NetworkType.RANDOM 0.1%Q 0.01%Q 0.001%Q 100 max_steps
       [py "NA"] [1%Q])
    true WorldStatus.CREATED 0 0%N None None ∅ ∅ Graph.empty [] 1000 0 0 0.

Definition one_world_manager (w : World.t) : SimulationManager.t :=
  SimulationManager.mk 10 {[7%N := w]} ∅ true.

(** Three agents in a line, 1 - 2 - 3.  Agent 1 believes idea 10, agent 2
    believes idea 11, agent 3 believes nothing.  Both ideas have virality 1,
    complexity 0, emotional valence 1 and no tags; every agent has
    influence 1, openness 1 and susceptibility 0.5, so every attempt has
    probability 0.3.  No mutation (budget 0), no decay. *)
Definition line_agent (i : UUID) (conns bel : gset UUID) : Agent.t :=
  Agent.mk i 100%N (AgentProfile.mk (py "25-34") [] (py "NA") 0.5%Q 1%Q 1%Q)
    AgentState.default conns bel ∅ [].

Definition line_idea (i : UUID) : Idea.t :=
  Idea.mk i 0%N 100%N (py "x") [] [] IdeaTarget.default 1%Q 1%Q 0%Q None None
    0 0 0 None 0 0 0 0%N.

Definition line_world : World.t :=
  World.mk 100%N 0%N (py "line") []
    (WorldConfig.mk 3 NetworkType.RANDOM 0.1%Q 0%Q 0%Q 100 None [py "NA"] [1%Q])
    true WorldStatus.RUNNING 0 0%N None None
    (<[1%N := line_agent 1%N {[2%N]} {[10%N]}]>
       (<[2%N := line_agent 2%N {[1%N; 3%N]} {[11%N]}]>
          (<[3%N := line_agent 3%N {[2%N]} ∅]> ∅)))
    (<[10%N := line_idea 10%N]> (<[11%N := line_idea 11%N]> ∅))
    (Graph.add_edge (Graph.add_edge Graph.empty 1%N 2%N) 2%N 3%N)
    [] 1000 0 0 0.

(** A new agent exposed once to idea 10. *)
Definition exposed_agent : Agent.t :=
  (Agent.expose_to_idea
     (Agent.new 1%N 2%N AgentProfile.default AgentState.default) 10%N).1.

(** A stand-in for the library: every generator returns the graph on [n]
    nodes whose only edge is 0 - 1. *)
Definition one_edge_graph (n : nat) : Graph.t nat :=
  Graph.add_edge (Graph.add_nodes_from Graph.empty (seq 0 n)) 0%nat 1%nat.

Definition one_edge_generators : NetworkX.t :=
  NetworkX.mk (λ n _ e, Some (one_edge_graph n, e))
              (λ n _ _ e, Some (one_edge_graph n, e))
              (λ n _ e, Some (one_edge_graph n, e)).

(** A world of three agents with the GEO_LOCAL topology, built with every
    random draw equal to zero. *)
Definition geo_config : WorldConfig.t :=
  WorldConfig.mk 3 NetworkType.GEO_LOCAL 0.5%Q 0.01%Q 0.001%Q 100 None
    [py "NA"; py "EU"] [0.5%Q; 0.5%Q].

Definition geo_build : option (World.t * Env.t) :=
  World.initialize_population one_edge_generators
    (World.new 1%N 2%N (py "geo") geo_config [] true (env_const 0)).1
    (World.new 1%N 2%N (py "geo") geo_config [] true (env_const 0)).2.

Definition geo_world : World.t :=
  match geo_build with Some (w, _) => w | None => line_world end.

Definition geo_env : Env.t :=
  match geo_build with Some (_, e) => e | None => env_const 0 end.

(** An idea of the line world with a mutation budget of 1. *)
Definition budget_idea (i : UUID) : Idea.t :=
  Idea.mk i 0%N 100%N (py "x") [] [] IdeaTarget.default 1%Q 1%Q 0%Q None None
    0 0 1 None 0 0 0 0%N.

(** The line world with mutation rate 1 and a budget of 1 for both ideas:
    the first adoption of each idea in a tick mutates it. *)
Definition mutating_world : World.t :=
  World.mk 100%N 0%N (py "line") []
    (WorldConfig.mk 3 NetworkType.RANDOM 0.1%Q 1%Q 0%Q 100 None [py "NA"] [1%Q])
    true WorldStatus.RUNNING 0 0%N None None
    (World.agents line_world)
    (<[10%N := budget_idea 10%N]> (<[11%N := budget_idea 11%N]> ∅))
    (World.network line_world)
    [] 1000 0 0 0.

(** A stand-in for [random.sample]: the first [k] elements. *)
Definition first_k_sampler : World.sampler :=
  λ population k e,
    if (0 <=? k)%Z && (k <=? Z.of_nat (length population))%Z
    then Some (take (Z.to_nat k) population, e) else None.

(** Idea 12 injected into the line world with two seeds. *)
Definition seeded_build : option (World.t * list UUID * Env.t) :=
  World.inject_idea first_k_sampler line_world (line_idea 12%N) 2 (env_const 0).

Definition seeded_world : World.t :=
  match seeded_build with Some (w, _, _) => w | None => line_world end.

Definition seeded_ids : list UUID :=
  match seeded_build with Some (_, ids, _) => ids | None => [] end.

Definition seeded_env : Env.t :=
  match seeded_build with Some (_, _, e) => e | None => env_const 0 end.

(** An adoption of idea 10 by agent 2 from agent 1. *)
Definition sample_event : SpreadEvent.t :=
  SpreadEvent.mk 10%N 1%N 2%N 0.3%Q true 0 0%N.

(** A RUNNING world without agents that completes at step 2. *)
Definition two_step_world : World.t :=
  World.set_status WorldStatus.RUNNING (created_world (Some 2%Z)).

(** * Properties of the engine *)

(** ** Arithmetic helpers *)

Lemma clamp01_compat (p q : Q) : (p == q)%Q → (clamp01 p == clamp01 q)%Q.
Proof.
  intros Hpq. unfold clamp01.
  apply Q.max_compat; [reflexivity|].
  apply Q.min_compat; [reflexivity|exact Hpq].
Qed.

Lemma Qltb_lt (x y : Q) : Qltb x y = true ↔ (x < y)%Q.
Proof.
  unfold Qltb. rewrite negb_true_iff. split.
  - intros Hb. apply Qnot_le_lt. intros Hle.
    apply Qle_bool_iff in Hle. congruence.
  - intros Hlt. destruct (Qle_bool y x) eqn:Hb; [|reflexivity].
    apply Qle_bool_iff in Hb. exfalso. exact (Qlt_not_le _ _ Hlt Hb).
Qed.

(** ** Idea: spread probability *)

Lemma spread_probability_unfold (idea : Idea.t) (si ro rel tf : Q) :
  (Idea.calculate_spread_probability idea si ro rel tf ==
   clamp01 (Idea.virality_score idea * (1 - 0.5 * Idea.complexity idea)
            * si * ro * rel * tf
            * (0.5 + 0.5 * Idea.emotional_valence idea)))%Q.
Proof.
  unfold Idea.calculate_spread_probability, Idea.effective_virality.
  apply clamp01_compat. ring.
Qed.

(** ** Agent: relevance of an idea *)

Lemma overlap_size_zero (tags interests : list pystr) :
  size (Agent.overlap tags interests) = 0%nat ↔
  (list_to_set tags ∩ list_to_set interests : gset pystr) = ∅.
Proof. unfold Agent.overlap. rewrite size_empty_iff. by unfold_leibniz. Qed.

(** C7. The relevance of an idea's tag list for an agent is 0.3 when the
    tag list or the agent's interest list is empty, 0.2 when both are
    non-empty and share no element, and otherwise
    0.2 + 0.8 * |O| / max(|tags|, |interests|), with O the set of shared
    elements and |tags|, |interests| the lengths of the two lists. *)
Theorem calculate_idea_relevance_cases (a : Agent.t) (tags : list pystr) :
  let interests := AgentProfile.interests (Agent.profile a) in
  let O : gset pystr := list_to_set tags ∩ list_to_set interests in
  let r := Agent.calculate_idea_relevance a tags in
  (tags = [] ∨ interests = [] → r = 0.3%Q) ∧
  (tags ≠ [] → interests ≠ [] → O = ∅ → r = 0.2%Q) ∧
  (tags ≠ [] → interests ≠ [] → O ≠ ∅ →
   (r == 0.2 + 0.8 * inject_Z (Z.of_nat (size O))
             / inject_Z (Z.of_nat (Nat.max (length tags) (length interests))))%Q).
Proof.
  intros interests O r. subst r O.
  unfold Agent.calculate_idea_relevance. fold interests. clearbody interests.
  repeat split.
  - intros [-> | ->]; [reflexivity|]. by destruct tags.
  - intros Ht Hi HO. destruct tags as [|t tags]; [done|].
    destruct interests as [|i interests]; [done|].
    destruct (decide _) as [_|Hne]; [reflexivity|].
    exfalso. apply Hne. by apply overlap_size_zero.
  - intros Ht Hi HO. destruct tags as [|t tags]; [done|].
    destruct interests as [|i interests]; [done|].
    destruct (decide _) as [Hz|_].
    + exfalso. apply HO. by apply overlap_size_zero.
    + unfold Agent.overlap.
      set (n := inject_Z (Z.of_nat (size _))).
      set (d := inject_Z (Z.of_nat (Nat.max (length (t :: tags))
                                              (length (i :: interests))))).
      assert (Hd : ¬ (d == 0)%Q).
      { subst d. cbn [length]. unfold Qeq. cbn. lia. }
      field. exact Hd.
Qed.

(** The three cases on a concrete agent: interests [tech, music, gaming]
    against the tags [tech, gaming], [sports] and []. *)
Lemma calculate_idea_relevance_cases_witness :
  let a := Agent.new 1%N 2%N
             (AgentProfile.mk (py "25-34") [py "tech"; py "music"; py "gaming"]
                (py "NA") 0.5%Q 0.5%Q 0.1%Q) AgentState.default in
  Agent.calculate_idea_relevance a [] = 0.3%Q ∧
  Agent.calculate_idea_relevance a [py "sports"] = 0.2%Q ∧
  (Agent.calculate_idea_relevance a [py "tech"; py "gaming"]
   == 0.2 + 0.8 * inject_Z 2 / inject_Z 3)%Q.
Proof.
  intros a.
  pose proof (calculate_idea_relevance_cases a []) as (H1 & _ & _).
  pose proof (calculate_idea_relevance_cases a [py "sports"]) as (_ & H2 & _).
  pose proof (calculate_idea_relevance_cases a [py "tech"; py "gaming"])
    as (_ & _ & H3).
  split; [|split].
  - apply H1. by left.
  - apply H2; [done|done|]. by vm_compute.
  - rewrite H3; [|done|done|by vm_compute]. by vm_compute.
Defined.

(** ** Idea: mutation under a budget *)

(** [create_mutation], outcome by outcome. *)
Lemma create_mutation_cases (self : Idea.t) (kind : MutationType.t)
    (new_text : pystr) (dv de : Q) (e : Env.t) :
  match Idea.create_mutation self kind new_text dv de e with
  | (parent', inl (ValueError _), e') =>
      (Idea.mutation_budget self <= Idea.mutation_count self)%Z
      ∧ parent' = self ∧ e' = e
  | (parent', inr mutant, e') =>
      (Idea.mutation_count self < Idea.mutation_budget self)%Z
      ∧ parent' = Idea.set_mutation_count (Idea.mutation_count self + 1) self
      ∧ (Idea.mutation_count parent' <= Idea.mutation_budget parent')%Z
      ∧ Idea.id mutant = (Env.uuid4 e).1
      ∧ Idea.generation mutant = (Idea.generation self + 1)%Z
      ∧ Idea.parent_id mutant = Some (Idea.id self)
      ∧ Idea.mutation_type mutant = Some kind
      ∧ Idea.text mutant = new_text
      ∧ Idea.virality_score mutant = clamp01 (Idea.virality_score self + dv)
      ∧ Idea.emotional_valence mutant = clamp01 (Idea.emotional_valence self + de)
      ∧ Idea.tags mutant = Idea.tags self
      ∧ Idea.media_refs mutant = Idea.media_refs self
      ∧ Idea.target mutant = Idea.target self
      ∧ Idea.complexity mutant = Idea.complexity self
      ∧ Idea.mutation_budget mutant = Idea.mutation_budget self
      ∧ Idea.mutation_count mutant = 0%Z
  end.
Proof.
  unfold Idea.create_mutation, Idea.can_mutate.
  destruct (Z.ltb_spec (Idea.mutation_count self) (Idea.mutation_budget self))
    as [Hlt|Hge]; cbn [negb].
  - cbn. repeat split; try reflexivity; try lia.
    by destruct (Idea.target self).
  - cbn. by repeat split.
Qed.

(** Scenario S3 of the specification: budget 2, three calls. *)
Lemma create_mutation_budget_two :
  let i0 := Idea.mk 1%N 2%N 3%N (py "Original") [] [] IdeaTarget.default
              0.2%Q 0.5%Q 0.3%Q None None 0 0 2 None 0 0 0 0%N in
  let '(i1, r1, e1) :=
    Idea.create_mutation i0 MutationType.RANDOM (py "Variant 1") 0 0
      (env_const 0) in
  let '(i2, r2, e2) :=
    Idea.create_mutation i1 MutationType.RANDOM (py "Variant 2") 0 0 e1 in
  let '(i3, r3, e3) :=
    Idea.create_mutation i2 MutationType.RANDOM (py "Variant 3") 0 0 e2 in
  (∃ m, r1 = inr m) ∧ (∃ m, r2 = inr m) ∧ (∃ x, r3 = inl x)
  ∧ Idea.mutation_count i3 = 2%Z.
Proof. vm_compute. repeat split; eauto. Qed.

(** ** World: the built-in mutation trigger *)

(** The rows of the trigger, as the code has them.  SIMPLIFY, EMOTIONALIZE
    and POLARIZE follow the specification's table (the ellipsis being three
    full stops); MEMEIFY changes virality by +0.10 but the emotional valence
    by 0; LOCALIZE has no branch of its own and is handled exactly as
    RANDOM: two uniform draws from [-0.05, 0.10] and the text
    ["[Variant] " + text]. *)
Lemma mutation_changes_table (idea : Idea.t) (e : Env.t) :
  let text := Idea.text idea in
  World.mutation_changes MutationType.SIMPLIFY idea e
    = ((py "[Simplified] " ++ take 100 text ++ py "...", 0.05%Q, 0%Q), e)
  ∧ World.mutation_changes MutationType.EMOTIONALIZE idea e
    = ((py "[Emotional] " ++ text, 0.02%Q, 0.1%Q), e)
  ∧ World.mutation_changes MutationType.POLARIZE idea e
    = ((py "[Polarized] " ++ text, 0.08%Q, 0.15%Q), e)
  ∧ World.mutation_changes MutationType.MEMEIFY idea e
    = ((py "[Meme] " ++ take 50 text ++ py "... " ++ [128293%N], 0.1%Q, 0%Q), e)
  ∧ World.mutation_changes MutationType.RANDOM idea e
    = (let '(dv, e1) := Env.uniform (-0.05)%Q 0.1%Q e in
       let '(de, e2) := Env.uniform (-0.05)%Q 0.1%Q e1 in
       ((py "[Variant] " ++ text, dv, de), e2))
  ∧ World.mutation_changes MutationType.LOCALIZE idea e
    = World.mutation_changes MutationType.RANDOM idea e.
Proof. cbv zeta. repeat split; reflexivity. Qed.

(** The LOCALIZE and MEMEIFY rows on the idea "Hello" with every random
    draw equal to zero: LOCALIZE gives the variant text with both changes at
    -0.05, MEMEIFY gives no emotional change. *)
Lemma mutation_changes_localize_memeify :
  let '(text_l, dv_l, de_l) :=
    (World.mutation_changes MutationType.LOCALIZE hello_idea (env_const 0)).1 in
  let '(text_m, dv_m, de_m) :=
    (World.mutation_changes MutationType.MEMEIFY hello_idea (env_const 0)).1 in
  text_l = py "[Variant] Hello" ∧ (dv_l == -0.05)%Q ∧ (de_l == -0.05)%Q
  ∧ ¬ (dv_l == 0.02)%Q
  ∧ (dv_m == 0.1)%Q ∧ (de_m == 0)%Q ∧ ¬ (de_m == 0.05)%Q.
Proof. vm_compute. repeat split; intros; discriminate. Qed.

(** C2 (evaluated).  With LOCALIZE drawn the mutant is the RANDOM variant:
    text "[Variant] Hello" and virality 0.2 - 0.05 (the table's row would
    give a regional marker and 0.2 + 0.02); with MEMEIFY drawn the mutant's
    emotional valence is still 0.5 (the table's row would give 0.55). *)
Theorem trigger_mutation_localize_memeify :
  (∃ m, (World._trigger_mutation hello_world 1%N (env_first_draw 2)).1.2 = Some m
        ∧ Idea.mutation_type m = Some MutationType.LOCALIZE
        ∧ Idea.text m = py "[Variant] Hello"
        ∧ (Idea.virality_score m == 0.15)%Q
        ∧ (Idea.emotional_valence m == 0.45)%Q)
  ∧ (∃ m, (World._trigger_mutation hello_world 1%N (env_first_draw 4)).1.2 = Some m
        ∧ Idea.mutation_type m = Some MutationType.MEMEIFY
        ∧ Idea.text m = py "[Meme] Hello... " ++ [128293%N]
        ∧ (Idea.virality_score m == 0.3)%Q
        ∧ (Idea.emotional_valence m == 0.5)%Q).
Proof.
  split; eexists; (split; [vm_compute; reflexivity|]); vm_compute; done.
Qed.

(** ** Manager: starting and stopping a world *)

Lemma start_world_status (m : SimulationManager.t) (world_id : UUID)
    (e : Env.t) (w : World.t) :
  SimulationManager.worlds m !! world_id = Some w →
  SimulationManager.status_of (SimulationManager.start_world m world_id e).1.1
    world_id
  = Some (if decide (World.status w = WorldStatus.CREATED)
          then WorldStatus.RUNNING else World.status w).
Proof.
  intros Hw. unfold SimulationManager.start_world. rewrite Hw.
  destruct (decide (World.status w = WorldStatus.RUNNING)) as [Hr|Hr].
  - cbn. unfold SimulationManager.status_of. rewrite Hw. cbn.
    rewrite Hr. by case_decide.
  - unfold World.start. case_decide as Hc; cbn.
    + unfold SimulationManager.status_of. cbn. by rewrite lookup_insert_eq.
    + unfold SimulationManager.status_of. cbn. by rewrite lookup_insert_eq.
Qed.

Lemma stop_world_status (m : SimulationManager.t) (world_id : UUID)
    (w : World.t) :
  SimulationManager.worlds m !! world_id = Some w →
  SimulationManager.status_of (SimulationManager.stop_world m world_id).1
    world_id
  = Some (if decide (World.status w = WorldStatus.RUNNING)
          then WorldStatus.PAUSED else World.status w).
Proof.
  intros Hw. unfold SimulationManager.stop_world. rewrite Hw. cbn.
  unfold SimulationManager.status_of. cbn. rewrite lookup_insert_eq. cbn.
  unfold World.pause. by case_decide.
Qed.

(** The loop task spawned for a world that is not RUNNING runs no step: it
    only drops its own handle. *)
Lemma run_world_loop_not_running (fuel : nat) (m : SimulationManager.t)
    (world_id : UUID) (e : Env.t) (w : World.t) :
  SimulationManager.worlds m !! world_id = Some w →
  World.status w ≠ WorldStatus.RUNNING →
  SimulationManager.worlds
    (SimulationManager._run_world_loop (S fuel) m world_id e).1
  = SimulationManager.worlds m.
Proof.
  intros Hw Hs. cbn. rewrite Hw.
  rewrite (bool_decide_eq_false_2 _ Hs), andb_false_r. reflexivity.
Qed.

(** C3 (as the code has it).  [start_world] on a PAUSED world leaves it
    PAUSED ([World.start] only acts on CREATED, [World.resume] is never
    called), so on a CREATED world [start_world; stop_world; start_world]
    ends in PAUSED whereas a single [start_world] ends in RUNNING. *)
Theorem start_stop_start_status (m : SimulationManager.t) (world_id : UUID)
    (e : Env.t) (w : World.t) :
  SimulationManager.worlds m !! world_id = Some w →
  (World.status w = WorldStatus.PAUSED →
   SimulationManager.status_of
     (SimulationManager.start_world m world_id e).1.1 world_id
   = Some WorldStatus.PAUSED)
  ∧ (World.status w = WorldStatus.CREATED →
     SimulationManager.status_of
       (SimulationManager.start_world m world_id e).1.1 world_id
     = Some WorldStatus.RUNNING
     ∧ SimulationManager.status_of (start_stop_start m world_id e) world_id
       = Some WorldStatus.PAUSED).
Proof.
  intros Hw. split.
  - intros Hp. rewrite (start_world_status _ _ _ _ Hw), Hp. by case_decide.
  - intros Hc. split.
    + rewrite (start_world_status _ _ _ _ Hw), Hc. by case_decide.
    + unfold start_stop_start.
      pose proof (start_world_status m world_id e w Hw) as H1.
      destruct (SimulationManager.start_world m world_id e) as [[m1 b1] e1].
      cbn in H1. rewrite Hc in H1. case_decide; [|done].
      unfold SimulationManager.status_of in H1.
      destruct (SimulationManager.worlds m1 !! world_id) as [w1|] eqn:Hw1;
        [|done].
      injection H1 as H1.
      pose proof (stop_world_status m1 world_id w1 Hw1) as H2.
      destruct (SimulationManager.stop_world m1 world_id) as [m2 b2].
      cbn in H2. rewrite H1 in H2. case_decide; [|done].
      unfold SimulationManager.status_of in H2.
      destruct (SimulationManager.worlds m2 !! world_id) as [w2|] eqn:Hw2;
        [|done].
      injection H2 as H2.
      rewrite (start_world_status _ _ _ _ Hw2), H2. by case_decide.
Qed.

(** On the manager of one CREATED world: a single start gives RUNNING,
    start, stop, start gives PAUSED. *)
Lemma start_stop_start_status_witness :
  SimulationManager.status_of
    (SimulationManager.start_world (one_world_manager (created_world None))
       7%N (env_first_draw 0)).1.1 7%N
  = Some WorldStatus.RUNNING
  ∧ SimulationManager.status_of
      (start_stop_start (one_world_manager (created_world None)) 7%N
         (env_first_draw 0)) 7%N
    = Some WorldStatus.PAUSED.
Proof.
  apply (start_stop_start_status (one_world_manager (created_world None)) 7%N
           (env_first_draw 0) (created_world None)); reflexivity.
Defined.

(** ** What a tick leaves alone *)

Lemma fold_left_preserves {S A} (f : S → A → S) (P : S → Prop) (l : list A)
    (s : S) :
  P s → (∀ s' x, P s' → P (f s' x)) → P (fold_left f l s).
Proof.
  intros Hs Hf. revert s Hs.
  induction l as [|x l IH]; intros s Hs; cbn; [done|].
  apply IH, Hf, Hs.
Qed.

Lemma skeleton_set_agent (w : World.t) (k : UUID) (a a' : Agent.t) :
  World.agents w !! k = Some a → static a' = static a →
  skeleton (World.set_agents (<[k := a']> (World.agents w)) w) = skeleton w.
Proof.
  intros Hk Hs. unfold skeleton. cbn. f_equal.
  rewrite fmap_insert, Hs. apply insert_id.
  by rewrite lookup_fmap, Hk.
Qed.

Lemma skeleton_set_ideas (w : World.t) (i : gmap UUID Idea.t) :
  skeleton (World.set_ideas i w) = skeleton w.
Proof. reflexivity. Qed.

Lemma skeleton_set_totals (w : World.t) (x y : Z) :
  skeleton (World.set_totals x y w) = skeleton w.
Proof. reflexivity. Qed.

Lemma skeleton_record_event (w : World.t) (ev : SpreadEvent.t) :
  skeleton (World._record_event w ev) = skeleton w.
Proof. unfold World._record_event. by case_match. Qed.

Lemma skeleton_trigger_mutation (w : World.t) (idea_id : UUID) (e : Env.t) :
  skeleton (World._trigger_mutation w idea_id e).1.1 = skeleton w.
Proof.
  unfold World._trigger_mutation.
  destruct (World.ideas w !! idea_id) as [idea|]; [|done].
  destruct (negb (Idea.can_mutate idea)); [done|].
  destruct (Env.choice _ _ _) as [kind e1].
  destruct (World.mutation_changes _ _ _) as [[[txt dv] de] e2].
  destruct (Idea.create_mutation _ _ _ _ _ _) as [[idea' [err|mutant]] e3];
    reflexivity.
Qed.

Lemma static_expose (a : Agent.t) (i : UUID) :
  static (Agent.expose_to_idea a i).1 = static a.
Proof. reflexivity. Qed.

Lemma static_adopt (a : Agent.t) (i : UUID) :
  static (Agent.adopt_idea a i).1 = static a.
Proof. unfold Agent.adopt_idea. by case_bool_decide. Qed.

Lemma static_forget (a : Agent.t) (i : UUID) :
  static (Agent.forget_idea a i).1 = static a.
Proof. unfold Agent.forget_idea. by case_bool_decide. Qed.

Lemma skeleton_spread_to (sp i c : UUID) (s : World.tick) :
  skeleton (World.tw (World.spread_to sp i c s)) = skeleton (World.tw s).
Proof.
  unfold World.spread_to.
  destruct (World.agents (World.tw s) !! sp) as [spreader|]; [|done].
  destruct (World.ideas (World.tw s) !! i) as [idea|]; [|done].
  destruct (World.agents (World.tw s) !! c) as [receiver|] eqn:Hc; [|done].
  destruct (Agent.has_idea receiver i); [done|].
  destruct (Env.random (World.te s)) as [u e1].
  destruct (Qltb u _).
  - destruct (Env.utcnow e1) as [now e2].
    set (w1 := World.set_totals _ _ _).
    assert (Hw1 : skeleton w1 = skeleton (World.tw s)).
    { subst w1. rewrite skeleton_set_totals, skeleton_set_ideas.
      eapply skeleton_set_agent; [exact Hc|].
      rewrite static_adopt. apply static_expose. }
    set (ev := SpreadEvent.mk _ _ _ _ _ _ _).
    pose proof (skeleton_record_event w1 ev) as Hw2.
    destruct (Idea.can_mutate _); [|cbn; congruence].
    destruct (Env.random e2) as [u' e3].
    destruct (Qltb u' _); [|cbn; congruence].
    pose proof (skeleton_trigger_mutation (World._record_event w1 ev) i e3)
      as Hw3.
    destruct (World._trigger_mutation _ _ _) as [[w3 [mutant|]] e4]; cbn in *.
    + rewrite skeleton_set_totals. congruence.
    + congruence.
  - cbn. rewrite skeleton_set_ideas.
    eapply skeleton_set_agent; [exact Hc|]. apply static_expose.
Qed.

Lemma skeleton_spread_idea (sp i : UUID) (s : World.tick) :
  skeleton (World.tw (World.spread_idea sp i s)) = skeleton (World.tw s).
Proof.
  unfold World.spread_idea.
  destruct (World.ideas (World.tw s) !! i); [|done].
  destruct (World.agents (World.tw s) !! sp) as [spreader|]; [|done].
  apply (fold_left_preserves _
           (λ s', skeleton (World.tw s') = skeleton (World.tw s))); [done|].
  intros s' c Hs'. by rewrite skeleton_spread_to.
Qed.

Lemma skeleton_spreader_turn (sp : UUID) (s : World.tick) :
  skeleton (World.tw (World.spreader_turn sp s)) = skeleton (World.tw s).
Proof.
  unfold World.spreader_turn.
  destruct (World.agents (World.tw s) !! sp) as [spreader|]; [|done].
  apply (fold_left_preserves _
           (λ s', skeleton (World.tw s') = skeleton (World.tw s))); [done|].
  intros s' i Hs'. by rewrite skeleton_spread_idea.
Qed.

Lemma skeleton_spread_phase (order : list UUID) (s : World.tick) :
  skeleton (World.tw (World.spread_phase order s)) = skeleton (World.tw s).
Proof.
  apply (fold_left_preserves _
           (λ s', skeleton (World.tw s') = skeleton (World.tw s))); [done|].
  intros s' sp Hs'. by rewrite skeleton_spreader_turn.
Qed.

Lemma skeleton_decay_belief (a i : UUID) (s : World.tick) :
  skeleton (World.tw (World.decay_belief a i s)) = skeleton (World.tw s).
Proof.
  unfold World.decay_belief.
  destruct (Env.random (World.te s)) as [u e1].
  destruct (Qltb u _); [|done].
  destruct (World.agents (World.tw s) !! a) as [agent|] eqn:Ha; [|done].
  pose proof (static_forget agent i) as Hst.
  destruct (Agent.forget_idea agent i) as [agent' forgotten]. cbn in *.
  by eapply skeleton_set_agent.
Qed.

Lemma skeleton_decay_agent (a : UUID) (s : World.tick) :
  skeleton (World.tw (World.decay_agent a s)) = skeleton (World.tw s).
Proof.
  unfold World.decay_agent.
  destruct (World.agents (World.tw s) !! a) as [agent|]; [|done].
  apply (fold_left_preserves _
           (λ s', skeleton (World.tw s') = skeleton (World.tw s))); [done|].
  intros s' i Hs'. by rewrite skeleton_decay_belief.
Qed.

Lemma skeleton_decay_phase (s : World.tick) :
  skeleton (World.tw (World.decay_phase s)) = skeleton (World.tw s).
Proof.
  unfold World.decay_phase.
  apply (fold_left_preserves _
           (λ s', skeleton (World.tw s') = skeleton (World.tw s))); [done|].
  intros s' a Hs'. by rewrite skeleton_decay_agent.
Qed.

(** A step on a world that is not RUNNING returns the error and changes
    nothing. *)
Lemma run_step_not_running (w : World.t) (e : Env.t) :
  World.status w ≠ WorldStatus.RUNNING →
  World.run_step w e = (w, inl (py "World is not running"), e).
Proof. intros H. unfold World.run_step. by case_decide. Qed.

Lemma max_steps_reached_ext (w w' : World.t) :
  World.config w' = World.config w →
  World.current_step w' = World.current_step w →
  World.max_steps_reached w' = World.max_steps_reached w.
Proof. intros Hc Hs. unfold World.max_steps_reached. by rewrite Hc, Hs. Qed.

Lemma finish_step_spec (w : World.t) (e : Env.t) :
  let w' := (World.finish_step w e).1 in
  World.config w' = World.config w
  ∧ World.network w' = World.network w
  ∧ World.agents w' = World.agents w
  ∧ World.current_step w' = (World.current_step w + 1)%Z
  ∧ World.status w' = (if World.max_steps_reached w'
                       then WorldStatus.COMPLETED else World.status w).
Proof.
  unfold World.finish_step.
  set (w1 := World.set_lifecycle _ _ _ _ _).
  destruct (World.max_steps_reached w1) eqn:Hm.
  - destruct (Env.utcnow e) as [now e']. cbv zeta.
    set (w2 := World.set_lifecycle _ _ _ _ _).
    assert (Hm2 : World.max_steps_reached (w2, e').1 = true).
    { rewrite <- Hm. by apply max_steps_reached_ext. }
    rewrite Hm2. done.
  - cbv zeta.
    assert (Hm1 : World.max_steps_reached (w1, e).1 = false) by exact Hm.
    rewrite Hm1. done.
Qed.

(** A step on a RUNNING world: the counter advances by one, the world
    completes exactly when [max_steps] is set (and not zero) and reached;
    configuration, graph and the agents' static part are as before. *)
Lemma run_step_running (w : World.t) (e : Env.t) :
  World.status w = WorldStatus.RUNNING →
  let w' := (World.run_step w e).1.1 in
  World.config w' = World.config w
  ∧ World.network w' = World.network w
  ∧ static <$> World.agents w' = static <$> World.agents w
  ∧ World.current_step w' = (World.current_step w + 1)%Z
  ∧ World.status w' = (if World.max_steps_reached w'
                       then WorldStatus.COMPLETED else WorldStatus.RUNNING).
Proof.
  intros Hr. unfold World.run_step. case_decide; [done|].
  destruct (Env.shuffle _ e) as [order e1].
  set (s1 := World.spread_phase order _).
  set (s2 := World.decay_phase s1).
  assert (Hsk : skeleton (World.tw s2) = skeleton w).
  { subst s2 s1. by rewrite skeleton_decay_phase, skeleton_spread_phase. }
  unfold skeleton in Hsk. injection Hsk as Hcfg Hst Hstep Hnet Hag.
  pose proof (finish_step_spec (World.tw s2) (World.te s2)) as Hf.
  destruct (World.finish_step _ _) as [w' e']. cbn in Hf |- *.
  destruct Hf as (Hc' & Hn' & Ha' & Hs' & Hst').
  rewrite Hc', Hn', Ha', Hs', Hst', Hcfg, Hnet, Hag, Hstep, Hst, Hr. done.
Qed.

(** ** Manager: manual stepping *)

Lemma run_steps_not_running (n : nat) (w : World.t) (e : Env.t) :
  World.status w ≠ WorldStatus.RUNNING →
  (SimulationManager.run_steps n w e).1.1 = w.
Proof.
  intros Hs. revert e. induction n as [|n IH]; intros e; cbn; [done|].
  rewrite (run_step_not_running _ _ Hs).
  specialize (IH e). by destruct (SimulationManager.run_steps n w e) as [[??]?].
Qed.

Lemma run_steps_status (n : nat) (w : World.t) (e : Env.t) :
  World.status w = WorldStatus.RUNNING →
  World.status (SimulationManager.run_steps (S n) w e).1.1
  = (if completes_within w (Z.of_nat (S n))
     then WorldStatus.COMPLETED else WorldStatus.RUNNING).
Proof.
  revert w e. induction n as [|n IH]; intros w e Hr.
  - cbn [SimulationManager.run_steps].
    pose proof (run_step_running w e Hr) as (Hc & _ & _ & Hs & Hst).
    destruct (World.run_step w e) as [[w1 r1] e1]. cbn in *.
    rewrite Hst. unfold World.max_steps_reached, completes_within.
    rewrite Hc, Hs. done.
  - change (SimulationManager.run_steps (S (S n)) w e)
      with (let '(world1, result, e1) := World.run_step w e in
            let '(world2, results, e2) :=
              SimulationManager.run_steps (S n) world1 e1 in
            (world2, result :: results, e2)).
    pose proof (run_step_running w e Hr) as (Hc & _ & _ & Hs & Hst).
    destruct (World.run_step w e) as [[w1 r1] e1]. cbn in Hc, Hs, Hst.
    destruct (World.max_steps_reached w1) eqn:Hm.
    + assert (Hnr : World.status w1 ≠ WorldStatus.RUNNING) by (by rewrite Hst).
      pose proof (run_steps_not_running (S n) w1 e1 Hnr) as Hsame.
      destruct (SimulationManager.run_steps (S n) w1 e1) as [[w2 rs] e2].
      cbn in Hsame |- *. subst w2. rewrite Hst.
      unfold World.max_steps_reached in Hm. unfold completes_within.
      rewrite Hc, Hs in Hm.
      destruct (WorldConfig.max_steps (World.config w)) as [m|]; [|done].
      apply andb_true_iff in Hm as [Hm0 Hm1]. rewrite Hm0. cbn.
      destruct (Z.leb_spec m (World.current_step w + Z.of_nat (S (S n))));
        [done|]. apply Z.leb_le in Hm1. lia.
    + specialize (IH w1 e1 Hst).
      destruct (SimulationManager.run_steps (S n) w1 e1) as [[w2 rs] e2].
      cbn in IH |- *. rewrite IH.
      unfold World.max_steps_reached in Hm. unfold completes_within.
      rewrite Hc, Hs in *.
      destruct (WorldConfig.max_steps (World.config w)) as [m|]; [|done].
      destruct (negb (m =? 0)%Z); [|done]. cbn in *.
      replace (World.current_step w + 1 + Z.of_nat (S n))%Z
        with (World.current_step w + Z.of_nat (S (S n)))%Z by lia.
      done.
Qed.

(** C10 (as amended).  With nothing else stepping the world meanwhile,
    after [step_world(id, n)] with [n >= 1] on an existing world the status
    is PAUSED if it was PAUSED before (also when [max_steps] was reached
    during the stepping); otherwise it is COMPLETED when [max_steps] is set,
    not zero and at most [current_step + n], and RUNNING when not. *)
Theorem step_world_status (m : SimulationManager.t) (world_id : UUID)
    (w : World.t) (steps : Z) (e : Env.t) :
  SimulationManager.worlds m !! world_id = Some w →
  (1 <= steps)%Z →
  SimulationManager.status_of
    (SimulationManager.step_world m world_id steps e).1.1 world_id
  = Some (if decide (World.status w = WorldStatus.PAUSED)
          then WorldStatus.PAUSED
          else if completes_within w steps
               then WorldStatus.COMPLETED else WorldStatus.RUNNING).
Proof.
  intros Hw Hn. unfold SimulationManager.step_world. rewrite Hw.
  destruct (Z.to_nat steps) as [|n] eqn:Hsteps; [lia|].
  pose proof (run_steps_status n (World.set_status WorldStatus.RUNNING w) e
                eq_refl) as Hst.
  destruct (SimulationManager.run_steps (S n) _ e) as [[w2 rs] e2].
  cbn in Hst |- *. unfold SimulationManager.status_of. cbn.
  rewrite lookup_insert_eq. cbn. f_equal.
  case_decide; [done|]. rewrite Hst.
  replace (Z.of_nat (S n)) with steps by lia. done.
Qed.

(** A world created with [max_steps = 1] is COMPLETED, not RUNNING, after
    [step_world(id, 1)]. *)
Lemma step_world_created_completes :
  SimulationManager.status_of (one_world_manager (created_world (Some 1%Z))) 7%N
  = Some WorldStatus.CREATED
  ∧ SimulationManager.status_of
      (SimulationManager.step_world (one_world_manager (created_world (Some 1%Z)))
         7%N 1 (env_first_draw 0)).1.1 7%N
    = Some WorldStatus.COMPLETED.
Proof. split; [reflexivity|]. vm_compute. reflexivity. Qed.

(** Three manual steps: a CREATED world with [max_steps = 5] ends RUNNING;
    a PAUSED world with [max_steps = 1] ends PAUSED although it completed
    on the way. *)
Lemma step_world_status_witness :
  SimulationManager.status_of
    (SimulationManager.step_world (one_world_manager (created_world (Some 5%Z)))
       7%N 3 (env_first_draw 0)).1.1 7%N
  = Some WorldStatus.RUNNING
  ∧ SimulationManager.status_of
      (SimulationManager.step_world
         (one_world_manager
            (World.set_status WorldStatus.PAUSED (created_world (Some 1%Z))))
         7%N 3 (env_first_draw 0)).1.1 7%N
    = Some WorldStatus.PAUSED.
Proof.
  split.
  - apply (step_world_status (one_world_manager (created_world (Some 5%Z))) 7%N
             (created_world (Some 5%Z)) 3 (env_first_draw 0));
      [reflexivity|lia].
  - apply (step_world_status
             (one_world_manager
                (World.set_status WorldStatus.PAUSED (created_world (Some 1%Z))))
             7%N
             (World.set_status WorldStatus.PAUSED (created_world (Some 1%Z)))
             3 (env_first_draw 0));
      [reflexivity|lia].
Defined.

(** ** One spread attempt *)

Lemma agents_record_event (w : World.t) (ev : SpreadEvent.t) :
  World.agents (World._record_event w ev) = World.agents w.
Proof. unfold World._record_event. by case_match. Qed.

Lemma agents_trigger_mutation (w : World.t) (idea_id : UUID) (e : Env.t) :
  World.agents (World._trigger_mutation w idea_id e).1.1 = World.agents w.
Proof.
  unfold World._trigger_mutation.
  destruct (World.ideas w !! idea_id) as [idea|]; [|done].
  destruct (negb (Idea.can_mutate idea)); [done|].
  destruct (Env.choice _ _ _) as [kind e1].
  destruct (World.mutation_changes _ _ _) as [[[txt dv] de] e2].
  destruct (Idea.create_mutation _ _ _ _ _ _) as [[idea' [err|mutant]] e3];
    reflexivity.
Qed.

(** The agents after an attempt that is not skipped: only the receiver is
    written; it is exposed, and has adopted exactly when the draw is below
    the probability. *)
Lemma spread_to_agents (sp i c : UUID) (s : World.tick)
    (spreader receiver : Agent.t) (idea : Idea.t) :
  World.agents (World.tw s) !! sp = Some spreader →
  World.ideas (World.tw s) !! i = Some idea →
  World.agents (World.tw s) !! c = Some receiver →
  i ∉ Agent.beliefs receiver →
  World.agents (World.tw (World.spread_to sp i c s))
  = <[c := if Qltb (Env.random (World.te s)).1
                (tick_probability spreader receiver idea)
           then (Agent.adopt_idea (Agent.expose_to_idea receiver i).1 i).1
           else (Agent.expose_to_idea receiver i).1]>
      (World.agents (World.tw s)).
Proof.
  intros Hsp Hi Hc Hni. unfold World.spread_to. rewrite Hsp, Hi, Hc.
  unfold Agent.has_idea. rewrite bool_decide_eq_false_2 by done.
  fold (tick_probability spreader receiver idea).
  destruct (Env.random (World.te s)) as [u e1]. cbn [fst].
  destruct (Qltb u _); [|done].
  destruct (Env.utcnow e1) as [now e2].
  set (w1 := World.set_totals _ _ _).
  set (ev := SpreadEvent.mk _ _ _ _ _ _ _).
  pose proof (agents_record_event w1 ev) as Hw2.
  destruct (Idea.can_mutate _); [|cbn; by rewrite Hw2].
  destruct (Env.random e2) as [u' e3].
  destruct (Qltb u' _); [|cbn; by rewrite Hw2].
  pose proof (agents_trigger_mutation (World._record_event w1 ev) i e3) as Hw3.
  destruct (World._trigger_mutation _ _ _) as [[w3 [mutant|]] e4];
    cbn in *; by rewrite Hw3, Hw2.
Qed.

(** ** Agent: susceptibility *)

(** C4 (as the code has it).  Adopting an idea not yet believed multiplies
    the susceptibility by 0.95 with floor 0.1.  A rejected spread attempt
    leaves the receiver's susceptibility as it was: the tick records the
    exposure and the idea's rejection, and never calls
    [update_susceptibility(adopted=False)]. *)
Theorem susceptibility_after_attempt :
  (∀ (a : Agent.t) (i : UUID), i ∉ Agent.beliefs a →
     (Agent.adopt_idea a i).2 = true
     ∧ AgentState.susceptibility (Agent.state (Agent.adopt_idea a i).1)
       = Qmax 0.1 (AgentState.susceptibility (Agent.state a) * 0.95))
  ∧ (∀ (sp i c : UUID) (s : World.tick) (spreader receiver : Agent.t)
       (idea : Idea.t),
       World.agents (World.tw s) !! sp = Some spreader →
       World.ideas (World.tw s) !! i = Some idea →
       World.agents (World.tw s) !! c = Some receiver →
       i ∉ Agent.beliefs receiver →
       ¬ ((Env.random (World.te s)).1
          < tick_probability spreader receiver idea)%Q →
       ∃ receiver',
         World.agents (World.tw (World.spread_to sp i c s)) !! c = Some receiver'
         ∧ (i ∉ Agent.beliefs receiver')
         ∧ AgentState.susceptibility (Agent.state receiver')
           = AgentState.susceptibility (Agent.state receiver)).
Proof.
  split.
  - intros a i Hni. unfold Agent.adopt_idea.
    rewrite bool_decide_eq_false_2 by done. done.
  - intros sp i c s spreader receiver idea Hsp Hi Hc Hni Hrej.
    rewrite (spread_to_agents _ _ _ _ _ _ _ Hsp Hi Hc Hni).
    rewrite lookup_insert_eq.
    destruct (Qltb _ _) eqn:Hlt.
    + apply Qltb_lt in Hlt. contradiction.
    + eexists. split; [reflexivity|]. done.
Qed.

(** In [line_world], agent 1 offers idea 10 to agent 2 and the draw is the
    largest one: the attempt is rejected and agent 2 keeps susceptibility
    0.5 (a factor 1.02 would give 0.51). *)
Lemma susceptibility_after_attempt_witness :
  ∃ receiver',
    World.agents
      (World.tw (World.spread_to 1%N 10%N 2%N
                   (World.mk_tick line_world (env_const (2 ^ 53 - 1)) 0 0 0 0)))
      !! 2%N = Some receiver'
    ∧ (10%N ∉ Agent.beliefs receiver')
    ∧ AgentState.susceptibility (Agent.state receiver') = 0.5%Q.
Proof.
  apply (proj2 susceptibility_after_attempt 1%N 10%N 2%N
           (World.mk_tick line_world (env_const (2 ^ 53 - 1)) 0 0 0 0)
           (line_agent 1%N {[2%N]} {[10%N]})
           (line_agent 2%N {[1%N; 3%N]} {[11%N]})
           (line_idea 10%N)).
  - reflexivity.
  - reflexivity.
  - reflexivity.
  - vm_compute. intros H. discriminate H.
  - vm_compute. intros H. discriminate H.
Defined.

(** ** The probability a tick uses *)

Lemma adopt_idea_beliefs (a : Agent.t) (i : UUID) :
  Agent.beliefs (Agent.adopt_idea a i).1 = {[i]} ∪ Agent.beliefs a.
Proof.
  unfold Agent.adopt_idea.
  destruct (bool_decide_reflect (i ∈ Agent.beliefs a)) as [Hin|Hin]; cbn;
    [|done].
  symmetry. apply subseteq_union_1_L. by apply singleton_subseteq_l.
Qed.

(** C6.  The spread probability is
    virality * (1 - 0.5 * complexity) * sender_influence * receiver_openness
    * relevance * trust_factor * (0.5 + 0.5 * emotional_valence), clamped to
    [0,1]; and an attempt of a tick ends in adoption exactly when its
    uniform draw is below that value, taken at the spreader's influence, the
    receiver's openness, the receiver's relevance for the idea's tags and
    trust factor 1. *)
Theorem spread_probability_formula :
  (∀ (idea : Idea.t) (sender_influence receiver_openness relevance
        trust_factor : Q),
     (Idea.calculate_spread_probability idea sender_influence
        receiver_openness relevance trust_factor
      == clamp01 (Idea.virality_score idea * (1 - 0.5 * Idea.complexity idea)
                  * sender_influence * receiver_openness * relevance
                  * trust_factor
                  * (0.5 + 0.5 * Idea.emotional_valence idea)))%Q)
  ∧ (∀ (sp i c : UUID) (s : World.tick) (spreader receiver : Agent.t)
       (idea : Idea.t),
       World.agents (World.tw s) !! sp = Some spreader →
       World.ideas (World.tw s) !! i = Some idea →
       World.agents (World.tw s) !! c = Some receiver →
       i ∉ Agent.beliefs receiver →
       (∃ receiver',
          World.agents (World.tw (World.spread_to sp i c s)) !! c = Some receiver'
          ∧ i ∈ Agent.beliefs receiver')
       ↔ ((Env.random (World.te s)).1
          < clamp01 (Idea.virality_score idea * (1 - 0.5 * Idea.complexity idea)
                     * AgentProfile.influence (Agent.profile spreader)
                     * AgentProfile.openness (Agent.profile receiver)
                     * Agent.calculate_idea_relevance receiver (Idea.tags idea)
                     * 1
                     * (0.5 + 0.5 * Idea.emotional_valence idea)))%Q).
Proof.
  split; [exact spread_probability_unfold|].
  intros sp i c s spreader receiver idea Hsp Hi Hc Hni.
  rewrite (spread_to_agents _ _ _ _ _ _ _ Hsp Hi Hc Hni), lookup_insert_eq.
  rewrite <- spread_probability_unfold.
  fold (tick_probability spreader receiver idea).
  destruct (Qltb _ _) eqn:Hlt.
  - apply Qltb_lt in Hlt. split; [done|]. intros _. eexists. split; [done|].
    rewrite adopt_idea_beliefs. apply elem_of_union_l, elem_of_singleton_2.
    reflexivity.
  - split.
    + intros (r' & Hr' & Hin). injection Hr' as <-. done.
    + intros Hlt'. apply Qltb_lt in Hlt'. congruence.
Qed.

(** In [line_world] with every draw equal to zero, agent 2 adopts idea 10
    from agent 1: the draw 0 is below the probability 0.3. *)
Lemma spread_probability_formula_witness :
  ∃ receiver',
    World.agents
      (World.tw (World.spread_to 1%N 10%N 2%N
                   (World.mk_tick line_world (env_const 0) 0 0 0 0)))
      !! 2%N = Some receiver'
    ∧ 10%N ∈ Agent.beliefs receiver'.
Proof.
  apply (proj2 spread_probability_formula 1%N 10%N 2%N
           (World.mk_tick line_world (env_const 0) 0 0 0 0)
           (line_agent 1%N {[2%N]} {[10%N]})
           (line_agent 2%N {[1%N; 3%N]} {[11%N]})
           (line_idea 10%N)).
  - reflexivity.
  - reflexivity.
  - reflexivity.
  - vm_compute. intros H. discriminate H.
  - vm_compute. reflexivity.
Defined.

(** ** Which ideas a spreader propagates in a tick *)

Lemma fold_left_preserves_in {S A} (f : S → A → S) (P : S → Prop)
    (l : list A) (s : S) :
  P s → (∀ s' x, x ∈ l → P s' → P (f s' x)) → P (fold_left f l s).
Proof.
  revert s. induction l as [|x l IH]; intros s Hs Hf; cbn; [done|].
  apply IH.
  - apply Hf; [left|done].
  - intros s' y Hy. apply Hf. by right.
Qed.

Lemma swap_perm {A} (x : list A) (i j : nat) : Env.swap x i j ≡ₚ x.
Proof.
  unfold Env.swap.
  destruct (x !! i) as [a|] eqn:Hi; [|done].
  destruct (x !! j) as [b|] eqn:Hj; [|done].
  by apply Permutation_insert_swap.
Qed.

Lemma shuffle_from_perm {A} (i : nat) (x : list A) (e : Env.t) :
  (Env.shuffle_from i x e).1 ≡ₚ x.
Proof.
  revert x e. induction i as [|i IH]; intros x e; [done|].
  cbn [Env.shuffle_from].
  destruct (Env.randbelow _ e) as [j e'].
  rewrite IH. apply swap_perm.
Qed.

(** [random.shuffle] reorders and nothing else. *)
Lemma shuffle_perm {A} (x : list A) (e : Env.t) : (Env.shuffle x e).1 ≡ₚ x.
Proof. apply shuffle_from_perm. Qed.

Lemma elem_of_slice_from {A} (start : Z) (l : list A) (x : A) :
  x ∈ slice_from start l → x ∈ l.
Proof.
  unfold slice_from. destruct (start <? 0)%Z; intros Hx;
    apply list_elem_of_lookup in Hx as [k Hk];
    rewrite lookup_drop in Hk; apply list_elem_of_lookup; eauto.
Qed.

Lemma events_record_event (w : World.t) (ev0 ev : SpreadEvent.t) :
  ev ∈ World.recent_events (World._record_event w ev0) →
  ev ∈ World.recent_events w ∨ ev = ev0.
Proof.
  unfold World._record_event.
  set (w1 := World.set_events _ _ w).
  assert (H1 : ev ∈ World.recent_events w1 →
               ev ∈ World.recent_events w ∨ ev = ev0).
  { subst w1. cbn. intros Hin. apply elem_of_app in Hin as [Hin|Hin];
      [by left|]. right. by apply list_elem_of_singleton in Hin. }
  destruct (_ <? _)%Z; [|exact H1].
  cbn. intros Hin. apply elem_of_slice_from in Hin. by apply H1.
Qed.

Lemma events_trigger_mutation (w : World.t) (idea_id : UUID) (e : Env.t) :
  World.recent_events (World._trigger_mutation w idea_id e).1.1
  = World.recent_events w.
Proof.
  unfold World._trigger_mutation.
  destruct (World.ideas w !! idea_id) as [idea|]; [|done].
  destruct (negb (Idea.can_mutate idea)); [done|].
  destruct (Env.choice _ _ _) as [kind e1].
  destruct (World.mutation_changes _ _ _) as [[[txt dv] de] e2].
  destruct (Idea.create_mutation _ _ _ _ _ _) as [[idea' [err|mutant]] e3];
    reflexivity.
Qed.

Lemma static_lookup (w w' : World.t) (k : UUID) (a : Agent.t) :
  skeleton w' = skeleton w → World.agents w !! k = Some a →
  ∃ a', World.agents w' !! k = Some a' ∧ static a' = static a.
Proof.
  intros Hsk Hk. unfold skeleton in Hsk. injection Hsk as _ _ _ _ Hag.
  assert (Hl : (static <$> World.agents w') !! k = Some (static a)).
  { rewrite Hag, lookup_fmap, Hk. done. }
  rewrite lookup_fmap in Hl.
  destruct (World.agents w' !! k) as [a'|]; cbn in Hl; [|discriminate Hl].
  exists a'. split; [done|congruence].
Qed.

(** An event recorded by one attempt names the spreader and the idea of
    that attempt. *)
Lemma events_spread_to (sp i c : UUID) (s : World.tick) (spreader : Agent.t)
    (ev : SpreadEvent.t) :
  World.agents (World.tw s) !! sp = Some spreader →
  ev ∈ World.recent_events (World.tw (World.spread_to sp i c s)) →
  ev ∈ World.recent_events (World.tw s)
  ∨ (SpreadEvent.from_agent_id ev = Agent.id spreader
     ∧ SpreadEvent.idea_id ev = i).
Proof.
  intros Hsp. unfold World.spread_to. rewrite Hsp.
  destruct (World.ideas (World.tw s) !! i) as [idea|]; [|by left].
  destruct (World.agents (World.tw s) !! c) as [receiver|]; [|by left].
  destruct (Agent.has_idea receiver i); [by left|].
  destruct (Env.random (World.te s)) as [u e1].
  destruct (Qltb u _); [|by left].
  destruct (Env.utcnow e1) as [now e2].
  set (w1 := World.set_totals _ _ _).
  set (ev0 := SpreadEvent.mk _ _ _ _ _ _ _).
  assert (Hrec : ev ∈ World.recent_events (World._record_event w1 ev0) →
                 ev ∈ World.recent_events (World.tw s)
                 ∨ (SpreadEvent.from_agent_id ev = Agent.id spreader
                    ∧ SpreadEvent.idea_id ev = i)).
  { intros Hin. apply events_record_event in Hin as [Hin| ->];
      [by left|by right]. }
  destruct (Idea.can_mutate _); [|exact Hrec].
  destruct (Env.random e2) as [u' e3].
  destruct (Qltb u' _); [|exact Hrec].
  pose proof (events_trigger_mutation (World._record_event w1 ev0) i e3) as Ht.
  destruct (World._trigger_mutation _ _ _) as [[w3 [mutant|]] e4];
    cbn in Ht |- *; rewrite Ht; exact Hrec.
Qed.

Lemma events_spread_idea (sp i : UUID) (s : World.tick) (spreader : Agent.t)
    (ev : SpreadEvent.t) :
  World.agents (World.tw s) !! sp = Some spreader →
  ev ∈ World.recent_events (World.tw (World.spread_idea sp i s)) →
  ev ∈ World.recent_events (World.tw s)
  ∨ (SpreadEvent.from_agent_id ev = Agent.id spreader
     ∧ SpreadEvent.idea_id ev = i).
Proof.
  intros Hsp. unfold World.spread_idea. rewrite Hsp.
  destruct (World.ideas (World.tw s) !! i); [|by left].
  revert ev.
  apply (fold_left_preserves _
    (λ s', skeleton (World.tw s') = skeleton (World.tw s)
           ∧ ∀ ev, ev ∈ World.recent_events (World.tw s') →
                   ev ∈ World.recent_events (World.tw s)
                   ∨ (SpreadEvent.from_agent_id ev = Agent.id spreader
                      ∧ SpreadEvent.idea_id ev = i))).
  - split; [done|]. intros ev Hin. by left.
  - intros s' c [Hsk Hev]. split; [by rewrite skeleton_spread_to|].
    destruct (static_lookup (World.tw s) (World.tw s') sp spreader Hsk Hsp)
      as [spreader' [Hsp' Hst]].
    intros ev Hin.
    apply (events_spread_to sp i c s' spreader' ev Hsp') in Hin
      as [Hin|[Hf Hi]].
    + by apply Hev.
    + right. split; [|done]. rewrite Hf.
      unfold static in Hst. by injection Hst.
Qed.

(** The events a spreader's turn records are about the ideas it believed
    when the turn began. *)
Lemma events_spreader_turn (sp : UUID) (s : World.tick) (spreader : Agent.t)
    (ev : SpreadEvent.t) :
  World.agents (World.tw s) !! sp = Some spreader →
  ev ∈ World.recent_events (World.tw (World.spreader_turn sp s)) →
  ev ∈ World.recent_events (World.tw s)
  ∨ (SpreadEvent.from_agent_id ev = Agent.id spreader
     ∧ SpreadEvent.idea_id ev ∈ Agent.beliefs spreader).
Proof.
  intros Hsp. unfold World.spreader_turn. rewrite Hsp. revert ev.
  apply (fold_left_preserves_in _
    (λ s', skeleton (World.tw s') = skeleton (World.tw s)
           ∧ ∀ ev, ev ∈ World.recent_events (World.tw s') →
                   ev ∈ World.recent_events (World.tw s)
                   ∨ (SpreadEvent.from_agent_id ev = Agent.id spreader
                      ∧ SpreadEvent.idea_id ev ∈ Agent.beliefs spreader))).
  - split; [done|]. intros ev Hin. by left.
  - intros s' i Hi [Hsk Hev]. split; [by rewrite skeleton_spread_idea|].
    destruct (static_lookup (World.tw s) (World.tw s') sp spreader Hsk Hsp)
      as [spreader' [Hsp' Hst]].
    intros ev Hin.
    apply (events_spread_idea sp i s' spreader' ev Hsp') in Hin
      as [Hin|[Hf Hid]].
    + by apply Hev.
    + right. split.
      * rewrite Hf. unfold static in Hst. by injection Hst.
      * rewrite Hid. by apply elem_of_elements in Hi.
Qed.

Lemma elem_of_spreaders (w : World.t) (sp : UUID) :
  sp ∈ World.spreaders w ↔
  ∃ a, World.agents w !! sp = Some a ∧ Agent.beliefs a ≠ ∅.
Proof.
  unfold World.spreaders. rewrite list_elem_of_fmap. split.
  - intros ([k a] & -> & Hin). apply list_elem_of_filter in Hin as [Hb Hin].
    apply elem_of_map_to_list in Hin. by exists a.
  - intros (a & Ha & Hb). exists (sp, a). split; [done|].
    apply list_elem_of_filter. split; [done|]. by apply elem_of_map_to_list.
Qed.

Lemma events_spread_phase (order : list UUID) (s : World.tick)
    (ev : SpreadEvent.t) :
  ev ∈ World.recent_events (World.tw (World.spread_phase order s)) →
  ev ∈ World.recent_events (World.tw s)
  ∨ ∃ sp a, sp ∈ order ∧ World.agents (World.tw s) !! sp = Some a
            ∧ SpreadEvent.from_agent_id ev = Agent.id a.
Proof.
  unfold World.spread_phase. revert ev.
  apply (fold_left_preserves_in _
    (λ s', skeleton (World.tw s') = skeleton (World.tw s)
           ∧ ∀ ev, ev ∈ World.recent_events (World.tw s') →
                   ev ∈ World.recent_events (World.tw s)
                   ∨ ∃ sp a, sp ∈ order
                             ∧ World.agents (World.tw s) !! sp = Some a
                             ∧ SpreadEvent.from_agent_id ev = Agent.id a)).
  - split; [done|]. intros ev Hin. by left.
  - intros s' sp Hsp [Hsk Hev]. split; [by rewrite skeleton_spreader_turn|].
    destruct (World.agents (World.tw s') !! sp) as [a'|] eqn:Ha'.
    + destruct (static_lookup (World.tw s') (World.tw s) sp a' (eq_sym Hsk) Ha')
        as [a [Ha Hst]].
      intros ev Hin.
      apply (events_spreader_turn sp s' a' ev Ha') in Hin as [Hin|[Hf _]].
      * by apply Hev.
      * right. exists sp, a. split; [done|]. split; [done|].
        rewrite Hf. unfold static in Hst. by injection Hst.
    + unfold World.spreader_turn. rewrite Ha'. exact Hev.
Qed.

Lemma events_decay_phase (s : World.tick) :
  World.recent_events (World.tw (World.decay_phase s))
  = World.recent_events (World.tw s).
Proof.
  unfold World.decay_phase.
  apply (fold_left_preserves _
    (λ s', World.recent_events (World.tw s')
           = World.recent_events (World.tw s))); [done|].
  intros s1 a <-. unfold World.decay_agent.
  destruct (World.agents (World.tw s1) !! a); [|done].
  apply (fold_left_preserves _
    (λ s', World.recent_events (World.tw s')
           = World.recent_events (World.tw s1))); [done|].
  intros s2 i <-. unfold World.decay_belief.
  destruct (Env.random _) as [u e1]. destruct (Qltb u _); [|done].
  destruct (World.agents (World.tw s2) !! a) as [agent|]; [|done].
  by destruct (Agent.forget_idea agent i).
Qed.

Lemma events_finish_step (w : World.t) (e : Env.t) :
  World.recent_events (World.finish_step w e).1 = World.recent_events w.
Proof.
  unfold World.finish_step. destruct (World.max_steps_reached _); [|done].
  by destruct (Env.utcnow e).
Qed.

Lemma idea_view_expose (i i' : UUID) (a : Agent.t) :
  i ≠ i' → idea_view i' (Agent.expose_to_idea a i).1 = idea_view i' a.
Proof.
  intros Hne. unfold idea_view, Agent.expose_to_idea. cbn.
  by rewrite lookup_insert_ne.
Qed.

Lemma idea_view_adopt (i i' : UUID) (a : Agent.t) :
  i ≠ i' → idea_view i' (Agent.adopt_idea a i).1 = idea_view i' a.
Proof.
  intros Hne. unfold idea_view. rewrite adopt_idea_beliefs. f_equal.
  - unfold Agent.adopt_idea.
    by destruct (bool_decide_reflect (i ∈ Agent.beliefs a)).
  - apply bool_decide_ext. rewrite elem_of_union, elem_of_singleton.
    split; [intros [Heq|Hin]; [congruence|done]|by right].
Qed.

Lemma idea_view_set_agent (m : gmap UUID Agent.t) (i' k : UUID)
    (a a' : Agent.t) :
  m !! k = Some a → idea_view i' a' = idea_view i' a →
  idea_view i' <$> <[k := a']> m = idea_view i' <$> m.
Proof.
  intros Hk Hv. rewrite fmap_insert, Hv. apply insert_id.
  by rewrite lookup_fmap, Hk.
Qed.

(** An attempt with idea [i] changes nobody's view of another idea. *)
Lemma idea_view_spread_to (sp i c i' : UUID) (s : World.tick) :
  i ≠ i' →
  idea_view i' <$> World.agents (World.tw (World.spread_to sp i c s))
  = idea_view i' <$> World.agents (World.tw s).
Proof.
  intros Hne.
  destruct (World.agents (World.tw s) !! sp) as [spreader|] eqn:Hsp;
    [|unfold World.spread_to; by rewrite Hsp].
  destruct (World.ideas (World.tw s) !! i) as [idea|] eqn:Hi;
    [|unfold World.spread_to; by rewrite Hsp, Hi].
  destruct (World.agents (World.tw s) !! c) as [receiver|] eqn:Hc;
    [|unfold World.spread_to; by rewrite Hsp, Hi, Hc].
  destruct (decide (i ∈ Agent.beliefs receiver)) as [Hin|Hni].
  { unfold World.spread_to, Agent.has_idea. rewrite Hsp, Hi, Hc.
    by rewrite bool_decide_eq_true_2. }
  rewrite (spread_to_agents _ _ _ _ _ _ _ Hsp Hi Hc Hni).
  apply (idea_view_set_agent _ _ _ receiver); [done|].
  destruct (Qltb _ _).
  - by rewrite idea_view_adopt, idea_view_expose.
  - by rewrite idea_view_expose.
Qed.

Lemma idea_view_spread_idea (sp i i' : UUID) (s : World.tick) :
  i ≠ i' →
  idea_view i' <$> World.agents (World.tw (World.spread_idea sp i s))
  = idea_view i' <$> World.agents (World.tw s).
Proof.
  intros Hne. unfold World.spread_idea.
  destruct (World.ideas (World.tw s) !! i); [|done].
  destruct (World.agents (World.tw s) !! sp) as [spreader|]; [|done].
  apply (fold_left_preserves _
    (λ s', idea_view i' <$> World.agents (World.tw s')
           = idea_view i' <$> World.agents (World.tw s))); [done|].
  intros s' c Hs'. by rewrite idea_view_spread_to.
Qed.

(** A spreader's turn exposes nobody to, and makes nobody adopt, an idea
    the spreader did not believe when the turn began. *)
Lemma idea_view_spreader_turn (sp i' : UUID) (s : World.tick)
    (spreader : Agent.t) :
  World.agents (World.tw s) !! sp = Some spreader →
  i' ∉ Agent.beliefs spreader →
  idea_view i' <$> World.agents (World.tw (World.spreader_turn sp s))
  = idea_view i' <$> World.agents (World.tw s).
Proof.
  intros Hsp Hni. unfold World.spreader_turn. rewrite Hsp.
  apply (fold_left_preserves_in _
    (λ s', idea_view i' <$> World.agents (World.tw s')
           = idea_view i' <$> World.agents (World.tw s))); [done|].
  intros s' i Hi Hs'. rewrite idea_view_spread_idea; [done|].
  intros ->. apply Hni. by apply elem_of_elements in Hi.
Qed.

(** ** The turns of a tick: who is exposed to what *)

Lemma fold_left_hit {S A} (f : S → A → S) (P0 P1 : S → Prop) (x : A)
    (l : list A) (s : S) :
  NoDup l → x ∈ l → P0 s →
  (∀ s' y, y ≠ x → P0 s' → P0 (f s' y)) →
  (∀ s', P0 s' → P1 (f s' x)) →
  (∀ s' y, y ≠ x → P1 s' → P1 (f s' y)) →
  P1 (fold_left f l s).
Proof.
  intros Hnd Hx H0 Hmiss0 Hhit Hmiss1. revert s H0.
  induction Hnd as [|y l Hy Hnd IH]; intros s H0; [by apply elem_of_nil in Hx|].
  cbn. apply elem_of_cons in Hx as [<-|Hx].
  - apply fold_left_preserves_in; [by apply Hhit|].
    intros s' z Hz. apply Hmiss1. by intros ->.
  - apply IH; [done|]. apply Hmiss0; [|done]. by intros ->.
Qed.

Lemma view_lookup (w w' : World.t) (c i : UUID) :
  idea_view i <$> World.agents w' = idea_view i <$> World.agents w →
  idea_view i <$> (World.agents w' !! c) = idea_view i <$> (World.agents w !! c).
Proof. intros H. by rewrite <- !lookup_fmap, H. Qed.

Lemma exposures_to_view (w w' : World.t) (c i : UUID) :
  idea_view i <$> (World.agents w' !! c) = idea_view i <$> (World.agents w !! c) →
  exposures_to w' c i = exposures_to w c i
  ∧ (believes w' c i ↔ believes w c i).
Proof.
  unfold exposures_to, believes, idea_view.
  destruct (World.agents w' !! c) as [a'|], (World.agents w !! c) as [a|];
    cbn; intros H; try discriminate H.
  - injection H as Hx Hb. rewrite Hx. split; [done|].
    split; intros (x & [= <-] & Hin); eexists; (split; [done|]).
    + apply (bool_decide_unpack _). rewrite <- Hb. by apply bool_decide_pack.
    + apply (bool_decide_unpack _). rewrite Hb. by apply bool_decide_pack.
  - split; [done|]. split; intros (x & [=] & _).
Qed.

Lemma agents_spread_to_cases (sp i c : UUID) (s : World.tick) :
  World.agents (World.tw (World.spread_to sp i c s)) = World.agents (World.tw s)
  ∨ ∃ spreader idea receiver,
      World.agents (World.tw s) !! sp = Some spreader
      ∧ World.ideas (World.tw s) !! i = Some idea
      ∧ World.agents (World.tw s) !! c = Some receiver
      ∧ (i ∉ Agent.beliefs receiver)
      ∧ World.agents (World.tw (World.spread_to sp i c s))
        = <[c := if Qltb (Env.random (World.te s)).1
                      (tick_probability spreader receiver idea)
                 then (Agent.adopt_idea (Agent.expose_to_idea receiver i).1 i).1
                 else (Agent.expose_to_idea receiver i).1]>
            (World.agents (World.tw s)).
Proof.
  destruct (World.agents (World.tw s) !! sp) as [spreader|] eqn:Hsp;
    [|left; unfold World.spread_to; by rewrite Hsp].
  destruct (World.ideas (World.tw s) !! i) as [idea|] eqn:Hi;
    [|left; unfold World.spread_to; by rewrite Hsp, Hi].
  destruct (World.agents (World.tw s) !! c) as [receiver|] eqn:Hc;
    [|left; unfold World.spread_to; by rewrite Hsp, Hi, Hc].
  destruct (decide (i ∈ Agent.beliefs receiver)) as [Hin|Hni].
  { left. unfold World.spread_to, Agent.has_idea. rewrite Hsp, Hi, Hc.
    by rewrite bool_decide_eq_true_2. }
  right. exists spreader, idea, receiver. repeat (split; [done|]).
  by apply spread_to_agents.
Qed.

Lemma exposures_adopt (a : Agent.t) (i : UUID) :
  Agent.idea_exposures (Agent.adopt_idea a i).1 = Agent.idea_exposures a.
Proof. unfold Agent.adopt_idea. by case_bool_decide. Qed.

Lemma exposures_expose (a : Agent.t) (i : UUID) :
  Agent.idea_exposures (Agent.expose_to_idea a i).1
  = <[i := (default 0 (Agent.idea_exposures a !! i) + 1)%Z]>
      (Agent.idea_exposures a).
Proof. reflexivity. Qed.

Lemma exposures_attempted (a : Agent.t) (i : UUID) (b : bool) :
  Agent.idea_exposures
    (if b then (Agent.adopt_idea (Agent.expose_to_idea a i).1 i).1
     else (Agent.expose_to_idea a i).1)
  = <[i := (default 0 (Agent.idea_exposures a !! i) + 1)%Z]>
      (Agent.idea_exposures a).
Proof. destruct b; [rewrite exposures_adopt|]; apply exposures_expose. Qed.

Lemma agent_spread_to_other (sp i c c' : UUID) (s : World.tick) :
  c' ≠ c →
  World.agents (World.tw (World.spread_to sp i c' s)) !! c
  = World.agents (World.tw s) !! c.
Proof.
  intros Hne.
  destruct (agents_spread_to_cases sp i c' s)
    as [->|(spreader & idea & receiver & _ & _ & _ & _ & ->)]; [done|].
  by rewrite lookup_insert_ne.
Qed.

Lemma exposures_to_spread_to_hit (sp i c : UUID) (s : World.tick)
    (spreader receiver : Agent.t) :
  World.agents (World.tw s) !! sp = Some spreader →
  is_Some (World.ideas (World.tw s) !! i) →
  World.agents (World.tw s) !! c = Some receiver →
  i ∉ Agent.beliefs receiver →
  exposures_to (World.tw (World.spread_to sp i c s)) c i
  = (exposures_to (World.tw s) c i + 1)%Z.
Proof.
  intros Hsp [idea Hi] Hc Hni. unfold exposures_to.
  rewrite (spread_to_agents _ _ _ _ _ _ _ Hsp Hi Hc Hni), lookup_insert_eq, Hc.
  by rewrite exposures_attempted, lookup_insert_eq.
Qed.

Lemma exposures_to_spread_to_mono (sp j c' c i : UUID) (s : World.tick) :
  (exposures_to (World.tw s) c i
   <= exposures_to (World.tw (World.spread_to sp j c' s)) c i)%Z.
Proof.
  unfold exposures_to.
  destruct (agents_spread_to_cases sp j c' s)
    as [->|(spreader & idea & receiver & _ & _ & Hc & _ & ->)]; [done|].
  destruct (decide (c = c')) as [->|Hne]; [|by rewrite lookup_insert_ne].
  rewrite lookup_insert_eq, Hc, exposures_attempted.
  destruct (decide (i = j)) as [->|Hij].
  - rewrite lookup_insert_eq. cbn. lia.
  - by rewrite lookup_insert_ne.
Qed.

Lemma catalog_trigger_mutation (w : World.t) (j i : UUID) (e : Env.t) :
  is_Some (World.ideas w !! i) →
  is_Some (World.ideas (World._trigger_mutation w j e).1.1 !! i).
Proof.
  intros Hi. unfold World._trigger_mutation.
  destruct (World.ideas w !! j) as [idea|]; [|done].
  destruct (negb (Idea.can_mutate idea)); [done|].
  destruct (Env.choice _ _ _) as [kind e1].
  destruct (World.mutation_changes _ _ _) as [[[txt dv] de] e2].
  destruct (Idea.create_mutation _ _ _ _ _ _) as [[idea' [err|mutant]] e3];
    cbn; rewrite ?lookup_insert_is_Some'; tauto.
Qed.

Lemma ideas_record_event_eq (w : World.t) (ev : SpreadEvent.t) :
  World.ideas (World._record_event w ev) = World.ideas w.
Proof. unfold World._record_event. by case_match. Qed.

Lemma catalog_spread_to (sp j c i : UUID) (s : World.tick) :
  is_Some (World.ideas (World.tw s) !! i) →
  is_Some (World.ideas (World.tw (World.spread_to sp j c s)) !! i).
Proof.
  intros Hi. unfold World.spread_to.
  destruct (World.agents (World.tw s) !! sp) as [spreader|]; [|done].
  destruct (World.ideas (World.tw s) !! j) as [idea|]; [|done].
  destruct (World.agents (World.tw s) !! c) as [receiver|]; [|done].
  destruct (Agent.has_idea receiver j); [done|].
  destruct (Env.random (World.te s)) as [u e1].
  destruct (Qltb u _).
  - destruct (Env.utcnow e1) as [now e2].
    set (w1 := World.set_totals _ _ _).
    assert (Hw1 : is_Some (World.ideas w1 !! i)).
    { subst w1. cbn. rewrite lookup_insert_is_Some'. by right. }
    set (ev := SpreadEvent.mk _ _ _ _ _ _ _).
    assert (Hw2 : is_Some (World.ideas (World._record_event w1 ev) !! i))
      by (by rewrite ideas_record_event_eq).
    destruct (Idea.can_mutate _); [|done].
    destruct (Env.random e2) as [u' e3].
    destruct (Qltb u' _); [|done].
    pose proof (catalog_trigger_mutation _ j i e3 Hw2) as Hw3.
    by destruct (World._trigger_mutation _ _ _) as [[w3 [mutant|]] e4].
  - cbn. rewrite lookup_insert_is_Some'. by right.
Qed.

Lemma catalog_spread_idea (sp j i : UUID) (s : World.tick) :
  is_Some (World.ideas (World.tw s) !! i) →
  is_Some (World.ideas (World.tw (World.spread_idea sp j s)) !! i).
Proof.
  intros Hi. unfold World.spread_idea.
  destruct (World.ideas (World.tw s) !! j); [|done].
  destruct (World.agents (World.tw s) !! sp) as [spreader|]; [|done].
  apply (fold_left_preserves _
           (λ s', is_Some (World.ideas (World.tw s') !! i))); [done|].
  intros s' c Hs'. by apply catalog_spread_to.
Qed.

Lemma exposures_to_spread_idea_mono (sp j c i : UUID) (s : World.tick) :
  (exposures_to (World.tw s) c i
   <= exposures_to (World.tw (World.spread_idea sp j s)) c i)%Z.
Proof.
  unfold World.spread_idea.
  destruct (World.ideas (World.tw s) !! j); [|done].
  destruct (World.agents (World.tw s) !! sp) as [spreader|]; [|done].
  apply (fold_left_preserves _
    (λ s', (exposures_to (World.tw s) c i
            <= exposures_to (World.tw s') c i)%Z)); [done|].
  intros s' c' Hs'. etransitivity; [exact Hs'|].
  apply exposures_to_spread_to_mono.
Qed.

Lemma exposures_to_spreader_turn_mono (sp c i : UUID) (s : World.tick) :
  (exposures_to (World.tw s) c i
   <= exposures_to (World.tw (World.spreader_turn sp s)) c i)%Z.
Proof.
  unfold World.spreader_turn.
  destruct (World.agents (World.tw s) !! sp) as [spreader|]; [|done].
  apply (fold_left_preserves _
    (λ s', (exposures_to (World.tw s) c i
            <= exposures_to (World.tw s') c i)%Z)); [done|].
  intros s' j Hs'. etransitivity; [exact Hs'|].
  apply exposures_to_spread_idea_mono.
Qed.

Lemma exposures_to_spread_phase_mono (order : list UUID) (c i : UUID)
    (s : World.tick) :
  (exposures_to (World.tw s) c i
   <= exposures_to (World.tw (World.spread_phase order s)) c i)%Z.
Proof.
  unfold World.spread_phase.
  apply (fold_left_preserves _
    (λ s', (exposures_to (World.tw s) c i
            <= exposures_to (World.tw s') c i)%Z)); [done|].
  intros s' sp Hs'. etransitivity; [exact Hs'|].
  apply exposures_to_spreader_turn_mono.
Qed.

(** One turn exposes every connection of the spreader that does not hold
    the idea, once, to every catalogued idea the spreader believes when the
    turn begins. *)
Lemma spreader_turn_exposes (sp c i : UUID) (s : World.tick)
    (spreader receiver : Agent.t) :
  World.agents (World.tw s) !! sp = Some spreader →
  i ∈ Agent.beliefs spreader →
  is_Some (World.ideas (World.tw s) !! i) →
  c ∈ Agent.connections spreader →
  World.agents (World.tw s) !! c = Some receiver →
  i ∉ Agent.beliefs receiver →
  exposures_to (World.tw (World.spreader_turn sp s)) c i
  = (exposures_to (World.tw s) c i + 1)%Z.
Proof.
  intros Hsp Hi Hcat Hc Hrec Hni.
  set (F := λ s' : World.tick,
         skeleton (World.tw s') = skeleton (World.tw s)
         ∧ is_Some (World.ideas (World.tw s') !! i)).
  set (P0 := λ s' : World.tick,
         F s' ∧ idea_view i <$> (World.agents (World.tw s') !! c)
                = idea_view i <$> (World.agents (World.tw s) !! c)).
  set (P1 := λ s' : World.tick,
         F s' ∧ exposures_to (World.tw s') c i
                = (exposures_to (World.tw s) c i + 1)%Z).
  assert (HF_to : ∀ s' j c', F s' → F (World.spread_to sp j c' s')).
  { intros s' j c' [Hsk Hs']. split; [by rewrite skeleton_spread_to|].
    by apply catalog_spread_to. }
  assert (HF_idea : ∀ s' j, F s' → F (World.spread_idea sp j s')).
  { intros s' j [Hsk Hs']. split; [by rewrite skeleton_spread_idea|].
    by apply catalog_spread_idea. }
  assert (Hturn : P1 (World.spreader_turn sp s)); [|by destruct Hturn].
  unfold World.spreader_turn. rewrite Hsp.
  apply (fold_left_hit _ P0 P1 i).
  - apply NoDup_elements.
  - by apply elem_of_elements.
  - done.
  - intros s' j Hj [HF Hv]. split; [by apply HF_idea|].
    rewrite <- Hv. apply view_lookup. by apply idea_view_spread_idea.
  - intros s' [[Hsk Hs'] Hv].
    destruct (static_lookup (World.tw s) (World.tw s') sp spreader Hsk Hsp)
      as (spreader' & Hsp' & Hst).
    assert (Hconn : Agent.connections spreader' = Agent.connections spreader)
      by (unfold static in Hst; by injection Hst).
    unfold World.spread_idea. destruct Hs' as [idea Hidea].
    rewrite Hidea, Hsp', Hconn.
    assert (H0 : P0 s') by (split; [split; [done|by eexists]|done]).
    clear Hidea idea Hv.
    apply (fold_left_hit _ P0 P1 c).
    + apply NoDup_elements.
    + by apply elem_of_elements.
    + exact H0.
    + intros s2 c' Hc' [HF Hv]. split; [by apply HF_to|].
      by rewrite agent_spread_to_other.
    + intros s2 [[Hsk2 Hs2] Hv]. split; [by apply HF_to|].
      destruct (static_lookup (World.tw s) (World.tw s2) sp spreader Hsk2 Hsp)
        as (spreader2 & Hsp2 & _).
      rewrite Hrec in Hv.
      destruct (World.agents (World.tw s2) !! c) as [r2|] eqn:Hr2;
        [|discriminate Hv].
      cbn in Hv. injection Hv as Hx Hb.
      assert (Hni2 : i ∉ Agent.beliefs r2).
      { intros Hin. apply Hni. apply (bool_decide_unpack _).
        rewrite <- Hb. by apply bool_decide_pack. }
      rewrite (exposures_to_spread_to_hit sp i c s2 spreader2 r2) by done.
      unfold exposures_to. by rewrite Hr2, Hrec, Hx.
    + intros s2 c' Hc' [HF Hx]. split; [by apply HF_to|].
      unfold exposures_to in *. by rewrite agent_spread_to_other.
  - intros s' j Hj [HF Hx]. split; [by apply HF_idea|].
    rewrite <- Hx.
    apply (exposures_to_view (World.tw s')), view_lookup.
    by apply idea_view_spread_idea.
Qed.

(** A turn leaves alone every agent that is not a connection of the
    spreader. *)
Lemma agent_spreader_turn_other (sp c : UUID) (s : World.tick)
    (spreader : Agent.t) :
  World.agents (World.tw s) !! sp = Some spreader →
  c ∉ Agent.connections spreader →
  World.agents (World.tw (World.spreader_turn sp s)) !! c
  = World.agents (World.tw s) !! c.
Proof.
  intros Hsp Hc. unfold World.spreader_turn. rewrite Hsp.
  assert (H : skeleton (World.tw (fold_left
                (λ s' idea_id, World.spread_idea sp idea_id s')
                (elements (Agent.beliefs spreader)) s))
              = skeleton (World.tw s)
              ∧ World.agents (World.tw (fold_left
                  (λ s' idea_id, World.spread_idea sp idea_id s')
                  (elements (Agent.beliefs spreader)) s)) !! c
                = World.agents (World.tw s) !! c); [|by destruct H].
  apply (fold_left_preserves _
    (λ s', skeleton (World.tw s') = skeleton (World.tw s)
           ∧ World.agents (World.tw s') !! c = World.agents (World.tw s) !! c));
    [done|].
  intros s' j [Hsk Hag]. split; [by rewrite skeleton_spread_idea|].
  rewrite <- Hag. unfold World.spread_idea.
  destruct (World.ideas (World.tw s') !! j); [|done].
  destruct (static_lookup (World.tw s) (World.tw s') sp spreader Hsk Hsp)
    as (spreader' & Hsp' & Hst).
  rewrite Hsp'.
  assert (Hconn : Agent.connections spreader' = Agent.connections spreader)
    by (unfold static in Hst; by injection Hst).
  apply (fold_left_preserves_in _
    (λ s2, World.agents (World.tw s2) !! c = World.agents (World.tw s') !! c));
    [done|].
  intros s2 c' Hc' <-. apply agent_spread_to_other.
  intros ->. apply Hc. rewrite <- Hconn. by apply elem_of_elements in Hc'.
Qed.

(** A turn that changes what agent [c] holds about idea [i] is the turn
    of an agent that believed [i] when the turn began and has [c] among
    its connections. *)
Lemma view_spreader_turn_changed (sp c i : UUID) (s : World.tick) :
  idea_view i <$> (World.agents (World.tw (World.spreader_turn sp s)) !! c)
  ≠ idea_view i <$> (World.agents (World.tw s) !! c) →
  ∃ spreader, World.agents (World.tw s) !! sp = Some spreader
              ∧ i ∈ Agent.beliefs spreader
              ∧ c ∈ Agent.connections spreader.
Proof.
  intros Hch.
  destruct (World.agents (World.tw s) !! sp) as [spreader|] eqn:Hsp.
  - exists spreader. split; [done|].
    destruct (decide (i ∈ Agent.beliefs spreader)) as [Hi|Hi].
    + split; [done|].
      destruct (decide (c ∈ Agent.connections spreader)) as [Hc|Hc]; [done|].
      exfalso. apply Hch. by rewrite (agent_spreader_turn_other sp c s spreader).
    + exfalso. apply Hch. apply view_lookup.
      by apply (idea_view_spreader_turn sp i s spreader).
  - exfalso. apply Hch. unfold World.spreader_turn. by rewrite Hsp.
Qed.

Lemma spread_phase_snoc (l : list UUID) (x : UUID) (s : World.tick) :
  World.spread_phase (l ++ [x]) s
  = World.spreader_turn x (World.spread_phase l s).
Proof. unfold World.spread_phase. by rewrite fold_left_app. Qed.

Lemma spread_phase_app (l l' : list UUID) (s : World.tick) :
  World.spread_phase (l ++ l') s
  = World.spread_phase l' (World.spread_phase l s).
Proof. unfold World.spread_phase. by rewrite fold_left_app. Qed.

Lemma view_spread_phase_changed (order : list UUID) (c i : UUID)
    (s : World.tick) :
  idea_view i <$> (World.agents (World.tw (World.spread_phase order s)) !! c)
  ≠ idea_view i <$> (World.agents (World.tw s) !! c) →
  ∃ pre sp post spreader,
    order = pre ++ sp :: post
    ∧ World.agents (World.tw (World.spread_phase pre s)) !! sp = Some spreader
    ∧ i ∈ Agent.beliefs spreader
    ∧ c ∈ Agent.connections spreader.
Proof.
  induction order as [|x l IH] using rev_ind; [done|].
  rewrite spread_phase_snoc. intros Hch.
  destruct (decide (idea_view i <$> (World.agents
                      (World.tw (World.spread_phase l s)) !! c)
                    = idea_view i <$> (World.agents (World.tw s) !! c)))
    as [Heq|Hne].
  - rewrite <- Heq in Hch.
    apply view_spreader_turn_changed in Hch as (spreader & Hsp & Hi & Hc).
    by exists l, x, [], spreader.
  - destruct (IH Hne) as (pre & sp & post & spreader & -> & Hsp & Hi & Hc).
    exists pre, sp, (post ++ [x]), spreader.
    split; [by rewrite <- app_assoc|done].
Qed.

(** Forgetting keeps the exposure counts and adds no belief. *)
Lemma decay_phase_agents (s : World.tick) (c : UUID) :
  option_Forall2
    (λ a' a, Agent.idea_exposures a' = Agent.idea_exposures a
             ∧ Agent.beliefs a' ⊆ Agent.beliefs a)
    (World.agents (World.tw (World.decay_phase s)) !! c)
    (World.agents (World.tw s) !! c).
Proof.
  set (R := λ a' a : Agent.t,
         Agent.idea_exposures a' = Agent.idea_exposures a
         ∧ Agent.beliefs a' ⊆ Agent.beliefs a).
  assert (Hrefl : ∀ o : option Agent.t, option_Forall2 R o o).
  { intros [a|]; constructor. by split. }
  assert (Hbelief : ∀ s1 a j,
            option_Forall2 R (World.agents (World.tw s1) !! c)
              (World.agents (World.tw s) !! c) →
            option_Forall2 R
              (World.agents (World.tw (World.decay_belief a j s1)) !! c)
              (World.agents (World.tw s) !! c)).
  { intros s1 a j H1. unfold World.decay_belief.
    destruct (Env.random _) as [u e1]. destruct (Qltb u _); [|done].
    destruct (World.agents (World.tw s1) !! a) as [agent|] eqn:Ha; [|done].
    assert (Hf : R (Agent.forget_idea agent j).1 agent).
    { unfold Agent.forget_idea. case_bool_decide; split; cbn; try done.
      apply subseteq_difference_l. done. }
    destruct (Agent.forget_idea agent j) as [agent' forgotten]. cbn in *.
    destruct (decide (c = a)) as [->|Hne]; [|by rewrite lookup_insert_ne].
    rewrite lookup_insert_eq. rewrite Ha in H1.
    inversion H1 as [x y [Hx Hb] Hxe Hye|]; subst. constructor.
    destruct Hf as [Hfx Hfb]. split; [congruence|]. by etransitivity. }
  unfold World.decay_phase.
  apply (fold_left_preserves _
    (λ s', option_Forall2 R (World.agents (World.tw s') !! c)
             (World.agents (World.tw s) !! c))); [apply Hrefl|].
  intros s1 a H1. unfold World.decay_agent.
  destruct (World.agents (World.tw s1) !! a); [|done].
  apply (fold_left_preserves _
    (λ s', option_Forall2 R (World.agents (World.tw s') !! c)
             (World.agents (World.tw s) !! c))); [done|].
  intros s2 j H2. by apply Hbelief.
Qed.

Lemma run_step_agents_after (w : World.t) (e : Env.t) (c i : UUID) :
  World.status w = WorldStatus.RUNNING →
  let s1 := World.spread_phase (Env.shuffle (World.spreaders w) e).1
              (tick_start w e) in
  exposures_to (World.run_step w e).1.1 c i = exposures_to (World.tw s1) c i
  ∧ (believes (World.run_step w e).1.1 c i → believes (World.tw s1) c i).
Proof.
  intros Hr. unfold World.run_step, tick_start. case_decide; [done|].
  destruct (Env.shuffle _ e) as [order e1]. cbn [fst snd].
  set (s1 := World.spread_phase order _). cbv zeta.
  pose proof (finish_step_spec (World.tw (World.decay_phase s1))
                (World.te (World.decay_phase s1))) as (_ & _ & Hag & _).
  destruct (World.finish_step _ _) as [w' e']. cbn in Hag |- *.
  pose proof (decay_phase_agents s1 c) as Hd.
  unfold exposures_to, believes. rewrite Hag.
  inversion Hd as [a' a [Hx Hb] Ha' Ha|Ha' Ha].
  - rewrite Hx. split; [done|]. intros (x & [= <-] & Hin).
    exists a. split; [done|]. by apply Hb.
  - split; [done|]. intros (x & [=] & _).
Qed.

Lemma line_world_order :
  (Env.shuffle (World.spreaders line_world) (env_const 0)).1
  = [1%N] ++ 2%N :: [].
Proof. vm_compute. reflexivity. Qed.

Lemma line_world_orders_differ :
  (Env.shuffle (World.spreaders line_world) (env_const 0)).1
  ≠ (Env.shuffle (World.spreaders line_world) (env_first_draw 1)).1.
Proof. vm_compute. intros H. discriminate H. Qed.

(** C1 (as amended).  A spreader propagates the ideas it believes when its
    own turn of the tick begins, which includes what it adopted earlier in
    the same tick from spreaders shuffled before it.
    Only those: its turn changes nobody's exposure count or belief for any
    other idea, and every event the turn records carries its identifier and
    an idea of that belief set (parts 1 and 2).
    Only agents that held a belief when the tick began take a turn: every
    event a tick adds is sent by such an agent (part 3); and whenever a
    tick changes an agent's exposure count for an idea, or makes the agent
    believe it, some agent that held a belief when the tick began was
    reached in the shuffled order, believed that idea when its turn began,
    and has the agent among its connections (part 4).
    All of those: when the turn of a spreader begins, every connection that
    does not hold an idea the spreader believes at that moment (and the
    catalog has) is exposed to it exactly once during the turn, so that its
    exposure count is larger after the tick than before, whether the
    spreader believed the idea when the tick began or adopted it since
    (part 5).
    So the outcome depends on the shuffled order: for two environments
    whose raw draws agree after the first one, which is the draw the
    shuffle of two spreaders takes, an agent believes an idea after the
    tick under one and not under the other (part 6). *)
Theorem tick_spreads_turn_start_beliefs :
  (∀ (sp i : UUID) (s : World.tick) (spreader : Agent.t),
     World.agents (World.tw s) !! sp = Some spreader →
     i ∉ Agent.beliefs spreader →
     idea_view i <$> World.agents (World.tw (World.spreader_turn sp s))
     = idea_view i <$> World.agents (World.tw s))
  ∧ (∀ (sp : UUID) (s : World.tick) (spreader : Agent.t) (ev : SpreadEvent.t),
       World.agents (World.tw s) !! sp = Some spreader →
       ev ∈ World.recent_events (World.tw (World.spreader_turn sp s)) →
       ev ∈ World.recent_events (World.tw s)
       ∨ (SpreadEvent.from_agent_id ev = Agent.id spreader
          ∧ SpreadEvent.idea_id ev ∈ Agent.beliefs spreader))
  ∧ (∀ (w : World.t) (e : Env.t) (ev : SpreadEvent.t),
       World.status w = WorldStatus.RUNNING →
       ev ∈ World.recent_events (World.run_step w e).1.1 →
       ev ∈ World.recent_events w
       ∨ ∃ sp a, World.agents w !! sp = Some a ∧ Agent.beliefs a ≠ ∅
                 ∧ SpreadEvent.from_agent_id ev = Agent.id a)
  ∧ (∀ (w : World.t) (e : Env.t) (c i : UUID),
       World.status w = WorldStatus.RUNNING →
       exposures_to (World.run_step w e).1.1 c i ≠ exposures_to w c i
       ∨ (believes (World.run_step w e).1.1 c i ∧ ¬ believes w c i) →
       ∃ pre sp post spreader a0,
         (Env.shuffle (World.spreaders w) e).1 = pre ++ sp :: post
         ∧ World.agents (World.tw (World.spread_phase pre (tick_start w e)))
             !! sp = Some spreader
         ∧ i ∈ Agent.beliefs spreader
         ∧ c ∈ Agent.connections spreader
         ∧ World.agents w !! sp = Some a0
         ∧ Agent.beliefs a0 ≠ ∅)
  ∧ (∀ (w : World.t) (e : Env.t) (pre post : list UUID) (sp c i : UUID)
       (spreader receiver : Agent.t),
       World.status w = WorldStatus.RUNNING →
       (Env.shuffle (World.spreaders w) e).1 = pre ++ sp :: post →
       World.agents (World.tw (World.spread_phase pre (tick_start w e))) !! sp
       = Some spreader →
       i ∈ Agent.beliefs spreader →
       is_Some (World.ideas (World.tw (World.spread_phase pre (tick_start w e)))
                  !! i) →
       c ∈ Agent.connections spreader →
       World.agents (World.tw (World.spread_phase pre (tick_start w e))) !! c
       = Some receiver →
       i ∉ Agent.beliefs receiver →
       exposures_to
         (World.tw (World.spread_phase (pre ++ [sp]) (tick_start w e))) c i
       = (exposures_to
            (World.tw (World.spread_phase pre (tick_start w e))) c i + 1)%Z
       ∧ (exposures_to w c i < exposures_to (World.run_step w e).1.1 c i)%Z)
  ∧ (∃ (w : World.t) (e e' : Env.t) (c i : UUID),
       World.status w = WorldStatus.RUNNING
       ∧ (∀ n, Env.rnd e (S n) = Env.rnd e' (S n))
       ∧ (Env.shuffle (World.spreaders w) e).1
         ≠ (Env.shuffle (World.spreaders w) e').1
       ∧ believes (World.run_step w e).1.1 c i
       ∧ ¬ believes (World.run_step w e').1.1 c i).
Proof.
  split; [intros sp i s spreader; by apply idea_view_spreader_turn|].
  split; [exact events_spreader_turn|].
  split.
  { intros w e ev Hr. unfold World.run_step. case_decide; [done|].
    pose proof (shuffle_perm (World.spreaders w) e) as Hperm.
    destruct (Env.shuffle _ e) as [order e1]. cbn in Hperm.
    set (s1 := World.spread_phase order _).
    pose proof (events_finish_step (World.tw (World.decay_phase s1))
                  (World.te (World.decay_phase s1))) as Hfin.
    destruct (World.finish_step _ _) as [w' e']. cbn in Hfin |- *.
    rewrite Hfin, events_decay_phase. subst s1. intros Hin.
    apply events_spread_phase in Hin as [Hin|(sp & a & Hsp & Ha & Hf)];
      [by left|].
    right. cbn in Ha. rewrite Hperm in Hsp.
    apply elem_of_spreaders in Hsp as (a0 & Ha0 & Hb).
    exists sp, a. split; [done|]. split; [congruence|done]. }
  split.
  { intros w e c i Hr Hch.
    destruct (run_step_agents_after w e c i Hr) as [Hx Hb].
    assert (Hview : idea_view i <$> (World.agents (World.tw
                      (World.spread_phase (Env.shuffle (World.spreaders w) e).1
                         (tick_start w e))) !! c)
                    ≠ idea_view i <$> (World.agents
                                         (World.tw (tick_start w e)) !! c)).
    { intros Heq. apply exposures_to_view in Heq as [Heqx Heqb].
      destruct Hch as [Hne|[Hin Hni]].
      - apply Hne. by rewrite Hx, Heqx.
      - apply Hni. apply Heqb. by apply Hb. }
    apply view_spread_phase_changed in Hview
      as (pre & sp & post & spreader & Hord & Hsp & Hi & Hc).
    assert (Hin : sp ∈ World.spreaders w).
    { rewrite <- (shuffle_perm (World.spreaders w) e), Hord.
      apply elem_of_app. right. by left. }
    apply elem_of_spreaders in Hin as (a0 & Ha0 & Hb0).
    by exists pre, sp, post, spreader, a0. }
  split.
  { intros w e pre post sp c i spreader receiver Hr Hord Hsp Hi Hcat Hc Hrec Hni.
    rewrite spread_phase_snoc.
    pose proof (spreader_turn_exposes sp c i _ spreader receiver
                  Hsp Hi Hcat Hc Hrec Hni) as Hturn.
    split; [exact Hturn|].
    destruct (run_step_agents_after w e c i Hr) as [-> _].
    rewrite Hord.
    replace (pre ++ sp :: post) with ((pre ++ [sp]) ++ post)
      by (by rewrite <- app_assoc).
    rewrite spread_phase_app, spread_phase_snoc.
    pose proof (exposures_to_spread_phase_mono post c i
                  (World.spreader_turn sp
                     (World.spread_phase pre (tick_start w e)))) as Hpost.
    pose proof (exposures_to_spread_phase_mono pre c i (tick_start w e))
      as Hpre.
    change (World.tw (tick_start w e)) with w in Hpre. lia. }
  exists line_world, (env_const 0), (env_first_draw 1), 3%N, 10%N.
  split; [reflexivity|]. split; [by intros n|].
  split; [exact line_world_orders_differ|]. split.
  - eexists. split; [vm_compute; reflexivity|]. vm_compute. reflexivity.
  - intros (a & Ha & Hin). vm_compute in Ha. injection Ha as <-.
    vm_compute in Hin. discriminate Hin.
Qed.

(** In [line_world] with every draw equal to zero the shuffled order is
    agent 1, agent 2.  Agent 2 did not believe idea 10 when the tick began;
    it adopts it from agent 1 and, in the same tick, passes it on to
    agent 3. *)
Lemma run_step_spreads_fresh_adoption :
  let w' := (World.run_step line_world (env_const 0)).1.1 in
  (∃ a2, World.agents line_world !! 2%N = Some a2 ∧ 10%N ∉ Agent.beliefs a2)
  ∧ (∃ a3, World.agents line_world !! 3%N = Some a3 ∧ 10%N ∉ Agent.beliefs a3)
  ∧ (∃ ev, ev ∈ World.recent_events w'
           ∧ SpreadEvent.idea_id ev = 10%N
           ∧ SpreadEvent.from_agent_id ev = 2%N
           ∧ SpreadEvent.to_agent_id ev = 3%N
           ∧ SpreadEvent.accepted ev = true
           ∧ SpreadEvent.step ev = World.current_step line_world)
  ∧ (∃ a3, World.agents w' !! 3%N = Some a3 ∧ 10%N ∈ Agent.beliefs a3).
Proof.
  cbv zeta. split; [|split; [|split]].
  - eexists. split; [reflexivity|]. vm_compute. intros H. discriminate H.
  - eexists. split; [reflexivity|]. vm_compute. intros H. discriminate H.
  - eexists. split.
    + apply list_elem_of_In. vm_compute. right. left. reflexivity.
    + by vm_compute.
  - eexists. split; [vm_compute; reflexivity|]. vm_compute. reflexivity.
Qed.

(** With the other shuffled order (agent 2, agent 1; first draw 1) agent 3
    does not receive idea 10 in that tick. *)
Lemma run_step_other_order :
  ∃ a3, World.agents (World.run_step line_world (env_first_draw 1)).1.1 !! 3%N
        = Some a3
        ∧ 10%N ∉ Agent.beliefs a3.
Proof.
  eexists. split; [vm_compute; reflexivity|].
  vm_compute. intros H. discriminate H.
Qed.

(** In [line_world] with every draw equal to zero, agent 2 does not
    believe idea 10 when the tick begins, believes it when its turn begins
    (after the turn of agent 1), and its turn exposes agent 3 to it. *)
Lemma tick_spreads_turn_start_beliefs_witness :
  ¬ believes line_world 2%N 10%N
  ∧ exposures_to
      (World.tw (World.spread_phase ([1%N] ++ [2%N])
                   (tick_start line_world (env_const 0)))) 3%N 10%N
    = (exposures_to
         (World.tw (World.spread_phase [1%N]
                      (tick_start line_world (env_const 0)))) 3%N 10%N + 1)%Z
  ∧ (exposures_to line_world 3%N 10%N
     < exposures_to (World.run_step line_world (env_const 0)).1.1 3%N 10%N)%Z.
Proof.
  split.
  { intros (a & Ha & Hin). vm_compute in Ha. injection Ha as <-.
    vm_compute in Hin. discriminate Hin. }
  eapply (proj1 (proj2 (proj2 (proj2 (proj2 tick_spreads_turn_start_beliefs))))
            line_world (env_const 0) [1%N] [] 2%N 3%N 10%N).
  - reflexivity.
  - exact line_world_order.
  - vm_compute. reflexivity.
  - vm_compute. reflexivity.
  - eexists. vm_compute. reflexivity.
  - vm_compute. reflexivity.
  - vm_compute. reflexivity.
  - vm_compute. intros H. discriminate H.
Defined.

(** ** Connections mirror the graph *)

Lemma foldl_opt_preserves {S A} (f : S → A → option S) (P : S → Prop)
    (l : list A) (s s' : S) :
  P s → (∀ s1 x s2, x ∈ l → P s1 → f s1 x = Some s2 → P s2) →
  foldl_opt f l s = Some s' → P s'.
Proof.
  revert s. induction l as [|x l IH]; intros s Hs Hf; cbn.
  - intros [= <-]. exact Hs.
  - destruct (f s x) as [s1|] eqn:Hfx; [|done].
    apply IH.
    + eapply Hf; [left|exact Hs|exact Hfx].
    + intros s2 y s3 Hy. apply Hf. by right.
Qed.

Lemma elem_of_add_edge {V} `{Countable V} (g : Graph.t V) (a b u v : V) :
  (u, v) ∈ Graph.adj (Graph.add_edge g a b) ↔
  (u = a ∧ v = b) ∨ (u = b ∧ v = a) ∨ (u, v) ∈ Graph.adj g.
Proof.
  unfold Graph.add_edge. cbn.
  rewrite !elem_of_union, !elem_of_singleton. split.
  - intros [[[= -> ->]|[= -> ->]]|Hin]; auto.
  - intros [[-> ->]|[[-> ->]|Hin]]; auto.
Qed.

Lemma add_connection_id (a : Agent.t) (x : UUID) :
  Agent.id (Agent.add_connection a x) = Agent.id a.
Proof. unfold Agent.add_connection. by case_decide. Qed.

Lemma add_connection_other (a : Agent.t) (x : UUID) :
  x ≠ Agent.id a →
  Agent.connections (Agent.add_connection a x) = {[x]} ∪ Agent.connections a.
Proof. intros Hx. unfold Agent.add_connection. by case_decide. Qed.

(** What [connect] does when it does not raise. *)
Lemma connect_Some (ids : list UUID) (w w' : World.t) (i j : nat) :
  World.connect ids w (i, j) = Some w' →
  ∃ ui uj ai aj,
    ids !! i = Some ui ∧ ids !! j = Some uj
    ∧ World.agents w !! ui = Some ai
    ∧ (<[ui := Agent.add_connection ai uj]> (World.agents w)) !! uj = Some aj
    ∧ World.agents w'
      = <[uj := Agent.add_connection aj ui]>
          (<[ui := Agent.add_connection ai uj]> (World.agents w))
    ∧ World.network w' = Graph.add_edge (World.network w) ui uj.
Proof.
  unfold World.connect. cbn.
  destruct (ids !! i) as [ui|]; [|done]. cbn.
  destruct (ids !! j) as [uj|]; [|done]. cbn.
  destruct (World.agents w !! ui) as [ai|] eqn:Hai; [|done]. cbn.
  destruct (<[ui:=_]> (World.agents w) !! uj) as [aj|] eqn:Haj; [|done]. cbn.
  intros [= <-]. exists ui, uj, ai, aj. by repeat split.
Qed.

Lemma connect_sound (ids : list UUID) (w w' : World.t) (i j : nat) :
  NoDup ids → i ≠ j →
  keyed_by_id w → connections_sound w →
  World.connect ids w (i, j) = Some w' →
  keyed_by_id w' ∧ connections_sound w'.
Proof.
  intros Hnd Hij Hkey [Hedge Hself] Hc.
  apply connect_Some in Hc
    as (ui & uj & ai & aj & Hi & Hj & Hai & Haj & Hag & Hnet).
  assert (Hne : ui ≠ uj).
  { intros ->. apply Hij. by eapply NoDup_lookup. }
  rewrite lookup_insert_ne in Haj by done.
  pose proof (Hkey _ _ Hai) as Hidi. pose proof (Hkey _ _ Haj) as Hidj.
  assert (Hci : Agent.connections (Agent.add_connection ai uj)
                = {[uj]} ∪ Agent.connections ai).
  { apply add_connection_other. congruence. }
  assert (Hcj : Agent.connections (Agent.add_connection aj ui)
                = {[ui]} ∪ Agent.connections aj).
  { apply add_connection_other. congruence. }
  (* every agent keeps its identifier and its former connections *)
  assert (Hkeep : ∀ k a, World.agents w !! k = Some a →
            ∃ a', World.agents w' !! k = Some a' ∧ Agent.id a' = Agent.id a
                  ∧ Agent.connections a ⊆ Agent.connections a').
  { intros k a Hk. rewrite Hag.
    destruct (decide (k = uj)) as [->|Hkj].
    - rewrite lookup_insert_eq. eexists. split; [done|].
      assert (a = aj) as -> by congruence.
      rewrite add_connection_id, Hcj. split; [done|].
      apply union_subseteq_r.
    - rewrite lookup_insert_ne by done.
      destruct (decide (k = ui)) as [->|Hki].
      + rewrite lookup_insert_eq. eexists. split; [done|].
        assert (a = ai) as -> by congruence.
        rewrite add_connection_id, Hci. split; [done|].
        apply union_subseteq_r.
      + rewrite lookup_insert_ne by done. by exists a. }
  split; [|split].
  - intros k a'. rewrite Hag.
    destruct (decide (k = uj)) as [->|Hkj].
    { rewrite lookup_insert_eq. intros [= <-]. by rewrite add_connection_id. }
    rewrite lookup_insert_ne by done.
    destruct (decide (k = ui)) as [->|Hki].
    { rewrite lookup_insert_eq. intros [= <-]. by rewrite add_connection_id. }
    rewrite lookup_insert_ne by done. apply Hkey.
  - intros u v. unfold Graph.has_edge. rewrite Hnet, elem_of_add_edge.
    assert (Hnew : ∃ au av, World.agents w' !! ui = Some au
                     ∧ World.agents w' !! uj = Some av
                     ∧ uj ∈ Agent.connections au ∧ ui ∈ Agent.connections av).
    { exists (Agent.add_connection ai uj), (Agent.add_connection aj ui).
      rewrite Hag. rewrite lookup_insert_ne by done.
      rewrite !lookup_insert_eq. rewrite Hci, Hcj.
      repeat split; apply elem_of_union_l, elem_of_singleton_2; reflexivity. }
    intros [[-> ->]|[[-> ->]|Hold]].
    + exact Hnew.
    + destruct Hnew as (au & av & ? & ? & ? & ?). by exists av, au.
    + destruct (Hedge u v Hold) as (au & av & Hu & Hv & Hvu & Huv).
      destruct (Hkeep _ _ Hu) as (au' & Hu' & _ & Hsu).
      destruct (Hkeep _ _ Hv) as (av' & Hv' & _ & Hsv).
      exists au', av'. repeat split; [done|done|by apply Hsu|by apply Hsv].
  - intros k a'. rewrite Hag.
    destruct (decide (k = uj)) as [->|Hkj].
    { rewrite lookup_insert_eq. intros [= <-].
      rewrite add_connection_id, Hcj, Hidj.
      rewrite elem_of_union, elem_of_singleton. intros [Heq|Hin]; [done|].
      apply (Hself _ _ Haj). by rewrite Hidj. }
    rewrite lookup_insert_ne by done.
    destruct (decide (k = ui)) as [->|Hki].
    { rewrite lookup_insert_eq. intros [= <-].
      rewrite add_connection_id, Hci, Hidi.
      rewrite elem_of_union, elem_of_singleton. intros [Heq|Hin]; [done|].
      apply (Hself _ _ Hai). by rewrite Hidi. }
    rewrite lookup_insert_ne by done. apply Hself.
Qed.

Lemma loop_free_add_edge (g : Graph.t nat) (i j : nat) :
  i ≠ j → loop_free g → loop_free (Graph.add_edge g i j).
Proof.
  intros Hij Hg u v Hin.
  apply elem_of_add_edge in Hin as [[-> ->]|[[-> ->]|Hin]];
    [done|by apply not_eq_sym|by apply Hg].
Qed.

(** GEO_LOCAL never links an agent to itself: the candidate [j] is only
    used under the guard [i != j]. *)
Lemma geo_candidate_loop_free (w : World.t) (ids : list UUID) (n i : nat)
    (agent_i : Agent.t) (st st' : Graph.t nat * Env.t) :
  loop_free st.1 →
  World.geo_candidate w ids n i agent_i st = Some st' →
  loop_free st'.1.
Proof.
  destruct st as [g e]. intros Hg. unfold World.geo_candidate.
  destruct (Env.randint _ _ e) as [j e1].
  case_decide as Hij; [|by intros [= <-]].
  destruct (ids !! Z.to_nat j) as [uj|]; [|done]. cbn.
  destruct (World.agents w !! uj) as [aj|]; [|done]. cbn.
  destruct (Env.random e1) as [u e2].
  case_decide; case_match; intros [= <-]; cbn;
    try done; by apply loop_free_add_edge.
Qed.

Lemma geo_local_graph_loop_free (w : World.t) (ids : list UUID) (e e' : Env.t)
    (g : Graph.t nat) :
  World.geo_local_graph w ids e = Some (g, e') → loop_free g.
Proof.
  unfold World.geo_local_graph. intros Hfold.
  apply (foldl_opt_preserves _ (λ st, loop_free st.1) _ _ _) in Hfold;
    [done| |].
  - intros i j Hin. cbn in Hin. by apply not_elem_of_empty in Hin.
  - intros st i st' _ Hst. unfold World.geo_agent.
    destruct (ids !! i) as [ui|]; [|done]. cbn.
    destruct (World.agents w !! ui) as [ai|]; [|done]. cbn.
    intros Hinner.
    apply (foldl_opt_preserves _ (λ st, loop_free st.1) _ _ _) in Hinner;
      [done|done|].
    intros s1 x s2 _ Hs1 Hcand. by eapply geo_candidate_loop_free.
Qed.

Lemma elem_of_edges {V} `{Countable V} (g : Graph.t V) (p : V * V) :
  p ∈ Graph.edges g → p ∈ Graph.adj g.
Proof.
  unfold Graph.edges. intros Hin.
  apply list_elem_of_filter in Hin as [_ Hin]. by apply elem_of_elements.
Qed.

Lemma agent_keys_NoDup (w : World.t) : NoDup (World.agent_keys w).
Proof. apply NoDup_fst_map_to_list. Qed.

(** Mirroring a loop-free temporary graph keeps the connections sound. *)
Lemma connect_all_sound (ids : list UUID) (edges : list (nat * nat))
    (w w' : World.t) :
  NoDup ids → (∀ i j, (i, j) ∈ edges → i ≠ j) →
  keyed_by_id w → connections_sound w →
  foldl_opt (World.connect ids) edges w = Some w' →
  keyed_by_id w' ∧ connections_sound w'.
Proof.
  intros Hnd Hloop Hkey Hsound Hfold.
  apply (foldl_opt_preserves _ (λ w1, keyed_by_id w1 ∧ connections_sound w1)
           _ _ _) in Hfold; [done|done|].
  intros w1 [i j] w2 Hin [Hk Hs] Hc.
  eapply connect_sound; [exact Hnd|by apply Hloop|exact Hk|exact Hs|exact Hc].
Qed.

Lemma create_network_sound (nx : NetworkX.t) (w w' : World.t) (e e' : Env.t) :
  generators_loop_free nx →
  keyed_by_id w → connections_sound w →
  World._create_network nx w e = Some (w', e') →
  keyed_by_id w' ∧ connections_sound w'.
Proof.
  intros (Hba & Hws & Her) Hkey Hsound. unfold World._create_network.
  set (ids := World.agent_keys w).
  destruct (match WorldConfig.network_type (World.config w) with
            | NetworkType.SCALE_FREE => _ | _ => _ end)
    as [[temp_graph e1]|] eqn:Htemp; [|done]. cbn.
  assert (Hloop : loop_free temp_graph).
  { destruct (WorldConfig.network_type (World.config w)).
    - by eapply Hba.
    - by eapply Hws.
    - by eapply Her.
    - by eapply geo_local_graph_loop_free. }
  destruct (foldl_opt _ _ w) as [w1|] eqn:Hfold; [|done]. cbn.
  intros [= <- <-].
  eapply connect_all_sound; [apply agent_keys_NoDup| |done|done|exact Hfold].
  intros i j Hin. apply Hloop. by apply elem_of_edges in Hin.
Qed.

Lemma blank_sound (w : World.t) :
  blank w → keyed_by_id w ∧ connections_sound w.
Proof.
  intros (Hkey & Hadj & Hconn). split; [done|]. split.
  - intros u v. unfold Graph.has_edge. rewrite Hadj.
    intros Hin. by apply not_elem_of_empty in Hin.
  - intros k a Hk. rewrite (Hconn _ _ Hk). apply not_elem_of_empty.
Qed.

Lemma create_agent_blank (st st' : World.t * Env.t) :
  blank st.1 → World.create_agent st = Some st' → blank st'.1.
Proof.
  destruct st as [w e]. intros (Hkey & Hadj & Hconn). unfold World.create_agent.
  destruct (Env.choices _ _ e) as [[region e1]|]; [|done].
  cbn [mbind option_bind].
  destruct (AgentProfile.random region e1) as [[profile e2]|]; [|done].
  cbn [mbind option_bind].
  destruct (Env.uuid4 e2) as [agent_id e3]. intros [= <-]. cbn.
  split; [|split].
  - intros k a. cbn. destruct (decide (k = agent_id)) as [->|Hne].
    + rewrite lookup_insert_eq. by intros [= <-].
    + rewrite lookup_insert_ne by done. apply Hkey.
  - exact Hadj.
  - intros k a. cbn. destruct (decide (k = agent_id)) as [->|Hne].
    + rewrite lookup_insert_eq. by intros [= <-].
    + rewrite lookup_insert_ne by done. apply Hconn.
Qed.

(** Population and graph built on a world without agents and edges. *)
Lemma initialize_population_sound (nx : NetworkX.t) (w w' : World.t)
    (e e' : Env.t) :
  generators_loop_free nx →
  World.agents w = ∅ → Graph.adj (World.network w) = ∅ →
  World.initialize_population nx w e = Some (w', e') →
  connections_sound w'.
Proof.
  intros Hnx Hag Hadj. unfold World.initialize_population.
  destruct (foldl_opt _ _ (w, e)) as [[w1 e1]|] eqn:Hfold; [|done]. cbn.
  apply (foldl_opt_preserves _ (λ st, blank st.1) _ _ _) in Hfold.
  - intros Hnet. apply blank_sound in Hfold as [Hk Hs].
    by destruct (create_network_sound nx w1 w' e1 e' Hnx Hk Hs Hnet).
  - cbn. split; [|split; [done|]]; intros k a; by rewrite Hag, lookup_empty.
  - intros st _ st' _ Hb Hc. by eapply create_agent_blank.
Qed.

Lemma static_transfer (m m' : gmap UUID Agent.t) (k : UUID) (a : Agent.t) :
  static <$> m' = static <$> m → m !! k = Some a →
  ∃ a', m' !! k = Some a' ∧ static a' = static a.
Proof.
  intros Hag Hk.
  assert (Hl : (static <$> m') !! k = Some (static a)).
  { rewrite Hag, lookup_fmap, Hk. done. }
  rewrite lookup_fmap in Hl.
  destruct (m' !! k) as [a'|]; cbn in Hl; [|discriminate Hl].
  exists a'. split; [done|congruence].
Qed.

(** A tick writes neither the graph nor any agent's connections. *)
Lemma run_step_sound (w : World.t) (e : Env.t) :
  connections_sound w → connections_sound (World.run_step w e).1.1.
Proof.
  intros [Hedge Hself].
  destruct (decide (World.status w = WorldStatus.RUNNING)) as [Hr|Hr];
    [|by rewrite run_step_not_running].
  pose proof (run_step_running w e Hr) as (_ & Hnet & Hag & _ & _).
  destruct (World.run_step w e) as [[w' r] e']. cbn in *. split.
  - intros u v. rewrite Hnet. intros Huv.
    destruct (Hedge u v Huv) as (au & av & Hu & Hv & Hvu & Huv').
    destruct (static_transfer _ _ _ _ Hag Hu) as (au' & Hu' & Hsu).
    destruct (static_transfer _ _ _ _ Hag Hv) as (av' & Hv' & Hsv).
    exists au', av'. unfold static in Hsu, Hsv.
    injection Hsu as _ _ _ Hcu. injection Hsv as _ _ _ Hcv.
    repeat split; [done|done|by rewrite Hcu|by rewrite Hcv].
  - intros k a' Hk.
    destruct (static_transfer _ _ _ _ (eq_sym Hag) Hk) as (a & Ha & Hs).
    unfold static in Hs. injection Hs as Hid _ _ Hc.
    rewrite <- Hid, <- Hc. by eapply Hself.
Qed.

(** C9.  After the population and the graph are built, and after every
    tick that follows, for every edge (u, v) of the world's graph v is in
    u's connections and u is in v's, and no agent is in its own
    connections: for SCALE_FREE, SMALL_WORLD and RANDOM given that the
    library's generators return graphs without self-loops, for GEO_LOCAL by
    the guard [i != j] of the engine's own loop. *)
Theorem connections_mirror_graph (nx : NetworkX.t) :
  generators_loop_free nx →
  (∀ (id creator_id : UUID) (name description : pystr)
      (config : WorldConfig.t) (is_public : bool) (e : Env.t)
      (w' : World.t) (e' : Env.t),
     World.initialize_population nx
       (World.new id creator_id name config description is_public e).1
       (World.new id creator_id name config description is_public e).2
     = Some (w', e') →
     connections_sound w')
  ∧ (∀ (w : World.t) (e : Env.t),
       connections_sound w → connections_sound (World.run_step w e).1.1).
Proof.
  intros Hnx. split; [|exact run_step_sound].
  intros id creator_id name description config is_public e w' e' Hinit.
  eapply initialize_population_sound; [exact Hnx| | |exact Hinit].
  - unfold World.new. by destruct (Env.utcnow e).
  - unfold World.new. by destruct (Env.utcnow e).
Qed.

(** The stand-in generators meet the library's property. *)
Lemma one_edge_generators_loop_free : generators_loop_free one_edge_generators.
Proof.
  assert (H : ∀ n, loop_free (one_edge_graph n)).
  { intros n i j Hin. unfold one_edge_graph in Hin.
    apply elem_of_add_edge in Hin as [[-> ->]|[[-> ->]|Hin]]; [done|done|].
    cbn in Hin. by apply not_elem_of_empty in Hin. }
  repeat split; cbn; intros; simplify_eq; apply H.
Qed.

(** The sample GEO_LOCAL build succeeds. *)
Lemma geo_build_result :
  World.initialize_population one_edge_generators
    (World.new 1%N 2%N (py "geo") geo_config [] true (env_const 0)).1
    (World.new 1%N 2%N (py "geo") geo_config [] true (env_const 0)).2
  = Some (geo_world, geo_env).
Proof. vm_compute. reflexivity. Qed.

(** The built world has three agents and two edges (four ordered pairs),
    and its connections mirror them. *)
Lemma connections_mirror_graph_witness :
  size (World.agents geo_world) = 3%nat
  ∧ size (Graph.adj (World.network geo_world)) = 4%nat
  ∧ connections_sound geo_world.
Proof.
  split; [vm_compute; reflexivity|].
  split; [vm_compute; reflexivity|].
  exact (proj1 (connections_mirror_graph one_edge_generators
                  one_edge_generators_loop_free)
           1%N 2%N (py "geo") [] geo_config true (env_const 0)
           geo_world geo_env geo_build_result).
Defined.

(** ** Serialisation round trips *)

Lemma unpy_py (s : string) : unpy (py s) = s.
Proof.
  unfold unpy, py. rewrite map_map.
  rewrite (map_ext _ (λ a, a)) by apply ascii_N_embedding.
  rewrite map_id. apply string_of_list_ascii_of_string.
Qed.

Lemma uuid_parse_str (u : UUID) : uuid_parse (uuid_str u) = u.
Proof.
  unfold uuid_parse, uuid_str. rewrite unpy_py. apply HexString.to_N_of_N.
Qed.

Lemma fromisoformat_isoformat (d : datetime) : fromisoformat (isoformat d) = d.
Proof.
  unfold fromisoformat, isoformat. rewrite unpy_py. apply HexString.to_N_of_N.
Qed.

(** The printed form of an identifier or a timestamp is never empty. *)
Lemma truthy_of_uuid (u : UUID) : Value.truthy (Value.of_uuid u) = true.
Proof. by destruct u. Qed.

Lemma truthy_isoformat (d : datetime) :
  Value.truthy (Value.VStr (isoformat d)) = true.
Proof. by destruct d. Qed.

Lemma truthy_mutation_type (m : MutationType.t) :
  Value.truthy (Value.VStr (MutationType.value m)) = true.
Proof. by destruct m. Qed.

Lemma of_value_value (m : MutationType.t) :
  MutationType.of_value (MutationType.value m) = Some m.
Proof. by destruct m. Qed.

Lemma as_uuid_of_uuid (u : UUID) : Value.as_uuid (Value.of_uuid u) = Some u.
Proof. unfold Value.as_uuid, Value.of_uuid. cbn. by rewrite uuid_parse_str. Qed.

Lemma as_str_list_of_str_list (l : list pystr) :
  Value.as_str_list (Value.of_str_list l) = Some l.
Proof.
  unfold Value.as_str_list, Value.of_str_list. cbn. by apply mapM_fmap_Some.
Qed.

Lemma as_uuid_list_of_uuids (l : list UUID) :
  Value.as_uuid_list (Value.VList (Value.of_uuid <$> l)) = Some l.
Proof.
  unfold Value.as_uuid_list. cbn. apply mapM_fmap_Some, as_uuid_of_uuid.
Qed.

(** Reading the dictionaries built by [to_dict]: key lookups compute, the
    conversions are rewritten by the lemmas above. *)
Ltac read_dict :=
  cbn [Value.getitem Value.get Value.lookup Value.if_set Value.as_str
       Value.as_int Value.as_float
       Idea.id Idea.creator_id Idea.world_id Idea.text Idea.tags
       Idea.media_refs Idea.target Idea.virality_score Idea.emotional_valence
       Idea.complexity Idea.parent_id Idea.mutation_type Idea.generation
       Idea.mutation_count Idea.mutation_budget Idea.embedding_id
       Idea.adopter_count Idea.reach Idea.rejection_count Idea.created_at
       Idea.as_optional_str
       IdeaTarget.age_groups IdeaTarget.interests IdeaTarget.regions
       Agent.id Agent.world_id Agent.profile Agent.state Agent.connections
       Agent.beliefs
       AgentProfile.age_group AgentProfile.interests AgentProfile.region
       AgentProfile.trust_threshold AgentProfile.openness
       AgentProfile.influence
       AgentState.mood AgentState.susceptibility AgentState.last_active_step
       AgentState.exposure_count AgentState.adoption_count
       String.eqb Ascii.eqb Bool.eqb mbind option_bind];
  rewrite ?truthy_of_uuid, ?truthy_isoformat, ?truthy_mutation_type,
    ?as_uuid_of_uuid, ?as_str_list_of_str_list, ?as_uuid_list_of_uuids,
    ?of_value_value, ?fromisoformat_isoformat;
  cbn [mbind option_bind Value.truthy].

Lemma idea_round_trip (i : Idea.t) (e : Env.t) :
  Idea.from_dict (Idea.to_dict i) e = Some (i, e).
Proof.
  destruct i as [id cid wid text tags media [ag ints regs] v ev c pid mt gen
                 mc mb emb ac reach rc created].
  unfold Idea.from_dict, Idea.to_dict, Value.if_set.
  destruct pid as [pid|], mt as [mt|], emb as [emb|];
    repeat read_dict; reflexivity.
Qed.

Lemma agent_round_trip (a : Agent.t) :
  Agent.from_dict (Agent.to_dict a) = Some (serialised_part a).
Proof.
  destruct a as [id wid [ag ints reg tt op inf] [mood sus las ec ac] conns
                 bel exps mem].
  unfold Agent.from_dict, Agent.to_dict, serialised_part.
  repeat read_dict.
  unfold Agent.set_beliefs, Agent.set_connections, Agent.new. cbn.
  by rewrite !list_to_set_elements_L.
Qed.

(** C5 (as amended).  For every Idea, [from_dict] after [to_dict] gives the
    idea back, every field equal.  For every Agent it gives back the
    agent's identifier, world, profile, state, connections and beliefs; the
    per-idea exposure counts and the memory references are not written by
    [to_dict] and come back empty, so the round trip is the identity on the
    agents that have none. *)
Theorem to_dict_from_dict :
  (∀ (i : Idea.t) (e : Env.t),
     Idea.from_dict (Idea.to_dict i) e = Some (i, e))
  ∧ (∀ a : Agent.t,
       Agent.from_dict (Agent.to_dict a) = Some (serialised_part a))
  ∧ (∀ a : Agent.t,
       Agent.idea_exposures a = ∅ → Agent.memory_refs a = [] →
       Agent.from_dict (Agent.to_dict a) = Some a).
Proof.
  split; [exact idea_round_trip|]. split; [exact agent_round_trip|].
  intros a Hexp Hmem. rewrite agent_round_trip. f_equal.
  destruct a. cbn in *. by subst.
Qed.

(** Agent 2 of [line_world] has no exposure count and no memory reference:
    it comes back as it was. *)
Lemma to_dict_from_dict_witness :
  Agent.from_dict (Agent.to_dict (line_agent 2%N {[1%N; 3%N]} {[11%N]}))
  = Some (line_agent 2%N {[1%N; 3%N]} {[11%N]}).
Proof.
  apply (proj2 (proj2 to_dict_from_dict)); reflexivity.
Defined.

(** The exposed agent has exposure count 1 for idea 10 before the round
    trip and none after it, while its state still counts one exposure. *)
Lemma agent_round_trip_loses_exposures :
  ∃ a', Agent.from_dict (Agent.to_dict exposed_agent) = Some a'
        ∧ Agent.idea_exposures exposed_agent !! 10%N = Some 1%Z
        ∧ Agent.idea_exposures a' !! 10%N = None
        ∧ AgentState.exposure_count (Agent.state a') = 1%Z.
Proof.
  exists (serialised_part exposed_agent).
  split; [apply agent_round_trip|]. by vm_compute.
Qed.

(** ** The mutation budget across a tick *)

Lemma budgets_kept_record_event (w : World.t) (ev : SpreadEvent.t) :
  budgets_kept w → budgets_kept (World._record_event w ev).
Proof. unfold World._record_event. by case_match. Qed.

Lemma budgets_kept_trigger_mutation (w : World.t) (idea_id : UUID)
    (e : Env.t) :
  budgets_kept w → budgets_kept (World._trigger_mutation w idea_id e).1.1.
Proof.
  intros Hw. unfold World._trigger_mutation.
  destruct (World.ideas w !! idea_id) as [idea|] eqn:Hi; [|done].
  destruct (negb (Idea.can_mutate idea)); [done|].
  destruct (Env.choice _ _ _) as [kind e1].
  destruct (World.mutation_changes _ _ _) as [[[txt dv] de] e2].
  pose proof (create_mutation_cases idea kind txt dv de e2) as Hcm.
  pose proof (Hw _ _ Hi) as [Hlo Hhi].
  destruct (Idea.create_mutation _ _ _ _ _ _) as [[idea' [[msg]|mutant]] e3].
  - destruct Hcm as (_ & -> & _). cbn. unfold budgets_kept. cbn.
    by apply map_Forall_insert_2.
  - destruct Hcm as (Hlt & -> & Hle & _ & _ & _ & _ & _ & _ & _ & _ & _ & _
                     & _ & Hb & Hc).
    cbn. unfold budgets_kept. cbn.
    apply map_Forall_insert_2; [unfold within_budget; lia|].
    apply map_Forall_insert_2; [|done].
    unfold within_budget. cbn in *. lia.
Qed.

Lemma budgets_kept_spread_to (sp i c : UUID) (s : World.tick) :
  budgets_kept (World.tw s) →
  budgets_kept (World.tw (World.spread_to sp i c s)).
Proof.
  intros Hw. unfold World.spread_to.
  destruct (World.agents (World.tw s) !! sp) as [spreader|]; [|done].
  destruct (World.ideas (World.tw s) !! i) as [idea|] eqn:Hi; [|done].
  destruct (World.agents (World.tw s) !! c) as [receiver|]; [|done].
  destruct (Agent.has_idea receiver i); [done|].
  pose proof (Hw _ _ Hi) as Hidea.
  destruct (Env.random (World.te s)) as [u e1].
  destruct (Qltb u _).
  - destruct (Env.utcnow e1) as [now e2].
    set (w1 := World.set_totals _ _ _).
    assert (Hw1 : budgets_kept w1).
    { subst w1. unfold budgets_kept. cbn. by apply map_Forall_insert_2. }
    set (ev := SpreadEvent.mk _ _ _ _ _ _ _).
    pose proof (budgets_kept_record_event w1 ev Hw1) as Hw2.
    destruct (Idea.can_mutate _); [|done].
    destruct (Env.random e2) as [u' e3].
    destruct (Qltb u' _); [|done].
    pose proof (budgets_kept_trigger_mutation _ i e3 Hw2) as Hw3.
    by destruct (World._trigger_mutation _ _ _) as [[w3 [mutant|]] e4].
  - cbn. unfold budgets_kept. cbn. by apply map_Forall_insert_2.
Qed.

Lemma ideas_decay_phase (s : World.tick) :
  World.ideas (World.tw (World.decay_phase s)) = World.ideas (World.tw s).
Proof.
  unfold World.decay_phase.
  apply (fold_left_preserves _
    (λ s', World.ideas (World.tw s') = World.ideas (World.tw s))); [done|].
  intros s1 a <-. unfold World.decay_agent.
  destruct (World.agents (World.tw s1) !! a); [|done].
  apply (fold_left_preserves _
    (λ s', World.ideas (World.tw s') = World.ideas (World.tw s1))); [done|].
  intros s2 i <-. unfold World.decay_belief.
  destruct (Env.random _) as [u e1]. destruct (Qltb u _); [|done].
  destruct (World.agents (World.tw s2) !! a) as [agent|]; [|done].
  by destruct (Agent.forget_idea agent i).
Qed.

Lemma ideas_finish_step (w : World.t) (e : Env.t) :
  World.ideas (World.finish_step w e).1 = World.ideas w.
Proof.
  unfold World.finish_step. destruct (World.max_steps_reached _); [|done].
  by destruct (Env.utcnow e).
Qed.

Lemma run_step_budgets_kept (w : World.t) (e : Env.t) :
  budgets_kept w → budgets_kept (World.run_step w e).1.1.
Proof.
  intros Hw. unfold World.run_step. case_decide; [done|].
  destruct (Env.shuffle _ e) as [order e1].
  set (s1 := World.spread_phase order _).
  assert (Hs1 : budgets_kept (World.tw s1)).
  { subst s1. unfold World.spread_phase.
    apply (fold_left_preserves _ (λ s', budgets_kept (World.tw s'))); [done|].
    intros s' sp Hs'. unfold World.spreader_turn.
    destruct (World.agents (World.tw s') !! sp) as [spreader|]; [|done].
    apply (fold_left_preserves _ (λ s', budgets_kept (World.tw s'))); [done|].
    intros s2 i Hs2. unfold World.spread_idea.
    destruct (World.ideas (World.tw s2) !! i); [|done].
    destruct (World.agents (World.tw s2) !! sp) as [spreader'|]; [|done].
    apply (fold_left_preserves _ (λ s', budgets_kept (World.tw s'))); [done|].
    intros s3 c Hs3. by apply budgets_kept_spread_to. }
  pose proof (ideas_finish_step (World.tw (World.decay_phase s1))
                (World.te (World.decay_phase s1))) as Hfin.
  destruct (World.finish_step _ _) as [w' e']. cbn in Hfin |- *.
  unfold budgets_kept. rewrite Hfin, ideas_decay_phase. exact Hs1.
Qed.

Lemma create_mutation_fresh (self : Idea.t) (kind : MutationType.t)
    (new_text : pystr) (dv de : Q) (e : Env.t) (used : gset UUID) :
  uuid4_fresh used e → Idea.id self ∈ used →
  match Idea.create_mutation self kind new_text dv de e with
  | (parent', inl _, e') => parent' = self ∧ e' = e
  | (parent', inr mutant, e') =>
      (Idea.id mutant ∉ used)
      ∧ Idea.id mutant ≠ Idea.id parent'
      ∧ Idea.id parent' = Idea.id self
      ∧ uuid4_fresh ({[Idea.id mutant]} ∪ used) e'
  end.
Proof.
  intros [Hused Hinj] Hself.
  unfold Idea.create_mutation. destruct (negb (Idea.can_mutate self)); [done|].
  cbn. assert (Hnew : Env.uuids e (Env.uuid_pos e) ∉ used) by (by apply Hused).
  split; [done|]. split; [by intros Heq; rewrite Heq in Hnew|].
  split; [done|]. split; cbn.
  - intros n Hn [Heq%elem_of_singleton|Hin]%elem_of_union.
    + by apply (Hinj (Env.uuid_pos e) n); [lia|].
    + apply (Hused n); [lia|done].
  - intros m n Hmn. apply Hinj. lia.
Qed.

Lemma env_const_fresh (r : N) (used : gset UUID) :
  (∀ u, u ∈ used → (u < 1000)%N) → uuid4_fresh used (env_const r).
Proof.
  intros Hlow. split; cbn.
  - intros n _ Hin. apply Hlow in Hin. lia.
  - intros m n Hmn. lia.
Qed.

Lemma mutating_world_budgets : budgets_kept mutating_world.
Proof.
  unfold budgets_kept, mutating_world. cbn.
  apply map_Forall_insert_2; [by vm_compute|].
  apply map_Forall_insert_2; [by vm_compute|].
  apply map_Forall_empty.
Qed.

(** C8.  [create_mutation] raises (the [ValueError] of an exhausted budget)
    exactly when [mutation_count >= mutation_budget], and then leaves the
    parent and the environment as they were; otherwise the parent's
    [mutation_count] is one more than before, every other field of the
    parent is as before, and the result is a new idea with
    [generation = parent.generation + 1], [parent_id = parent.id],
    virality and emotional valence clamped to [0,1] after the changes, and
    the parent's tags, media references, target, complexity and budget
    (parts 1 and 2).
    Its identifier is the next result of [uuid4]; when [uuid4] returns no
    identifier in use and none twice, the mutant's identifier is not in
    use, differs from the parent's, and [uuid4] will not return it again
    (part 3).
    Consequently [0 <= mutation_count <= mutation_budget] is kept: by the
    call for the parent, it holds for the mutant (part 4), and every tick
    keeps it for every idea of the catalog (part 5). *)
Theorem create_mutation_spec :
  (∀ (self : Idea.t) (kind : MutationType.t) (new_text : pystr) (dv de : Q)
      (e : Env.t),
     match Idea.create_mutation self kind new_text dv de e with
     | (parent', inl (ValueError _), e') =>
         (Idea.mutation_budget self <= Idea.mutation_count self)%Z
         ∧ parent' = self ∧ e' = e
     | (parent', inr mutant, e') =>
         (Idea.mutation_count self < Idea.mutation_budget self)%Z
         ∧ parent' = Idea.set_mutation_count (Idea.mutation_count self + 1) self
         ∧ (Idea.mutation_count parent' <= Idea.mutation_budget parent')%Z
         ∧ Idea.id mutant = (Env.uuid4 e).1
         ∧ Idea.generation mutant = (Idea.generation self + 1)%Z
         ∧ Idea.parent_id mutant = Some (Idea.id self)
         ∧ Idea.mutation_type mutant = Some kind
         ∧ Idea.text mutant = new_text
         ∧ Idea.virality_score mutant = clamp01 (Idea.virality_score self + dv)
         ∧ Idea.emotional_valence mutant
           = clamp01 (Idea.emotional_valence self + de)
         ∧ Idea.tags mutant = Idea.tags self
         ∧ Idea.media_refs mutant = Idea.media_refs self
         ∧ Idea.target mutant = Idea.target self
         ∧ Idea.complexity mutant = Idea.complexity self
         ∧ Idea.mutation_budget mutant = Idea.mutation_budget self
         ∧ Idea.mutation_count mutant = 0%Z
         ∧ Idea.mutation_count parent' = (Idea.mutation_count self + 1)%Z
         ∧ parent'
           = Idea.mk (Idea.id self) (Idea.creator_id self) (Idea.world_id self)
               (Idea.text self) (Idea.tags self) (Idea.media_refs self)
               (Idea.target self) (Idea.virality_score self)
               (Idea.emotional_valence self) (Idea.complexity self)
               (Idea.parent_id self) (Idea.mutation_type self)
               (Idea.generation self) (Idea.mutation_count self + 1)
               (Idea.mutation_budget self) (Idea.embedding_id self)
               (Idea.adopter_count self) (Idea.reach self)
               (Idea.rejection_count self) (Idea.created_at self)
         ∧ (0 <= Idea.virality_score mutant <= 1)%Q
         ∧ (0 <= Idea.emotional_valence mutant <= 1)%Q
     end)
  ∧ (∀ (self : Idea.t) (kind : MutationType.t) (new_text : pystr)
       (dv de : Q) (e : Env.t),
       (Idea.create_mutation self kind new_text dv de e).1.2
       = inl (ValueError (py "Idea has exceeded mutation budget"))
       ↔ (Idea.mutation_budget self <= Idea.mutation_count self)%Z)
  ∧ (∀ (self : Idea.t) (kind : MutationType.t) (new_text : pystr)
       (dv de : Q) (e : Env.t) (used : gset UUID),
       uuid4_fresh used e → Idea.id self ∈ used →
       match Idea.create_mutation self kind new_text dv de e with
       | (parent', inl _, e') => parent' = self ∧ e' = e
       | (parent', inr mutant, e') =>
           (Idea.id mutant ∉ used)
           ∧ Idea.id mutant ≠ Idea.id parent'
           ∧ Idea.id parent' = Idea.id self
           ∧ uuid4_fresh ({[Idea.id mutant]} ∪ used) e'
       end)
  ∧ (∀ (self : Idea.t) (kind : MutationType.t) (new_text : pystr)
       (dv de : Q) (e : Env.t),
       within_budget self →
       within_budget (Idea.create_mutation self kind new_text dv de e).1.1
       ∧ ∀ mutant,
           (Idea.create_mutation self kind new_text dv de e).1.2 = inr mutant →
           within_budget mutant)
  ∧ (∀ (w : World.t) (e : Env.t),
       budgets_kept w → budgets_kept (World.run_step w e).1.1).
Proof.
  split.
  { intros self kind new_text dv de e.
    pose proof (create_mutation_cases self kind new_text dv de e) as Hcm.
    destruct (Idea.create_mutation _ _ _ _ _ _)
      as [[parent' [[msg]|mutant]] e']; [exact Hcm|].
    destruct Hcm as (H1 & H2 & H3 & H4 & H5 & H6 & H7 & H8 & H9 & H10 & H11
                     & H12 & H13 & H14 & H15 & H16).
    do 16 (split; [assumption|]).
    split; [by rewrite H2|]. split; [by rewrite H2|].
    rewrite H9, H10. unfold clamp01.
    split; (split; [apply Q.le_max_l|]);
      (apply Q.max_lub; [done|apply Q.le_min_l]). }
  split.
  { intros self kind new_text dv de e.
    unfold Idea.create_mutation, Idea.can_mutate.
    destruct (Z.ltb_spec (Idea.mutation_count self) (Idea.mutation_budget self))
      as [Hlt|Hge]; cbn.
    - split; [discriminate|lia].
    - done. }
  split; [exact create_mutation_fresh|].
  split; [|exact run_step_budgets_kept].
  intros self kind new_text dv de e [Hlo Hhi].
  pose proof (create_mutation_cases self kind new_text dv de e) as Hcm.
  destruct (Idea.create_mutation _ _ _ _ _ _) as [[parent' [[msg]|mutant]] e'].
  - destruct Hcm as (_ & -> & _). cbn. split; [done|]. intros m [=].
  - destruct Hcm as (Hlt & -> & Hle & _ & _ & _ & _ & _ & _ & _ & _ & _ & _
                     & _ & Hb & Hc).
    cbn. split; [unfold within_budget; cbn in *; lia|].
    intros m [= <-]. unfold within_budget. lia.
Qed.

(** In [mutating_world] with every draw equal to zero, the first adoption
    of each of the two ideas calls [create_mutation]: after the tick there
    are two mutants, idea 10 has used its budget of 1, and every idea is
    within its budget.  A mutant of idea 10 made in that environment gets
    an identifier other than 10 and 11. *)
Lemma create_mutation_spec_witness :
  budgets_kept mutating_world
  ∧ budgets_kept (World.run_step mutating_world (env_const 0)).1.1
  ∧ World.total_mutations (World.run_step mutating_world (env_const 0)).1.1
    = 2%Z
  ∧ Idea.mutation_count
      <$> World.ideas (World.run_step mutating_world (env_const 0)).1.1 !! 10%N
    = Some 1%Z
  ∧ size (World.ideas (World.run_step mutating_world (env_const 0)).1.1)
    = 4%nat
  ∧ match Idea.create_mutation (budget_idea 10%N) MutationType.SIMPLIFY
            (py "y") 0 0 (env_const 0) with
    | (parent', inl _, e') => parent' = budget_idea 10%N ∧ e' = env_const 0
    | (parent', inr mutant, e') =>
        (Idea.id mutant ∉ ({[10%N; 11%N]} : gset UUID))
        ∧ Idea.id mutant ≠ Idea.id parent'
        ∧ Idea.id parent' = Idea.id (budget_idea 10%N)
        ∧ uuid4_fresh ({[Idea.id mutant]} ∪ {[10%N; 11%N]}) e'
    end.
Proof.
  split; [exact mutating_world_budgets|].
  split; [exact (proj2 (proj2 (proj2 (proj2 create_mutation_spec)))
                   mutating_world (env_const 0) mutating_world_budgets)|].
  split; [vm_compute; reflexivity|].
  split; [vm_compute; reflexivity|].
  split; [vm_compute; reflexivity|].
  apply (proj1 (proj2 (proj2 create_mutation_spec)) (budget_idea 10%N)
           MutationType.SIMPLIFY (py "y") 0%Q 0%Q (env_const 0)
           {[10%N; 11%N]}).
  - apply env_const_fresh. intros u Hu.
    apply elem_of_union in Hu as [Hu|Hu]; apply elem_of_singleton in Hu;
      subst u; reflexivity.
  - apply elem_of_union_l, elem_of_singleton. reflexivity.
Defined.

(** * Further properties of the engine *)

(** ** Agent: adopting, forgetting, connecting *)

(** X1.  [adopt_idea] returns True exactly when the idea was not yet
    believed; afterwards the idea is believed, the adoption count has grown
    by one exactly in that case, and a second [adopt_idea] of the same idea
    returns False and changes nothing. *)
Theorem adopt_idea_twice (a : Agent.t) (i : UUID) :
  let a1 := (Agent.adopt_idea a i).1 in
  (Agent.adopt_idea a i).2 = negb (Agent.has_idea a i)
  ∧ Agent.has_idea a1 i = true
  ∧ AgentState.adoption_count (Agent.state a1)
    = (AgentState.adoption_count (Agent.state a)
       + (if Agent.has_idea a i then 0 else 1))%Z
  ∧ Agent.adopt_idea a1 i = (a1, false).
Proof.
  unfold Agent.adopt_idea, Agent.has_idea.
  destruct (bool_decide (i ∈ Agent.beliefs a)) eqn:Hb; cbn.
  - rewrite Hb. cbn. repeat split; lia.
  - assert (Hin : bool_decide (i ∈ {[i]} ∪ Agent.beliefs a) = true).
    { apply bool_decide_eq_true. apply elem_of_union_l, elem_of_singleton_2.
      reflexivity. }
    rewrite Hin. repeat split; reflexivity.
Qed.

Lemma adopt_then_forget (a : Agent.t) (i : UUID) :
  i ∉ Agent.beliefs a →
  Agent.beliefs (Agent.forget_idea (Agent.adopt_idea a i).1 i).1
  = Agent.beliefs a
  ∧ AgentState.adoption_count
      (Agent.state (Agent.forget_idea (Agent.adopt_idea a i).1 i).1)
    = (AgentState.adoption_count (Agent.state a) + 1)%Z
  ∧ AgentState.susceptibility
      (Agent.state (Agent.forget_idea (Agent.adopt_idea a i).1 i).1)
    = Qmax 0.1 (AgentState.susceptibility (Agent.state a) * 0.95).
Proof.
  intros Hni. unfold Agent.adopt_idea.
  rewrite (bool_decide_eq_false_2 _ Hni). cbn.
  unfold Agent.forget_idea. cbn.
  assert (Hin : i ∈ {[i]} ∪ Agent.beliefs a)
    by (apply elem_of_union_l, elem_of_singleton_2; reflexivity).
  rewrite (bool_decide_eq_false_2 (i ∉ _)) by (intros H; exact (H Hin)).
  cbn. repeat split.
  apply leibniz_equiv, set_equiv. intros x.
  rewrite elem_of_difference, elem_of_union, elem_of_singleton.
  split; [tauto|]. intros Hx. split; [tauto|]. by intros ->.
Qed.

Lemma forget_idea_cases (a : Agent.t) (i : UUID) :
  (Agent.forget_idea a i).2 = Agent.has_idea a i
  ∧ Agent.has_idea (Agent.forget_idea a i).1 i = false
  ∧ (∀ j, j ≠ i → Agent.has_idea (Agent.forget_idea a i).1 j
                  = Agent.has_idea a j)
  ∧ Agent.state (Agent.forget_idea a i).1 = Agent.state a
  ∧ Agent.idea_exposures (Agent.forget_idea a i).1 = Agent.idea_exposures a
  ∧ Agent.forget_idea (Agent.forget_idea a i).1 i
    = ((Agent.forget_idea a i).1, false).
Proof.
  unfold Agent.forget_idea, Agent.has_idea.
  destruct (decide (i ∈ Agent.beliefs a)) as [Hin|Hin].
  - rewrite (bool_decide_eq_false_2 (i ∉ Agent.beliefs a))
      by (intros H; exact (H Hin)).
    cbn. rewrite (bool_decide_eq_true_2 _ Hin).
    assert (Hout : i ∉ Agent.beliefs a ∖ {[i]}).
    { intros [_ H]%elem_of_difference. apply H, elem_of_singleton_2.
      reflexivity. }
    rewrite (bool_decide_eq_false_2 _ Hout), (bool_decide_eq_true_2 _ Hout).
    repeat split; try reflexivity.
    intros j Hj. apply bool_decide_ext.
    rewrite elem_of_difference, elem_of_singleton. tauto.
  - rewrite (bool_decide_eq_true_2 _ Hin). cbn.
    rewrite (bool_decide_eq_false_2 _ Hin), (bool_decide_eq_true_2 _ Hin).
    repeat split; reflexivity.
Qed.

(** X2.  [forget_idea] returns True exactly when the idea was believed;
    afterwards the idea is not believed, every other belief, the state and
    the exposure counts are as before, and a second [forget_idea] returns
    False and changes nothing.  Forgetting does not undo an adoption: after
    adopting and forgetting a new idea the beliefs are as before, but the
    adoption count stays incremented and the susceptibility lowered. *)
Theorem forget_idea_spec (a : Agent.t) (i : UUID) :
  let a1 := (Agent.forget_idea a i).1 in
  (Agent.forget_idea a i).2 = Agent.has_idea a i
  ∧ Agent.has_idea a1 i = false
  ∧ (∀ j, j ≠ i → Agent.has_idea a1 j = Agent.has_idea a j)
  ∧ Agent.state a1 = Agent.state a
  ∧ Agent.idea_exposures a1 = Agent.idea_exposures a
  ∧ Agent.forget_idea a1 i = (a1, false)
  ∧ ((i ∉ Agent.beliefs a) →
     let a2 := (Agent.forget_idea (Agent.adopt_idea a i).1 i).1 in
     Agent.beliefs a2 = Agent.beliefs a
     ∧ AgentState.adoption_count (Agent.state a2)
       = (AgentState.adoption_count (Agent.state a) + 1)%Z
     ∧ AgentState.susceptibility (Agent.state a2)
       = Qmax 0.1 (AgentState.susceptibility (Agent.state a) * 0.95)).
Proof.
  cbv zeta.
  destruct (forget_idea_cases a i) as (H1 & H2 & H3 & H4 & H5 & H6).
  repeat (split; [assumption|]).
  apply adopt_then_forget.
Qed.

(** X3.  [add_connection] adds the identifier unless it is the agent's own,
    so an agent that is not in its own connections never gets there; adding
    twice is adding once; [remove_connection] removes that identifier and no
    other. *)
Theorem add_connection_spec (a : Agent.t) (j : UUID) :
  let a1 := Agent.add_connection a j in
  (∀ x, (x ∈ Agent.connections a1)
        ↔ (x ∈ Agent.connections a ∨ (x = j ∧ j ≠ Agent.id a)))
  ∧ ((Agent.id a ∉ Agent.connections a) →
     (Agent.id a1 ∉ Agent.connections a1))
  ∧ Agent.add_connection a1 j = a1
  ∧ (j ∉ Agent.connections (Agent.remove_connection a1 j))
  ∧ (∀ x, x ≠ j → ((x ∈ Agent.connections (Agent.remove_connection a1 j))
                   ↔ (x ∈ Agent.connections a))).
Proof.
  unfold Agent.add_connection, Agent.remove_connection.
  destruct (decide (j ≠ Agent.id a)) as [Hne|Heq]; cbn.
  - rewrite decide_True by done. cbn. split; [|split; [|split; [|split]]].
    + intros x. rewrite elem_of_union, elem_of_singleton. tauto.
    + intros Hid [Hj%elem_of_singleton|Hc]%elem_of_union; [|done].
      by apply Hne.
    + unfold Agent.set_connections. cbn. f_equal.
      apply leibniz_equiv, set_equiv. intros x.
      rewrite !elem_of_union, elem_of_singleton. tauto.
    + intros [_ H]%elem_of_difference. by apply H, elem_of_singleton_2.
    + intros x Hx.
      rewrite elem_of_difference, elem_of_union, !elem_of_singleton. tauto.
  - rewrite decide_False by done. split; [|split; [|split; [|split]]].
    + intros x. tauto.
    + done.
    + done.
    + cbn. intros [_ H]%elem_of_difference. by apply H, elem_of_singleton_2.
    + intros x Hx. cbn. rewrite elem_of_difference, elem_of_singleton. tauto.
Qed.

(** ** Agent and idea: values in range *)

Lemma size_list_to_set_le `{Countable A} (l : list A) :
  (size (list_to_set l : gset A) ≤ length l)%nat.
Proof.
  induction l as [|x l IH]; cbn.
  - by rewrite size_empty.
  - rewrite size_union_alt, size_singleton.
    pose proof (subseteq_size (list_to_set l ∖ {[x]}) (list_to_set l : gset A)
                  (subseteq_difference_l _ _ _ (reflexivity _))).
    lia.
Qed.

Lemma ratio_unit (n m : nat) :
  (n ≤ m)%nat → (0 < m)%nat →
  (0 <= inject_Z (Z.of_nat n) / inject_Z (Z.of_nat m) <= 1)%Q.
Proof.
  intros Hnm Hm.
  assert (Hm' : (0 < inject_Z (Z.of_nat m))%Q).
  { change 0%Q with (inject_Z 0). rewrite <- Zlt_Qlt. lia. }
  split.
  - apply Qle_shift_div_l; [done|]. rewrite Qmult_0_l.
    change 0%Q with (inject_Z 0). rewrite <- Zle_Qle. lia.
  - apply Qle_shift_div_r; [done|]. rewrite Qmult_1_l.
    rewrite <- Zle_Qle. lia.
Qed.

(** X4.  The relevance of an idea for an agent is always between 0.2 and
    1, whatever the tags and the interests. *)
Theorem calculate_idea_relevance_range (a : Agent.t) (tags : list pystr) :
  (0.2 <= Agent.calculate_idea_relevance a tags <= 1)%Q.
Proof.
  unfold Agent.calculate_idea_relevance. cbv zeta.
  destruct tags as [|t tags]; [lra|].
  destruct (AgentProfile.interests (Agent.profile a)) as [|x interests]; [lra|].
  set (o := Agent.overlap _ _).
  destruct (decide (size o = 0%nat)); [lra|].
  pose proof (ratio_unit (size o)
                (Nat.max (length (t :: tags)) (length (x :: interests)))) as Hr.
  destruct Hr as [H0 H1].
  - etransitivity; [|apply Nat.le_max_l].
    etransitivity; [|apply size_list_to_set_le].
    subst o. unfold Agent.overlap. apply subseteq_size, intersection_subseteq_l.
  - cbn [length]. lia.
  - lra.
Qed.

Lemma score_over_checks (score : Q) (checks : Z) :
  (0 <= checks)%Z → (0 <= score <= inject_Z checks)%Q →
  (0 <= (if (checks =? 0)%Z then 1 else score / inject_Z checks) <= 1)%Q.
Proof.
  intros Hc [H0 H1]. destruct (Z.eqb_spec checks 0) as [->|Hne]; [lra|].
  assert (Hpos : (0 < inject_Z checks)%Q).
  { change 0%Q with (inject_Z 0). rewrite <- Zlt_Qlt. lia. }
  split.
  - apply Qle_shift_div_l; [done|]. lra.
  - apply Qle_shift_div_r; [done|]. lra.
Qed.

(** X8.  The match score of a target for an agent is always between 0 and
    1, and it is 1 for a target that names no age group, no interest and no
    region. *)
Theorem matches_agent_range (target : IdeaTarget.t) (age_group : pystr)
    (interests : list pystr) (region : pystr) :
  (0 <= IdeaTarget.matches_agent target age_group interests region <= 1)%Q
  ∧ (IdeaTarget.age_groups target = [] → IdeaTarget.interests target = [] →
     IdeaTarget.regions target = [] →
     IdeaTarget.matches_agent target age_group interests region = 1%Q).
Proof.
  split.
  - unfold IdeaTarget.matches_agent.
    set (o := list_to_set (IdeaTarget.interests target) ∩ list_to_set interests).
    assert (Ho : IdeaTarget.interests target ≠ [] →
                 (0 <= inject_Z (Z.of_nat (size o))
                       / inject_Z (Z.of_nat (length (IdeaTarget.interests target)))
                  <= 1)%Q).
    { intros Hne. apply ratio_unit.
      - etransitivity; [|apply size_list_to_set_le].
        apply subseteq_size, intersection_subseteq_l.
      - destruct (IdeaTarget.interests target); [done|cbn; lia]. }
    clearbody o.
    destruct (IdeaTarget.age_groups target) as [|g gs];
      destruct (IdeaTarget.interests target) as [|t ts];
      destruct (IdeaTarget.regions target) as [|r rs];
      cbn [IdeaTarget.is_nil];
      repeat case_bool_decide; repeat case_decide;
      try (specialize (Ho ltac:(done)));
      (apply score_over_checks; [lia|]);
      cbn [length] in *; rewrite ?inject_Z_plus;
      change (inject_Z 0) with 0%Q; change (inject_Z 1) with 1%Q; lra.
  - intros Ha Hi Hr. unfold IdeaTarget.matches_agent. by rewrite Ha, Hi, Hr.
Qed.

Lemma clamp_range (p : Q) : (0 <= Qmax 0 (Qmin 1 p) <= 1)%Q.
Proof.
  split; [apply Q.le_max_l|].
  apply Q.max_lub; [lra|apply Q.le_min_l].
Qed.

Lemma mult_below (a b v : Q) :
  (0 <= a <= v)%Q → (0 <= b <= 1)%Q → (0 <= a * b <= v)%Q.
Proof. intros [? ?] [? ?]. split; nra. Qed.

(** X9.  When the idea's virality, complexity and emotional valence and
    the four other factors are all between 0 and 1, the clamp of the spread
    probability is idle: the probability is the plain product, it is at most
    the effective virality, and that is at most the virality score. *)
Theorem spread_probability_unclamped (idea : Idea.t)
    (sender_influence receiver_openness relevance trust_factor : Q) :
  (0 <= Idea.virality_score idea <= 1)%Q →
  (0 <= Idea.complexity idea <= 1)%Q →
  (0 <= Idea.emotional_valence idea <= 1)%Q →
  (0 <= sender_influence <= 1)%Q →
  (0 <= receiver_openness <= 1)%Q →
  (0 <= relevance <= 1)%Q →
  (0 <= trust_factor <= 1)%Q →
  (Idea.calculate_spread_probability idea sender_influence receiver_openness
     relevance trust_factor
   == Idea.effective_virality idea * sender_influence * receiver_openness
      * relevance * trust_factor * (0.5 + Idea.emotional_valence idea * 0.5))%Q
  ∧ (Idea.calculate_spread_probability idea sender_influence
       receiver_openness relevance trust_factor
     <= Idea.effective_virality idea)%Q
  ∧ (Idea.effective_virality idea <= Idea.virality_score idea)%Q.
Proof.
  intros Hv Hc He Hs Ho Hr Ht.
  unfold Idea.calculate_spread_probability.
  set (ev := Idea.effective_virality idea).
  assert (Hev : (0 <= ev <= Idea.virality_score idea)%Q).
  { subst ev. unfold Idea.effective_virality.
    apply mult_below; split; lra. }
  set (p := (ev * sender_influence * receiver_openness * relevance
             * trust_factor * (0.5 + Idea.emotional_valence idea * 0.5))%Q).
  assert (Hp : (0 <= p <= ev)%Q).
  { subst p. apply mult_below; [|split; lra].
    do 4 (apply mult_below; [|done]). split; lra. }
  assert (Hclamp : (Qmax 0 (Qmin 1 p) == p)%Q).
  { rewrite Q.min_r by lra. apply Q.max_r. lra. }
  split; [exact Hclamp|]. split; [rewrite Hclamp|]; lra.
Qed.

(** The idea "Hello" (virality 0.2, complexity 0.3, valence 0.5) between
    an agent of influence 1 and an agent of openness 1, at relevance 1 and
    trust 1. *)
Lemma spread_probability_unclamped_witness :
  (Idea.calculate_spread_probability hello_idea 1 1 1 1
   == Idea.effective_virality hello_idea * 1 * 1 * 1 * 1
      * (0.5 + Idea.emotional_valence hello_idea * 0.5))%Q
  ∧ (Idea.calculate_spread_probability hello_idea 1 1 1 1
     <= Idea.effective_virality hello_idea)%Q
  ∧ (Idea.effective_virality hello_idea <= Idea.virality_score hello_idea)%Q.
Proof.
  apply (spread_probability_unclamped hello_idea 1 1 1 1);
    vm_compute; split; discriminate.
Defined.

(** ** A tick as two loops of elementary writes *)

(** What holds of the counters and the world when the loops of a tick start,
    and is kept by one spread attempt and by one decay draw, holds when the
    loops end. *)
Lemma phases_preserve (P : World.tick → Prop) (order : list UUID)
    (s : World.tick) :
  (∀ sp i c s', P s' → P (World.spread_to sp i c s')) →
  (∀ a i s', P s' → P (World.decay_belief a i s')) →
  P s → P (World.decay_phase (World.spread_phase order s)).
Proof.
  intros Hspread Hdecay Hs.
  unfold World.decay_phase. apply fold_left_preserves.
  - unfold World.spread_phase. apply fold_left_preserves; [done|].
    intros s1 sp Hs1. unfold World.spreader_turn.
    destruct (World.agents (World.tw s1) !! sp) as [spreader|]; [|done].
    apply fold_left_preserves; [done|].
    intros s2 i Hs2. unfold World.spread_idea.
    destruct (World.ideas (World.tw s2) !! i); [|done].
    destruct (World.agents (World.tw s2) !! sp) as [spreader'|]; [|done].
    apply fold_left_preserves; [done|].
    intros s3 c Hs3. by apply Hspread.
  - intros s1 a Hs1. unfold World.decay_agent.
    destruct (World.agents (World.tw s1) !! a) as [agent|]; [|done].
    apply fold_left_preserves; [done|].
    intros s2 i Hs2. by apply Hdecay.
Qed.

Lemma run_step_invariant (P : World.tick → Prop) (w : World.t) (e : Env.t) :
  World.status w = WorldStatus.RUNNING →
  (∀ e1, P (World.mk_tick w e1 0 0 0 0)) →
  (∀ sp i c s, P s → P (World.spread_to sp i c s)) →
  (∀ a i s, P s → P (World.decay_belief a i s)) →
  ∃ s, P s ∧ World.run_step w e = step_outcome s.
Proof.
  intros Hr H0 Hspread Hdecay. unfold World.run_step.
  case_decide; [done|].
  destruct (Env.shuffle _ e) as [order e1].
  eexists. split; [|reflexivity].
  by apply phases_preserve.
Qed.

(** The end of a step writes the step counter, the status and the
    completion time, and nothing else. *)
Lemma finish_step_frame (w : World.t) (e : Env.t) :
  let w' := (World.finish_step w e).1 in
  World.agents w' = World.agents w
  ∧ World.ideas w' = World.ideas w
  ∧ World.recent_events w' = World.recent_events w
  ∧ World.max_recent_events w' = World.max_recent_events w
  ∧ World.total_spread_events w' = World.total_spread_events w
  ∧ World.total_adoptions w' = World.total_adoptions w
  ∧ World.total_mutations w' = World.total_mutations w
  ∧ World.current_step w' = (World.current_step w + 1)%Z.
Proof.
  unfold World.finish_step. destruct (World.max_steps_reached _); [|done].
  by destruct (Env.utcnow e).
Qed.

(** [random.random()] is in [0, 1). *)
Lemma random_range (e : Env.t) : (0 <= (Env.random e).1 < 1)%Q.
Proof.
  unfold Env.random, Env.next_raw. cbn.
  set (r := (Env.rnd e (Env.rnd_pos e) mod 2 ^ 53)%N).
  assert (Hr : (r < 2 ^ 53)%N) by (apply N.mod_upper_bound; done).
  unfold Qle, Qlt. cbn. split; [lia|].
  change (Z.pos (2 ^ 53)) with (Z.of_N (2 ^ 53)). lia.
Qed.

Lemma Qltb_random_nonpos (e : Env.t) (rate : Q) :
  (rate <= 0)%Q → Qltb (Env.random e).1 rate = false.
Proof.
  intros Hrate. destruct (Qltb _ _) eqn:Hlt; [|done].
  apply Qltb_lt in Hlt. pose proof (random_range e) as [H0 _]. lra.
Qed.

Lemma Qltb_random_one (e : Env.t) (rate : Q) :
  (1 <= rate)%Q → Qltb (Env.random e).1 rate = true.
Proof.
  intros Hrate. apply Qltb_lt. pose proof (random_range e) as [_ H1]. lra.
Qed.

(** The line world, agent by agent and idea by idea. *)
Lemma line_world_agents_Forall (P : UUID → Agent.t → Prop) :
  P 1%N (line_agent 1%N {[2%N]} {[10%N]}) →
  P 2%N (line_agent 2%N {[1%N; 3%N]} {[11%N]}) →
  P 3%N (line_agent 3%N {[2%N]} ∅) →
  map_Forall P (World.agents line_world).
Proof.
  intros H1 H2 H3. cbn.
  repeat (apply map_Forall_insert_2; [assumption|]).
  apply map_Forall_empty.
Qed.


(** ** The counters of a tick *)

Lemma totals_record_event (w : World.t) (ev : SpreadEvent.t) :
  World.total_adoptions (World._record_event w ev) = World.total_adoptions w
  ∧ World.total_mutations (World._record_event w ev) = World.total_mutations w
  ∧ World.total_spread_events (World._record_event w ev)
    = (World.total_spread_events w + 1)%Z.
Proof. unfold World._record_event. by case_match. Qed.

Lemma totals_trigger_mutation (w : World.t) (idea_id : UUID) (e : Env.t) :
  let w' := (World._trigger_mutation w idea_id e).1.1 in
  World.total_adoptions w' = World.total_adoptions w
  ∧ World.total_mutations w' = World.total_mutations w
  ∧ World.total_spread_events w' = World.total_spread_events w.
Proof.
  unfold World._trigger_mutation.
  destruct (World.ideas w !! idea_id) as [idea|]; [|done].
  destruct (negb (Idea.can_mutate idea)); [done|].
  destruct (Env.choice _ _ _) as [kind e1].
  destruct (World.mutation_changes _ _ _) as [[[txt dv] de] e2].
  by destruct (Idea.create_mutation _ _ _ _ _ _) as [[idea' [err|mutant]] e3].
Qed.

Lemma counters_spread_to (w0 : World.t) (sp i c : UUID) (s : World.tick) :
  counters_consistent w0 s → counters_consistent w0 (World.spread_to sp i c s).
Proof.
  intros Hs. unfold World.spread_to.
  destruct (World.agents (World.tw s) !! sp) as [spreader|]; [|done].
  destruct (World.ideas (World.tw s) !! i) as [idea|]; [|done].
  destruct (World.agents (World.tw s) !! c) as [receiver|]; [|done].
  destruct (Agent.has_idea receiver i); [done|].
  destruct Hs as (Hm & Ha & Hd & Hta & Htm & Hte).
  destruct (Env.random (World.te s)) as [u e1].
  destruct (Qltb u _).
  - destruct (Env.utcnow e1) as [now e2].
    set (w1 := World.set_totals _ _ _).
    set (ev := SpreadEvent.mk _ _ _ _ _ _ _).
    destruct (totals_record_event w1 ev) as (Ha2 & Hm2 & He2).
    set (w2 := World._record_event w1 ev) in *.
    assert (Ha1 : World.total_adoptions w1
                  = (World.total_adoptions (World.tw s) + 1)%Z) by done.
    assert (Hm1 : World.total_mutations w1
                  = World.total_mutations (World.tw s)) by done.
    assert (He1 : World.total_spread_events w1
                  = World.total_spread_events (World.tw s)) by done.
    clearbody w2 w1.
    destruct (Idea.can_mutate _);
      [|unfold counters_consistent; cbn; lia].
    destruct (Env.random e2) as [u' e3].
    destruct (Qltb u' _);
      [|unfold counters_consistent; cbn; lia].
    pose proof (totals_trigger_mutation w2 i e3) as (Ha3 & Hm3 & He3).
    destruct (World._trigger_mutation _ _ _) as [[w3 [mutant|]] e4];
      cbn in Ha3, Hm3, He3; unfold counters_consistent; cbn; lia.
  - unfold counters_consistent; cbn. lia.
Qed.

Lemma counters_decay_belief (w0 : World.t) (a i : UUID) (s : World.tick) :
  counters_consistent w0 s → counters_consistent w0 (World.decay_belief a i s).
Proof.
  intros (Hm & Ha & Hd & Hta & Htm & Hte). unfold World.decay_belief.
  destruct (Env.random (World.te s)) as [u e1].
  destruct (Qltb u _); [|done].
  destruct (World.agents (World.tw s) !! a) as [agent|]; [|done].
  destruct (Agent.forget_idea agent i) as [agent' [|]];
    unfold counters_consistent; cbn; repeat split; lia.
Qed.

(** X11.  A step on a RUNNING world returns counters, not the error; its
    step number is the old step plus one; there are no more mutations than
    adoptions and no more adoptions than attempts; the world's totals of
    adoptions and of mutations grow by the step's adoptions and mutations;
    and [total_spread_events] grows by the adoptions, not by the attempts:
    a rejected attempt is counted nowhere in the world's totals. *)
Theorem run_step_counters (w : World.t) (e : Env.t) :
  World.status w = WorldStatus.RUNNING →
  ∃ r, (World.run_step w e).1.2 = inr r
    ∧ (0 <= StepResult.mutations r <= StepResult.adoptions r)%Z
    ∧ (StepResult.adoptions r <= StepResult.spread_attempts r)%Z
    ∧ (0 <= StepResult.decays r)%Z
    ∧ StepResult.step r = (World.current_step w + 1)%Z
    ∧ StepResult.active_agents r
      = World.active_agents (World.run_step w e).1.1
    ∧ World.total_adoptions (World.run_step w e).1.1
      = (World.total_adoptions w + StepResult.adoptions r)%Z
    ∧ World.total_mutations (World.run_step w e).1.1
      = (World.total_mutations w + StepResult.mutations r)%Z
    ∧ World.total_spread_events (World.run_step w e).1.1
      = (World.total_spread_events w + StepResult.adoptions r)%Z.
Proof.
  intros Hr.
  destruct (run_step_invariant
              (λ s, counters_consistent w s
                    ∧ World.current_step (World.tw s) = World.current_step w)
              w e Hr) as (s & [Hs Hstep] & ->).
  - intros e1. unfold counters_consistent. cbn. repeat split; lia.
  - intros sp i c s [Hs Hstep]. split; [by apply counters_spread_to|].
    pose proof (skeleton_spread_to sp i c s) as Hsk. unfold skeleton in Hsk.
    injection Hsk as _ _ Hst _ _. congruence.
  - intros a i s [Hs Hstep]. split; [by apply counters_decay_belief|].
    pose proof (skeleton_decay_belief a i s) as Hsk. unfold skeleton in Hsk.
    injection Hsk as _ _ Hst _ _. congruence.
  - unfold step_outcome.
    pose proof (finish_step_frame (World.tw s) (World.te s))
      as (_ & _ & _ & _ & He' & Ha' & Hm' & Hs').
    destruct (World.finish_step _ _) as [w' e']. cbn in *.
    destruct Hs as (Hm & Ha & Hd & Hta & Htm & Hte).
    eexists. split; [reflexivity|]. cbn.
    rewrite He', Ha', Hm', Hs'. repeat split; lia.
Qed.

(** A step of the line world. *)
Lemma run_step_counters_witness :
  ∃ r, (World.run_step line_world (env_const 0)).1.2 = inr r
    ∧ (0 <= StepResult.mutations r <= StepResult.adoptions r)%Z
    ∧ (StepResult.adoptions r <= StepResult.spread_attempts r)%Z
    ∧ (0 <= StepResult.decays r)%Z
    ∧ StepResult.step r = (World.current_step line_world + 1)%Z
    ∧ StepResult.active_agents r
      = World.active_agents (World.run_step line_world (env_const 0)).1.1
    ∧ World.total_adoptions (World.run_step line_world (env_const 0)).1.1
      = (World.total_adoptions line_world + StepResult.adoptions r)%Z
    ∧ World.total_mutations (World.run_step line_world (env_const 0)).1.1
      = (World.total_mutations line_world + StepResult.mutations r)%Z
    ∧ World.total_spread_events (World.run_step line_world (env_const 0)).1.1
      = (World.total_spread_events line_world + StepResult.adoptions r)%Z.
Proof.
  apply (run_step_counters line_world (env_const 0)). reflexivity.
Defined.

(** ** The events of a tick *)

Lemma events_from_spread_to (w0 : World.t) (sp i c : UUID) (s : World.tick) :
  events_from w0 (World.tw s) →
  events_from w0 (World.tw (World.spread_to sp i c s)).
Proof.
  intros [Hstep Hev]. split.
  { pose proof (skeleton_spread_to sp i c s) as Hsk. unfold skeleton in Hsk.
    injection Hsk as _ _ Hst _ _. congruence. }
  unfold World.spread_to.
  destruct (World.agents (World.tw s) !! sp) as [spreader|]; [|done].
  destruct (World.ideas (World.tw s) !! i) as [idea|]; [|done].
  destruct (World.agents (World.tw s) !! c) as [receiver|]; [|done].
  destruct (Agent.has_idea receiver i); [done|].
  pose proof (random_range (World.te s)) as [Hu0 _].
  destruct (Env.random (World.te s)) as [u e1]. cbn [fst] in Hu0.
  destruct (Qltb u _) eqn:Hlt; [|done].
  apply Qltb_lt in Hlt.
  destruct (Env.utcnow e1) as [now e2].
  set (w1 := World.set_totals _ _ _).
  set (ev := SpreadEvent.mk _ _ _ _ _ _ _).
  assert (Hw2 : ∀ ev', ev' ∈ World.recent_events (World._record_event w1 ev) →
                ev' ∈ World.recent_events w0
                ∨ tick_event (World.current_step w0) ev').
  { intros ev' [Hin| ->]%events_record_event; [by apply Hev|].
    right. subst ev. unfold tick_event. cbn.
    split; [done|]. split; [done|]. split; [lra|].
    apply (proj2 (clamp_range _)). }
  destruct (Idea.can_mutate _); [|done].
  destruct (Env.random e2) as [u' e3].
  destruct (Qltb u' _); [|done].
  pose proof (events_trigger_mutation (World._record_event w1 ev) i e3) as Hw3.
  destruct (World._trigger_mutation _ _ _) as [[w3 [mutant|]] e4];
    cbn in Hw3 |- *; by rewrite Hw3.
Qed.

Lemma events_from_decay_belief (w0 : World.t) (a i : UUID) (s : World.tick) :
  events_from w0 (World.tw s) →
  events_from w0 (World.tw (World.decay_belief a i s)).
Proof.
  intros Hs. unfold World.decay_belief.
  destruct (Env.random (World.te s)) as [u e1].
  destruct (Qltb u _); [|done].
  destruct (World.agents (World.tw s) !! a) as [agent|]; [|done].
  by destruct (Agent.forget_idea agent i).
Qed.

(** X12.  Every event in the buffer after a step was there before or was
    written by this step; an event written by the step records an adoption
    (a rejected attempt leaves no event), carries the step number the world
    had when the step began (one less than the step number the step
    returns), and a probability that is positive and at most 1. *)
Theorem run_step_events (w : World.t) (e : Env.t) :
  Forall (λ ev, ev ∈ World.recent_events w
                ∨ (SpreadEvent.accepted ev = true
                   ∧ SpreadEvent.step ev = World.current_step w
                   ∧ (0 < SpreadEvent.probability ev <= 1)%Q))
    (World.recent_events (World.run_step w e).1.1).
Proof.
  apply Forall_forall. intros ev.
  destruct (decide (World.status w = WorldStatus.RUNNING)) as [Hr|Hr];
    [|rewrite run_step_not_running by done; by left].
  destruct (run_step_invariant (λ s, events_from w (World.tw s)) w e Hr)
    as (s & [_ Hs] & ->).
  - intros e1. split; [done|]. intros ev'. by left.
  - intros sp i c s. apply events_from_spread_to.
  - intros a i s. apply events_from_decay_belief.
  - unfold step_outcome.
    pose proof (finish_step_frame (World.tw s) (World.te s))
      as (_ & _ & He' & _).
    destruct (World.finish_step _ _) as [w' e']. cbn in *.
    rewrite He'. apply Hs.
Qed.

(** ** The buffer of recent events *)

Lemma buffer_record_event (M : Z) (w : World.t) (ev : SpreadEvent.t) :
  (0 < M)%Z → buffer_within M w → buffer_within M (World._record_event w ev).
Proof.
  intros Hpos [<- Hlen]. unfold World._record_event, buffer_within. cbn.
  rewrite length_app. cbn.
  destruct (Z.ltb_spec (World.max_recent_events w)
              (Z.of_nat (length (World.recent_events w) + 1))) as [Hlt|Hge];
    cbn.
  - split; [done|]. unfold slice_from.
    destruct (Z.ltb_spec (- World.max_recent_events w) 0) as [_|Hn]; [|lia].
    rewrite length_drop, length_app. cbn. lia.
  - split; [done|]. rewrite length_app. cbn. lia.
Qed.

Lemma buffer_trigger_mutation (M : Z) (w : World.t) (idea_id : UUID)
    (e : Env.t) :
  buffer_within M w →
  buffer_within M (World._trigger_mutation w idea_id e).1.1.
Proof.
  intros Hw. unfold World._trigger_mutation.
  destruct (World.ideas w !! idea_id) as [idea|]; [|done].
  destruct (negb (Idea.can_mutate idea)); [done|].
  destruct (Env.choice _ _ _) as [kind e1].
  destruct (World.mutation_changes _ _ _) as [[[txt dv] de] e2].
  by destruct (Idea.create_mutation _ _ _ _ _ _) as [[idea' [err|mutant]] e3].
Qed.

Lemma buffer_spread_to (M : Z) (sp i c : UUID) (s : World.tick) :
  (0 < M)%Z → buffer_within M (World.tw s) →
  buffer_within M (World.tw (World.spread_to sp i c s)).
Proof.
  intros Hpos Hs. unfold World.spread_to.
  destruct (World.agents (World.tw s) !! sp) as [spreader|]; [|done].
  destruct (World.ideas (World.tw s) !! i) as [idea|]; [|done].
  destruct (World.agents (World.tw s) !! c) as [receiver|]; [|done].
  destruct (Agent.has_idea receiver i); [done|].
  destruct (Env.random (World.te s)) as [u e1].
  destruct (Qltb u _); [|done].
  destruct (Env.utcnow e1) as [now e2].
  set (w1 := World.set_totals _ _ _).
  set (ev := SpreadEvent.mk _ _ _ _ _ _ _).
  pose proof (buffer_record_event M w1 ev Hpos Hs) as Hw2.
  destruct (Idea.can_mutate _); [|done].
  destruct (Env.random e2) as [u' e3].
  destruct (Qltb u' _); [|done].
  pose proof (buffer_trigger_mutation M _ i e3 Hw2) as Hw3.
  by destruct (World._trigger_mutation _ _ _) as [[w3 [mutant|]] e4].
Qed.

Lemma buffer_decay_belief (M : Z) (a i : UUID) (s : World.tick) :
  buffer_within M (World.tw s) →
  buffer_within M (World.tw (World.decay_belief a i s)).
Proof.
  intros Hs. unfold World.decay_belief.
  destruct (Env.random (World.te s)) as [u e1].
  destruct (Qltb u _); [|done].
  destruct (World.agents (World.tw s) !! a) as [agent|]; [|done].
  by destruct (Agent.forget_idea agent i).
Qed.

Lemma last_slice_from_snoc {A} (M : Z) (l : list A) (x : A) :
  (0 < M)%Z → last (slice_from (- M) (l ++ [x])) = Some x.
Proof.
  intros Hpos. unfold slice_from.
  destruct (Z.ltb_spec (- M) 0) as [_|Hn]; [|lia].
  rewrite last_lookup, length_drop, lookup_drop, length_app. cbn.
  rewrite lookup_app_r by lia.
  replace (_ - length l)%nat with 0%nat by lia. done.
Qed.

(** X13.  With a positive bound [max_recent_events] and a buffer within
    it, [_record_event] keeps the buffer within the bound and leaves the new
    event as its last element; and so does a whole step: the buffer never
    grows beyond the bound. *)
Theorem recent_events_bounded (w : World.t) (e : Env.t) (ev : SpreadEvent.t) :
  (0 < World.max_recent_events w)%Z →
  (Z.of_nat (length (World.recent_events w)) <= World.max_recent_events w)%Z →
  (Z.of_nat (length (World.recent_events (World._record_event w ev)))
   <= World.max_recent_events w)%Z
  ∧ last (World.recent_events (World._record_event w ev)) = Some ev
  ∧ (Z.of_nat (length (World.recent_events (World.run_step w e).1.1))
     <= World.max_recent_events w)%Z.
Proof.
  intros Hpos Hlen.
  assert (Hb : buffer_within (World.max_recent_events w) w) by done.
  split; [|split].
  - by destruct (buffer_record_event _ w ev Hpos Hb).
  - unfold World._record_event. cbn. case_match; cbn.
    + by apply last_slice_from_snoc.
    + apply last_snoc.
  - destruct (decide (World.status w = WorldStatus.RUNNING)) as [Hr|Hr];
      [|by rewrite run_step_not_running].
    destruct (run_step_invariant
                (λ s, buffer_within (World.max_recent_events w) (World.tw s))
                w e Hr) as (s & [_ Hs] & ->).
    + done.
    + intros sp i c s. by apply buffer_spread_to.
    + intros a i s. apply buffer_decay_belief.
    + unfold step_outcome.
      pose proof (finish_step_frame (World.tw s) (World.te s))
        as (_ & _ & He' & _).
      destruct (World.finish_step _ _) as [w' e']. cbn in *.
      by rewrite He'.
Qed.

(** The line world, whose buffer is empty and bounded by 1000. *)
Lemma recent_events_bounded_witness :
  (Z.of_nat (length (World.recent_events
                       (World._record_event line_world sample_event)))
   <= World.max_recent_events line_world)%Z
  ∧ last (World.recent_events (World._record_event line_world sample_event))
    = Some sample_event
  ∧ (Z.of_nat (length (World.recent_events
                         (World.run_step line_world (env_const 0)).1.1))
     <= World.max_recent_events line_world)%Z.
Proof.
  apply (recent_events_bounded line_world (env_const 0) sample_event).
  - reflexivity.
  - vm_compute. discriminate.
Defined.

(** ** Invariants of every agent across a tick *)

Lemma agents_Forall_spread_to (Q : Agent.t → Prop) (sp i c : UUID)
    (s : World.tick) :
  (∀ a j, Q a → Q (Agent.expose_to_idea a j).1) →
  (∀ a j, Q a → Q (Agent.adopt_idea a j).1) →
  map_Forall (λ _, Q) (World.agents (World.tw s)) →
  map_Forall (λ _, Q) (World.agents (World.tw (World.spread_to sp i c s))).
Proof.
  intros Hexp Had Hs. unfold World.spread_to.
  destruct (World.agents (World.tw s) !! sp) as [spreader|]; [|done].
  destruct (World.ideas (World.tw s) !! i) as [idea|]; [|done].
  destruct (World.agents (World.tw s) !! c) as [receiver|] eqn:Hc; [|done].
  destruct (Agent.has_idea receiver i); [done|].
  pose proof (Hs _ _ Hc) as Hrec.
  destruct (Env.random (World.te s)) as [u e1].
  destruct (Qltb u _).
  - destruct (Env.utcnow e1) as [now e2].
    set (w1 := World.set_totals _ _ _).
    assert (Hw1 : map_Forall (λ _, Q) (World.agents w1)).
    { subst w1. cbn. apply map_Forall_insert_2; [|done]. by apply Had, Hexp. }
    set (ev := SpreadEvent.mk _ _ _ _ _ _ _).
    pose proof (agents_record_event w1 ev) as Hw2.
    destruct (Idea.can_mutate _); [|cbn; by rewrite Hw2].
    destruct (Env.random e2) as [u' e3].
    destruct (Qltb u' _); [|cbn; by rewrite Hw2].
    pose proof (agents_trigger_mutation (World._record_event w1 ev) i e3)
      as Hw3.
    destruct (World._trigger_mutation _ _ _) as [[w3 [mutant|]] e4];
      cbn in *; by rewrite Hw3, Hw2.
  - cbn. apply map_Forall_insert_2; [|done]. by apply Hexp.
Qed.

Lemma agents_Forall_decay_belief (Q : Agent.t → Prop) (a i : UUID)
    (s : World.tick) :
  (∀ a j, Q a → Q (Agent.forget_idea a j).1) →
  map_Forall (λ _, Q) (World.agents (World.tw s)) →
  map_Forall (λ _, Q) (World.agents (World.tw (World.decay_belief a i s))).
Proof.
  intros Hfor Hs. unfold World.decay_belief.
  destruct (Env.random (World.te s)) as [u e1].
  destruct (Qltb u _); [|done].
  destruct (World.agents (World.tw s) !! a) as [agent|] eqn:Ha; [|done].
  pose proof (Hfor agent i (Hs _ _ Ha)) as Hag.
  destruct (Agent.forget_idea agent i) as [agent' forgotten]. cbn in *.
  by apply map_Forall_insert_2.
Qed.

(** A property of agents kept by exposure, adoption and forgetting is kept
    by a tick for every agent of the world. *)
Lemma run_step_agents_Forall (Q : Agent.t → Prop) (w : World.t) (e : Env.t) :
  (∀ a j, Q a → Q (Agent.expose_to_idea a j).1) →
  (∀ a j, Q a → Q (Agent.adopt_idea a j).1) →
  (∀ a j, Q a → Q (Agent.forget_idea a j).1) →
  map_Forall (λ _, Q) (World.agents w) →
  map_Forall (λ _, Q) (World.agents (World.run_step w e).1.1).
Proof.
  intros Hexp Had Hfor Hw.
  destruct (decide (World.status w = WorldStatus.RUNNING)) as [Hr|Hr];
    [|by rewrite run_step_not_running].
  destruct (run_step_invariant
              (λ s, map_Forall (λ _, Q) (World.agents (World.tw s))) w e Hr)
    as (s & Hs & ->).
  - done.
  - intros sp i c s. by apply agents_Forall_spread_to.
  - intros a i s. by apply agents_Forall_decay_belief.
  - unfold step_outcome.
    pose proof (finish_step_frame (World.tw s) (World.te s)) as (Ha' & _).
    destruct (World.finish_step _ _) as [w' e']. cbn in *. by rewrite Ha'.
Qed.

Lemma exposure_total_expose (a : Agent.t) (i : UUID) :
  exposure_total (Agent.expose_to_idea a i).1 = (exposure_total a + 1)%Z.
Proof.
  unfold exposure_total, Agent.expose_to_idea. cbn.
  destruct (Agent.idea_exposures a !! i) as [n|] eqn:Hi; cbn.
  - rewrite <- (insert_delete_eq (Agent.idea_exposures a) i (n + 1)%Z).
    rewrite map_fold_insert_L; [|intros; lia|apply lookup_delete_eq].
    rewrite (map_fold_delete_L _ _ i n (Agent.idea_exposures a));
      [lia|intros; lia|done].
  - rewrite map_fold_insert_L; [lia|intros; lia|done].
Qed.

Lemma exposures_accounted_expose (a : Agent.t) (i : UUID) :
  exposures_accounted a → exposures_accounted (Agent.expose_to_idea a i).1.
Proof.
  unfold exposures_accounted. intros Ha. rewrite exposure_total_expose, <- Ha.
  reflexivity.
Qed.

(** X5.  If, for every agent, [exposure_count] is the sum of the per-idea
    exposure counts, then so it is after a step: every exposure is counted
    once in the total and once for its idea, and neither adopting nor
    forgetting touches the counts. *)
Theorem exposure_count_is_sum (w : World.t) (e : Env.t) :
  map_Forall (λ _, exposures_accounted) (World.agents w) →
  map_Forall (λ _, exposures_accounted)
    (World.agents (World.run_step w e).1.1).
Proof.
  apply run_step_agents_Forall.
  - apply exposures_accounted_expose.
  - intros a j. unfold Agent.adopt_idea. by case_bool_decide.
  - intros a j. unfold Agent.forget_idea. by case_bool_decide.
Qed.

(** The agents of the line world have no exposure. *)
Lemma exposure_count_is_sum_witness :
  map_Forall (λ _, exposures_accounted)
    (World.agents (World.run_step line_world (env_const 0)).1.1).
Proof.
  apply (exposure_count_is_sum line_world (env_const 0)).
  apply line_world_agents_Forall; reflexivity.
Defined.

(** X6.  If every agent's susceptibility is between the floor 0.1 and the
    ceiling 0.9, then so it is after a step. *)
Theorem susceptibility_stays_in_range (w : World.t) (e : Env.t) :
  map_Forall (λ _, susceptibility_in_range) (World.agents w) →
  map_Forall (λ _, susceptibility_in_range)
    (World.agents (World.run_step w e).1.1).
Proof.
  apply run_step_agents_Forall.
  - intros a j Ha. exact Ha.
  - intros a j Ha. unfold Agent.adopt_idea. case_bool_decide; [done|].
    destruct Ha as [Hlo Hhi]. unfold susceptibility_in_range. cbn.
    split; [apply Q.le_max_l|]. apply Q.max_lub; lra.
  - intros a j Ha. unfold Agent.forget_idea. by case_bool_decide.
Qed.

(** The agents of the line world have susceptibility 0.5. *)
Lemma susceptibility_stays_in_range_witness :
  map_Forall (λ _, susceptibility_in_range)
    (World.agents (World.run_step line_world (env_const 0)).1.1).
Proof.
  apply (susceptibility_stays_in_range line_world (env_const 0)).
  apply line_world_agents_Forall; vm_compute; split; discriminate.
Defined.

(** ** Invariants of the catalog across a tick *)













(** ** The two rates at their extremes *)






Lemma beliefs_grow_spread_to (w0 : World.t) (sp i c : UUID) (s : World.tick) :
  beliefs_grow w0 (World.tw s) →
  beliefs_grow w0 (World.tw (World.spread_to sp i c s)).
Proof.
  intros Hs.
  assert (Hstep : ∀ r', (∀ r, World.agents (World.tw s) !! c = Some r →
                              Agent.beliefs r ⊆ Agent.beliefs r') →
            is_Some (World.agents (World.tw s) !! c) →
            ∀ k a, World.agents w0 !! k = Some a →
            ∃ a', <[c := r']> (World.agents (World.tw s)) !! k = Some a'
                  ∧ Agent.beliefs a ⊆ Agent.beliefs a').
  { intros r' Hr' [r Hc] k a Hk. destruct (Hs k a Hk) as (a1 & Hk1 & Hsub).
    destruct (decide (k = c)) as [->|Hne].
    - rewrite lookup_insert_eq. eexists. split; [done|].
      etransitivity; [exact Hsub|]. by apply Hr'.
    - rewrite lookup_insert_ne by done. by eexists. }
  unfold World.spread_to.
  destruct (World.agents (World.tw s) !! sp) as [spreader|]; [|done].
  destruct (World.ideas (World.tw s) !! i) as [idea|] eqn:Hi; [|done].
  destruct (World.agents (World.tw s) !! c) as [receiver|] eqn:Hc; [|done].
  destruct (Agent.has_idea receiver i); [done|].
  destruct (Env.random (World.te s)) as [u e1].
  destruct (Qltb u _).
  - destruct (Env.utcnow e1) as [now e2].
    set (w1 := World.set_totals _ _ _).
    assert (Hw1 : beliefs_grow w0 w1).
    { subst w1. unfold beliefs_grow. cbn. apply Hstep; [|by eexists].
      intros r [= <-]. unfold Agent.adopt_idea. case_bool_decide; cbn; [done|].
      apply union_subseteq_r. }
    set (ev := SpreadEvent.mk _ _ _ _ _ _ _).
    pose proof (agents_record_event w1 ev) as Hw2.
    destruct (Idea.can_mutate _);
      [|unfold beliefs_grow; cbn; by rewrite Hw2].
    destruct (Env.random e2) as [u' e3].
    destruct (Qltb u' _); [|unfold beliefs_grow; cbn; by rewrite Hw2].
    pose proof (agents_trigger_mutation (World._record_event w1 ev) i e3)
      as Hw3.
    destruct (World._trigger_mutation _ _ _) as [[w3 [mutant|]] e4];
      unfold beliefs_grow; cbn in *; by rewrite Hw3, Hw2.
  - unfold beliefs_grow. cbn. apply Hstep; [|by eexists].
    by intros r [= <-].
Qed.

(** With a decay rate of zero or less no belief is forgotten. *)
Lemma no_decay_at_rate_zero (w : World.t) (e : Env.t) :
  (WorldConfig.decay_rate (World.config w) <= 0)%Q →
  (∀ k a, World.agents w !! k = Some a →
          ∃ a', World.agents (World.run_step w e).1.1 !! k = Some a'
                ∧ Agent.beliefs a ⊆ Agent.beliefs a')
  ∧ ∀ r, (World.run_step w e).1.2 = inr r → StepResult.decays r = 0%Z.
Proof.
  intros Hrate.
  destruct (decide (World.status w = WorldStatus.RUNNING)) as [Hr|Hr].
  2:{ rewrite run_step_not_running by done. cbn. split; [|done].
      intros k a Hk. by exists a. }
  destruct (run_step_invariant
              (λ s, World.config (World.tw s) = World.config w
                    ∧ World.decays s = 0%Z
                    ∧ beliefs_grow w (World.tw s)) w e Hr)
    as (s & (Hcfg & Hde & Hb) & ->).
  - intros e1. cbn. repeat split; [done..|]. intros k a Hk. by exists a.
  - intros sp i c s (Hcfg & Hde & Hb). split; [|split].
    + pose proof (skeleton_spread_to sp i c s) as Hsk. unfold skeleton in Hsk.
      injection Hsk as Hc _ _ _ _. congruence.
    + unfold World.spread_to. repeat case_match; done.
    + by apply beliefs_grow_spread_to.
  - intros a i s (Hcfg & Hde & Hb). unfold World.decay_belief.
    pose proof (Qltb_random_nonpos (World.te s)
                  (WorldConfig.decay_rate (World.config (World.tw s)))) as Hno.
    destruct (Env.random (World.te s)) as [u e1]. cbn [fst] in Hno.
    rewrite Hno by (by rewrite Hcfg). done.
  - unfold step_outcome.
    pose proof (finish_step_frame (World.tw s) (World.te s)) as (Ha' & _).
    destruct (World.finish_step _ _) as [w' e']. cbn in *.
    rewrite Ha'. split; [done|]. intros r [= <-]. done.
Qed.

Lemma decay_belief_certain (a i : UUID) (s : World.tick) (agent : Agent.t) :
  (1 <= WorldConfig.decay_rate (World.config (World.tw s)))%Q →
  World.agents (World.tw s) !! a = Some agent →
  ∃ agent',
    World.agents (World.tw (World.decay_belief a i s))
    = <[a := agent']> (World.agents (World.tw s))
    ∧ Agent.beliefs agent' = Agent.beliefs agent ∖ {[i]}
    ∧ World.config (World.tw (World.decay_belief a i s))
      = World.config (World.tw s).
Proof.
  intros Hrate Ha. unfold World.decay_belief.
  pose proof (Qltb_random_one (World.te s) _ Hrate) as Hyes.
  destruct (Env.random (World.te s)) as [u e1]. cbn [fst] in Hyes.
  rewrite Hyes, Ha. unfold Agent.forget_idea.
  case_bool_decide as Hin; cbn.
  - exists agent. split; [|split; [|done]].
    + done.
    + apply leibniz_equiv, set_equiv. intros x.
      rewrite elem_of_difference, elem_of_singleton. split; [|tauto].
      intros Hx. split; [done|]. by intros ->.
  - eexists. split; [reflexivity|]. done.
Qed.

Lemma decay_beliefs_certain (a : UUID) (l : list UUID) (s : World.tick)
    (agent : Agent.t) :
  (1 <= WorldConfig.decay_rate (World.config (World.tw s)))%Q →
  World.agents (World.tw s) !! a = Some agent →
  let s' := fold_left (λ s' i, World.decay_belief a i s') l s in
  ∃ agent',
    World.agents (World.tw s') = <[a := agent']> (World.agents (World.tw s))
    ∧ Agent.beliefs agent' = Agent.beliefs agent ∖ list_to_set l
    ∧ World.config (World.tw s') = World.config (World.tw s).
Proof.
  revert s agent. induction l as [|i l IH]; intros s agent Hrate Ha; cbn.
  - exists agent. split; [by rewrite insert_id|]. split; [|done].
    by rewrite difference_empty_L.
  - destruct (decay_belief_certain a i s agent Hrate Ha)
      as (a1 & Hag1 & Hb1 & Hc1).
    destruct (IH (World.decay_belief a i s) a1) as (a2 & Hag2 & Hb2 & Hc2).
    + by rewrite Hc1.
    + by rewrite Hag1, lookup_insert_eq.
    + exists a2. cbn in *. split; [|split].
      * by rewrite Hag2, Hag1, insert_insert_eq.
      * rewrite Hb2, Hb1. apply leibniz_equiv, set_equiv. intros x.
        rewrite !elem_of_difference, elem_of_union. tauto.
      * by rewrite Hc2.
Qed.

Lemma decay_agents_certain (keys : list UUID) (s : World.tick) :
  (1 <= WorldConfig.decay_rate (World.config (World.tw s)))%Q →
  let s' := fold_left (λ s' a, World.decay_agent a s') keys s in
  ∀ k a', World.agents (World.tw s') !! k = Some a' →
          (k ∈ keys → Agent.beliefs a' = ∅)
          ∧ (k ∉ keys → World.agents (World.tw s) !! k = Some a').
Proof.
  revert s. induction keys as [|k0 keys IH]; intros s Hrate; cbn.
  - intros k a' Hk. split; [by intros ?%elem_of_nil|done].
  - intros k a' Hk.
    assert (Hstep :
      World.config (World.tw (World.decay_agent k0 s))
      = World.config (World.tw s)
      ∧ ∀ k1 a1,
          World.agents (World.tw (World.decay_agent k0 s)) !! k1 = Some a1 →
          (k1 = k0 → Agent.beliefs a1 = ∅)
          ∧ (k1 ≠ k0 → World.agents (World.tw s) !! k1 = Some a1)).
    { unfold World.decay_agent.
      destruct (World.agents (World.tw s) !! k0) as [agent|] eqn:Hk0.
      - destruct (decay_beliefs_certain k0 (elements (Agent.beliefs agent)) s
                    agent Hrate Hk0) as (ag' & Hag & Hb & Hc).
        cbn in *. split; [done|]. intros k1 a1. rewrite Hag.
        destruct (decide (k1 = k0)) as [->|Hne].
        + rewrite lookup_insert_eq. intros [= <-]. split; [|done].
          intros _. rewrite Hb, list_to_set_elements_L.
          apply difference_diag_L.
        + rewrite lookup_insert_ne by done. done.
      - split; [done|]. intros k1 a1 Hk1. split; [|done].
        intros ->. congruence. }
    destruct Hstep as [Hcfg Hstep].
    destruct (IH (World.decay_agent k0 s)) with (k := k) (a' := a')
      as [Hin Hout]; [by rewrite Hcfg|exact Hk|].
    destruct (decide (k ∈ keys)) as [Hk'|Hk'].
    + split; [by intros _; apply Hin|].
      intros Hn. exfalso. apply Hn. by right.
    + destruct (Hstep k a' (Hout Hk')) as [Heq Hne].
      split.
      * intros [->|?]%elem_of_cons; [by apply Heq|done].
      * intros Hn. apply Hne. intros ->. apply Hn. by left.
Qed.

Lemma spreaders_nil (w : World.t) :
  (∀ k a, World.agents w !! k = Some a → Agent.beliefs a = ∅) →
  World.spreaders w = [].
Proof.
  intros Hall. unfold World.spreaders.
  assert (Hl : Forall (λ kv : UUID * Agent.t, Agent.beliefs kv.2 = ∅)
                 (map_to_list (World.agents w))).
  { apply Forall_forall. intros [k a] Hin. cbn.
    apply elem_of_map_to_list in Hin. by eapply Hall. }
  induction Hl as [|kv l Hkv Hl IH]; [done|].
  rewrite filter_cons_False; [done|]. intros Hne. by apply Hne.
Qed.

(** With a decay rate of one or more every belief is forgotten. *)
Lemma all_forgotten_at_rate_one (w : World.t) (e : Env.t) :
  World.status w = WorldStatus.RUNNING →
  (1 <= WorldConfig.decay_rate (World.config w))%Q →
  (∀ k a, World.agents (World.run_step w e).1.1 !! k = Some a →
          Agent.beliefs a = ∅)
  ∧ ∃ r, (World.run_step w e).1.2 = inr r ∧ StepResult.active_agents r = 0%Z.
Proof.
  intros Hr Hrate. unfold World.run_step. case_decide; [done|].
  destruct (Env.shuffle _ e) as [order e1].
  set (s1 := World.spread_phase order _).
  assert (Hcfg : World.config (World.tw s1) = World.config w).
  { pose proof (skeleton_spread_phase order (World.mk_tick w e1 0 0 0 0))
      as Hsk.
    unfold skeleton in Hsk. by injection Hsk as Hc _ _ _ _. }
  assert (Hall : ∀ k a, World.agents (World.tw (World.decay_phase s1)) !! k
                        = Some a → Agent.beliefs a = ∅).
  { intros k a Hk. unfold World.decay_phase in Hk.
    destruct (decay_agents_certain (World.agent_keys (World.tw s1)) s1)
      with (k := k) (a' := a) as [Hin Hout]; [by rewrite Hcfg|exact Hk|].
    destruct (decide (k ∈ World.agent_keys (World.tw s1))) as [Hk'|Hk'];
      [by apply Hin|].
    exfalso. apply Hk'. unfold World.agent_keys.
    apply list_elem_of_fmap. exists (k, a). split; [done|].
    apply elem_of_map_to_list. by apply Hout. }
  pose proof (finish_step_frame (World.tw (World.decay_phase s1))
                (World.te (World.decay_phase s1))) as (Ha' & _).
  destruct (World.finish_step _ _) as [w' e']. cbn in *.
  assert (Hall' : ∀ k a, World.agents w' !! k = Some a → Agent.beliefs a = ∅).
  { intros k a. rewrite Ha'. apply Hall. }
  split; [exact Hall'|].
  eexists. split; [reflexivity|]. cbn.
  unfold World.active_agents. by rewrite spreaders_nil.
Qed.

(** X17.  The decay rate at its extremes.  With a rate of zero or less a
    step forgets nothing: every agent keeps at least the beliefs it had,
    and the step reports no decay.  With a rate of one or more a step on a
    RUNNING world ends with no belief at all: every agent forgets
    everything, what it adopted in this very step included, and the step
    reports no active agent. *)
Theorem decay_rate_extremes (w : World.t) (e : Env.t) :
  ((WorldConfig.decay_rate (World.config w) <= 0)%Q →
   (∀ k a, World.agents w !! k = Some a →
           ∃ a', World.agents (World.run_step w e).1.1 !! k = Some a'
                 ∧ Agent.beliefs a ⊆ Agent.beliefs a')
   ∧ ∀ r, (World.run_step w e).1.2 = inr r → StepResult.decays r = 0%Z)
  ∧ (World.status w = WorldStatus.RUNNING →
     (1 <= WorldConfig.decay_rate (World.config w))%Q →
     (∀ k a, World.agents (World.run_step w e).1.1 !! k = Some a →
             Agent.beliefs a = ∅)
     ∧ ∃ r, (World.run_step w e).1.2 = inr r
            ∧ StepResult.active_agents r = 0%Z).
Proof.
  split; [apply no_decay_at_rate_zero|apply all_forgotten_at_rate_one].
Qed.

(** ** Lifecycle of a world *)

(** X18.  [start], [pause] and [resume] compose as a closed lifecycle: a
    second [start] does nothing, so [started_at] is set once; [pause] and
    [resume] are idempotent; from CREATED, start, pause, resume lead to
    RUNNING, PAUSED, RUNNING; and none of the three changes a COMPLETED or
    ARCHIVED world. *)
Theorem lifecycle_closed (w : World.t) (e e2 : Env.t) :
  World.start (World.start w e).1 e2 = ((World.start w e).1, e2)
  ∧ World.pause (World.pause w) = World.pause w
  ∧ World.resume (World.resume w) = World.resume w
  ∧ (World.status w = WorldStatus.CREATED →
     World.status (World.start w e).1 = WorldStatus.RUNNING
     ∧ World.status (World.pause (World.start w e).1) = WorldStatus.PAUSED
     ∧ World.status (World.resume (World.pause (World.start w e).1))
       = WorldStatus.RUNNING)
  ∧ (World.status w = WorldStatus.COMPLETED
     ∨ World.status w = WorldStatus.ARCHIVED →
     World.start w e = (w, e) ∧ World.pause w = w ∧ World.resume w = w)
  ∧ (World.status w ≠ WorldStatus.CREATED →
     World.started_at (World.start w e).1 = World.started_at w).
Proof.
  unfold World.start, World.pause, World.resume.
  destruct (Env.utcnow e) as [now e'].
  destruct w as [? ? ? ? ? ? [] ? ? ? ? ? ? ? ? ? ? ? ?]; cbn;
    repeat split; try done;
    match goal with H : _ ∨ _ |- _ => destruct H as [H|H]; discriminate H end.
Qed.

(** ** Sorting and slicing *)

Lemma insert_desc_perm {A} (gt : A → A → bool) (x : A) (l : list A) :
  insert_desc gt x l ≡ₚ x :: l.
Proof.
  induction l as [|y l IH]; cbn; [done|].
  destruct (gt y x); [|done]. rewrite IH. apply Permutation_swap.
Qed.

Lemma sort_desc_perm {A} (gt : A → A → bool) (l : list A) :
  sort_desc gt l ≡ₚ l.
Proof.
  induction l as [|x l IH]; cbn; [done|].
  fold (sort_desc gt l). by rewrite insert_desc_perm, IH.
Qed.

Section sorted.
Context {A : Type} (gt : A → A → bool) (R : A → A → Prop).
Hypothesis gt_R : ∀ x y, gt y x = true → R y x.
Hypothesis not_gt_R : ∀ x y, gt y x = false → R x y.
Hypothesis R_trans : ∀ x y z, R x y → R y z → R x z.

Lemma insert_desc_sorted (x : A) (l : list A) :
  StronglySorted R l → StronglySorted R (insert_desc gt x l).
Proof.
  induction 1 as [|y l Hl IH Hy]; cbn.
  - by repeat constructor.
  - destruct (gt y x) eqn:Hgt.
    + constructor; [done|].
      rewrite insert_desc_perm. constructor; [by apply gt_R|done].
    + constructor; [by constructor|].
      constructor; [by apply not_gt_R|].
      eapply Forall_impl; [exact Hy|].
      intros z Hz. eapply R_trans; [|exact Hz]. by apply not_gt_R.
Qed.

Lemma sort_desc_sorted (l : list A) : StronglySorted R (sort_desc gt l).
Proof.
  induction l as [|x l IH]; cbn; [constructor|].
  by apply insert_desc_sorted.
Qed.
End sorted.

Lemma slice_to_prefix {A} (stop : Z) (l : list A) :
  ∃ rest, l = slice_to stop l ++ rest.
Proof.
  unfold slice_to. case_match; eexists; symmetry; apply take_drop.
Qed.

Lemma slice_to_length {A} (stop : Z) (l : list A) :
  (0 <= stop)%Z →
  length (slice_to stop l) = Nat.min (Z.to_nat stop) (length l).
Proof.
  intros Hs. unfold slice_to.
  destruct (Z.ltb_spec stop 0); [lia|]. apply length_take.
Qed.

Lemma StronglySorted_lookup_le {A} (R : A → A → Prop) (l : list A)
    (i j : nat) (x y : A) :
  (∀ x, R x x) → StronglySorted R l → (i ≤ j)%nat →
  l !! i = Some x → l !! j = Some y → R x y.
Proof.
  intros Hrefl Hl. revert i j.
  induction Hl as [|z l Hl IH Hz]; intros i j Hij Hi Hj; [done|].
  destruct i as [|i], j as [|j]; cbn in *; try lia.
  - injection Hi as <-. injection Hj as <-. apply Hrefl.
  - injection Hi as <-. rewrite Forall_forall in Hz.
    by eapply Hz, list_elem_of_lookup_2.
  - eapply IH; [|done..]. lia.
Qed.

(** ** Injecting an idea *)

Lemma seeding_start (w : World.t) (idea : Idea.t) :
  seeding w idea (with_idea w idea, []).
Proof.
  unfold seeding, with_idea. cbn. split; [by destruct w|].
  split; [|split; [constructor|split; [|done]]].
  - unfold seeded. cbn. rewrite Z.add_0_r. by destruct idea.
  - by intros k ?%elem_of_nil.
Qed.

Lemma seeding_step (w : World.t) (idea : Idea.t) (st : World.t * list UUID)
    (k : UUID) :
  keyed_by_id w → seeding w idea st →
  seeding w idea (World.seed_adopter (Idea.id idea) st k)
  ∧ (∀ a, k ∉ st.2 → World.agents w !! k = Some a →
          Idea.id idea ∉ Agent.beliefs a →
          (World.seed_adopter (Idea.id idea) st k).2 = st.2 ++ [k]).
Proof.
  intros Hkey. destruct st as [w2 ids]. unfold seeding at 1. cbn [fst snd].
  intros (Hfr & Hid & Hnd & Hin & Hout).
  unfold World.seed_adopter. cbn [snd].
  destruct (World.agents w2 !! k) as [agent|] eqn:Hk.
  2:{ split; [done|]. intros a Hni Ha _. rewrite (Hout k Hni) in Hk.
      congruence. }
  unfold Agent.adopt_idea.
  destruct (bool_decide_reflect (Idea.id idea ∈ Agent.beliefs agent))
    as [Hb|Hb].
  { split; [done|]. intros a Hni Ha Hna. rewrite (Hout k Hni) in Hk.
    congruence. }
  assert (Hni : k ∉ ids).
  { intros Hk'. destruct (Hin k Hk') as (a & _ & _ & Ha2).
    rewrite Hk in Ha2. injection Ha2 as ->. apply Hb.
    rewrite adopt_idea_beliefs. apply elem_of_union_l, elem_of_singleton_2.
    reflexivity. }
  pose proof Hk as Hk1. rewrite (Hout k Hni) in Hk1.
  rewrite Hid, lookup_insert_eq. cbn.
  rewrite (Hkey _ _ Hk1).
  split; [|done].
  unfold seeding. cbn [fst snd].
  split; [|split; [|split; [|split]]].
  - exact Hfr.
  - cbn. rewrite insert_insert_eq, length_app. cbn. f_equal.
    unfold seeded, Idea.record_adoption, Idea.set_counters. cbn.
    f_equal. lia.
  - apply NoDup_app. split; [done|]. split; [|apply NoDup_singleton].
    intros x Hx ->%list_elem_of_singleton. done.
  - intros x [Hx| ->%list_elem_of_singleton]%elem_of_app.
    + destruct (Hin x Hx) as (a & Ha & Hna & Ha2). exists a.
      repeat split; [done..|].
      cbn. rewrite lookup_insert_ne; [done|]. by intros ->.
    + exists agent. repeat split; [done..|].
      cbn. rewrite lookup_insert_eq. unfold Agent.adopt_idea.
      by rewrite bool_decide_eq_false_2.
  - intros x Hx. cbn. rewrite lookup_insert_ne.
    + apply Hout. intros Hx'. apply Hx, elem_of_app. by left.
    + intros ->. apply Hx, elem_of_app. right.
      by apply list_elem_of_singleton.
Qed.

Lemma seeding_fold (w : World.t) (idea : Idea.t) (adopters : list UUID)
    (st : World.t * list UUID) :
  keyed_by_id w → seeding w idea st →
  seeding w idea (fold_left (World.seed_adopter (Idea.id idea)) adopters st).
Proof.
  intros Hkey Hst. apply fold_left_preserves; [done|].
  intros st' k Hst'. by apply seeding_step.
Qed.

Lemma seeding_fold_fresh (w : World.t) (idea : Idea.t) (adopters : list UUID)
    (st : World.t * list UUID) :
  keyed_by_id w → seeding w idea st →
  NoDup adopters →
  (∀ k, k ∈ adopters →
        (k ∉ st.2) ∧ ∃ a, World.agents w !! k = Some a
                          ∧ Idea.id idea ∉ Agent.beliefs a) →
  (fold_left (World.seed_adopter (Idea.id idea)) adopters st).2
  = st.2 ++ adopters.
Proof.
  intros Hkey. revert st.
  induction adopters as [|k adopters IH]; intros st Hst Hnd Hall; cbn.
  - by rewrite app_nil_r.
  - apply NoDup_cons in Hnd as [Hk Hnd].
    destruct (seeding_step w idea st k Hkey Hst) as [Hst' Hids].
    destruct (Hall k) as (Hni & a & Ha & Hna); [by left|].
    specialize (Hids a Hni Ha Hna).
    rewrite IH; [|done|done|].
    + rewrite Hids, <- app_assoc. done.
    + intros x Hx. destruct (Hall x) as (Hxn & Hxa); [by right|].
      split; [|done]. rewrite Hids.
      intros [?| ->%list_elem_of_singleton]%elem_of_app; done.
Qed.

Lemma inject_idea_seeding (sample : World.sampler) (w w' : World.t)
    (idea : Idea.t) (n : Z) (e e' : Env.t) (ids : list UUID) :
  keyed_by_id w →
  World.inject_idea sample w idea n e = Some (w', ids, e') →
  seeding w idea (w', ids).
Proof.
  intros Hkey. unfold World.inject_idea.
  destruct (sample _ _ e) as [[adopters e1]|]; [|done]. cbn.
  pose proof (seeding_fold w idea adopters (with_idea w idea, []) Hkey
                (seeding_start w idea)) as Hfold.
  unfold with_idea in Hfold.
  destruct (fold_left _ adopters _) as [w2 ids2]. by intros [= <- <- <-].
Qed.

Lemma first_k_sampler_sound : sampler_sound first_k_sampler.
Proof.
  intros population k e [H0 Hk]. unfold first_k_sampler.
  rewrite (proj2 (Z.leb_le _ _) H0), (proj2 (Z.leb_le _ _) Hk). cbn.
  eexists _, _. split; [reflexivity|]. split; [|split].
  - rewrite length_take. lia.
  - intros x Hx. rewrite <- (take_drop (Z.to_nat k) population).
    apply elem_of_app. by left.
  - intros Hnd. rewrite <- (take_drop (Z.to_nat k) population) in Hnd.
    by apply NoDup_app in Hnd as [? _].
Qed.

Lemma line_world_keyed : keyed_by_id line_world.
Proof.
  intros k a Hk.
  by apply (line_world_agents_Forall (λ k a, Agent.id a = k)).
Qed.

(** The sample injection succeeds. *)
Lemma seeded_build_result :
  World.inject_idea first_k_sampler line_world (line_idea 12%N) 2
    (env_const 0)
  = Some (seeded_world, seeded_ids, seeded_env).
Proof. vm_compute. reflexivity. Qed.

(** X19.  What [inject_idea] writes, whatever [random.sample] returns.  The
    idea is stored under its identifier with the world's identifier and
    with its adopter count raised by the number of identifiers returned;
    no identifier is returned twice; each is an agent that did not believe
    the idea and has now adopted it; every other agent and every other
    idea is untouched.  Nothing else of the world changes: the seeds count
    neither in [total_adoptions] nor in the idea's reach, and leave no
    event. *)
Theorem inject_idea_frame (sample : World.sampler) (w w' : World.t)
    (idea : Idea.t) (n : Z) (e e' : Env.t) (ids : list UUID) :
  keyed_by_id w →
  World.inject_idea sample w idea n e = Some (w', ids, e') →
  World.ideas w'
  = <[Idea.id idea := seeded w idea (length ids)]> (World.ideas w)
  ∧ NoDup ids
  ∧ (∀ k, k ∈ ids →
       ∃ a, World.agents w !! k = Some a
            ∧ (Idea.id idea ∉ Agent.beliefs a)
            ∧ World.agents w' !! k = Some (Agent.adopt_idea a (Idea.id idea)).1)
  ∧ (∀ k, k ∉ ids → World.agents w' !! k = World.agents w !! k)
  ∧ World.total_adoptions w' = World.total_adoptions w
  ∧ World.total_spread_events w' = World.total_spread_events w
  ∧ World.recent_events w' = World.recent_events w
  ∧ World.network w' = World.network w
  ∧ World.status w' = World.status w
  ∧ World.current_step w' = World.current_step w.
Proof.
  intros Hkey Hinj.
  destruct (inject_idea_seeding sample w w' idea n e e' ids Hkey Hinj)
    as (Hfr & Hid & Hnd & Hin & Hout).
  cbn [fst snd] in *.
  repeat (split; [assumption|]).
  rewrite <- Hfr. done.
Qed.

(** Idea 12 injected into the line world with two seeds. *)
Lemma inject_idea_frame_witness :
  World.ideas seeded_world
  = <[Idea.id (line_idea 12%N) :=
        seeded line_world (line_idea 12%N) (length seeded_ids)]>
      (World.ideas line_world)
  ∧ NoDup seeded_ids
  ∧ (∀ k, k ∈ seeded_ids →
       ∃ a, World.agents line_world !! k = Some a
            ∧ (Idea.id (line_idea 12%N) ∉ Agent.beliefs a)
            ∧ World.agents seeded_world !! k
              = Some (Agent.adopt_idea a (Idea.id (line_idea 12%N))).1)
  ∧ (∀ k, k ∉ seeded_ids →
          World.agents seeded_world !! k = World.agents line_world !! k)
  ∧ World.total_adoptions seeded_world = World.total_adoptions line_world
  ∧ World.total_spread_events seeded_world
    = World.total_spread_events line_world
  ∧ World.recent_events seeded_world = World.recent_events line_world
  ∧ World.network seeded_world = World.network line_world
  ∧ World.status seeded_world = World.status line_world
  ∧ World.current_step seeded_world = World.current_step line_world.
Proof.
  exact (inject_idea_frame first_k_sampler line_world seeded_world
           (line_idea 12%N) 2 (env_const 0) seeded_env seeded_ids
           line_world_keyed seeded_build_result).
Defined.

Lemma top_candidates_keys (w : World.t) (gt : UUID * Q → UUID * Q → bool)
    (score : Agent.t → Q) (M : Z) :
  (0 <= M)%Z →
  let cands :=
    (slice_to M (sort_desc gt
       ((λ kv : UUID * Agent.t, (kv.1, score kv.2))
          <$> map_to_list (World.agents w)))).*1 in
  length cands = Nat.min (Z.to_nat M) (size (World.agents w))
  ∧ NoDup cands
  ∧ ∀ k, k ∈ cands → is_Some (World.agents w !! k).
Proof.
  intros HM.
  set (scored := (λ kv : UUID * Agent.t, (kv.1, score kv.2))
                   <$> map_to_list (World.agents w)).
  assert (Hkeys : scored.*1 = World.agent_keys w).
  { subst scored. unfold World.agent_keys. rewrite <- list_fmap_compose.
    by apply list_fmap_ext. }
  destruct (slice_to_prefix M (sort_desc gt scored)) as [rest Hrest].
  assert (Hperm : (slice_to M (sort_desc gt scored)).*1 ++ rest.*1
                  ≡ₚ World.agent_keys w).
  { rewrite <- fmap_app, <- Hrest, <- Hkeys. by rewrite sort_desc_perm. }
  cbn. split; [|split].
  - rewrite length_fmap, slice_to_length by done.
    rewrite (Permutation_length (sort_desc_perm gt scored)).
    subst scored. by rewrite length_fmap, length_map_to_list.
  - pose proof (agent_keys_NoDup w) as Hnd. rewrite <- Hperm in Hnd.
    by apply NoDup_app in Hnd as [? _].
  - intros k Hk.
    assert (Hin : k ∈ World.agent_keys w).
    { rewrite <- Hperm. apply elem_of_app. by left. }
    unfold World.agent_keys in Hin.
    apply list_elem_of_fmap in Hin as ([k' a] & -> & Hin).
    apply elem_of_map_to_list in Hin. by eexists.
Qed.

(** X20.  With a [random.sample] that returns what it is asked for, with a
    number of seeds that is not negative, and with an idea that no agent
    believes yet, [inject_idea] does not fail and returns exactly
    [min(initial_adopters, number of agents)] identifiers; the stored idea
    counts them, and each of them believes the idea. *)
Theorem inject_idea_seeds (sample : World.sampler) (w : World.t)
    (idea : Idea.t) (n : Z) (e : Env.t) :
  sampler_sound sample →
  keyed_by_id w →
  (0 <= n)%Z →
  (∀ k a, World.agents w !! k = Some a → Idea.id idea ∉ Agent.beliefs a) →
  ∃ w' ids e',
    World.inject_idea sample w idea n e = Some (w', ids, e')
    ∧ Z.of_nat (length ids) = Z.min n (World.agent_count w)
    ∧ World.ideas w' !! Idea.id idea
      = Some (seeded w idea (length ids))
    ∧ ∀ k, k ∈ ids →
        ∃ a, World.agents w' !! k = Some a ∧ Idea.id idea ∈ Agent.beliefs a.
Proof.
  intros Hsample Hkey Hn Hnone. unfold World.inject_idea.
  set (gt := λ y x : UUID * Q, Qltb x.2 y.2).
  set (score := World.seed_score (Idea.set_world_id (World.id w) idea)).
  destruct (top_candidates_keys w gt score (Z.max (n * 10) 100))
    as (Hlen & Hnd & Hdom); [lia|].
  cbn in Hlen, Hnd, Hdom |- *.
  set (cands := (slice_to _ _).*1) in *.
  destruct (Hsample cands (Z.min n (Z.of_nat (length cands))) e)
    as (chosen & e' & -> & Hk & Hsub & Hnd'); [lia|].
  cbn.
  pose proof (seeding_fold w idea chosen (with_idea w idea, []) Hkey
                (seeding_start w idea)) as Hinv.
  assert (Hids : (fold_left (World.seed_adopter (Idea.id idea)) chosen
                    (with_idea w idea, [])).2 = chosen).
  { apply (seeding_fold_fresh w idea chosen (with_idea w idea, []) Hkey
             (seeding_start w idea) (Hnd' Hnd)).
    intros k Hk'. split; [by intros ?%elem_of_nil|].
    destruct (Hdom k (Hsub k Hk')) as [a Ha]. exists a. split; [done|].
    by eapply Hnone. }
  unfold with_idea in Hinv, Hids. cbn in Hinv, Hids.
  destruct (fold_left _ chosen _) as [w2 ids]. cbn in Hids. subst ids.
  destruct Hinv as (Hfr & Hid & Hnd2 & Hin & Hout). cbn [fst snd] in *.
  eexists _, _, _. split; [reflexivity|]. split; [|split].
  - rewrite Hk, Hlen. unfold World.agent_count. lia.
  - by rewrite Hid, lookup_insert_eq.
  - intros k Hk'. destruct (Hin k Hk') as (a & Ha & Hna & Ha').
    eexists. split; [exact Ha'|]. rewrite adopt_idea_beliefs.
    apply elem_of_union_l, elem_of_singleton_2. reflexivity.
Qed.

Lemma line_world_nobody_believes_12 :
  ∀ k a, World.agents line_world !! k = Some a →
         Idea.id (line_idea 12%N) ∉ Agent.beliefs a.
Proof.
  apply (line_world_agents_Forall
           (λ _ a, Idea.id (line_idea 12%N) ∉ Agent.beliefs a)); cbn.
  - by intros ?%elem_of_singleton.
  - by intros ?%elem_of_singleton.
  - by intros ?%elem_of_empty.
Qed.

(** Two seeds asked for in the line world of three agents. *)
Lemma inject_idea_seeds_witness :
  ∃ w' ids e',
    World.inject_idea first_k_sampler line_world (line_idea 12%N) 2
      (env_const 0) = Some (w', ids, e')
    ∧ Z.of_nat (length ids) = Z.min 2 (World.agent_count line_world)
    ∧ World.ideas w' !! Idea.id (line_idea 12%N)
      = Some (seeded line_world (line_idea 12%N) (length ids))
    ∧ ∀ k, k ∈ ids →
        ∃ a, World.agents w' !! k = Some a
             ∧ Idea.id (line_idea 12%N) ∈ Agent.beliefs a.
Proof.
  apply (inject_idea_seeds first_k_sampler line_world (line_idea 12%N) 2
           (env_const 0) first_k_sampler_sound line_world_keyed).
  - discriminate.
  - exact line_world_nobody_believes_12.
Defined.

(** ** Snapshots *)

Lemma regional_stats_lookup (f : pystr → RegionStat.t) (regions : list pystr)
    (stats : gmap pystr RegionStat.t) (region : pystr) :
  fold_left (λ stats r, <[r := f r]> stats) regions stats !! region
  = if decide (region ∈ regions) then Some (f region) else stats !! region.
Proof.
  revert stats. induction regions as [|r regions IH]; intros stats; cbn.
  - rewrite decide_False; [done|]. by intros ?%elem_of_nil.
  - rewrite IH. destruct (decide (region ∈ regions)) as [Hin|Hin].
    + rewrite decide_True; [done|]. by right.
    + destruct (decide (region = r)) as [->|Hne].
      * rewrite decide_True by by left. by rewrite lookup_insert_eq.
      * rewrite decide_False by (by intros [?|?]%elem_of_cons).
        by rewrite lookup_insert_ne.
Qed.

Lemma sum_beliefs_ge (l : list Agent.t) (n : Z) :
  (n + Z.of_nat (length (filter (λ a, Agent.beliefs a ≠ ∅) l))
   <= fold_left (λ n a, n + Z.of_nat (size (Agent.beliefs a))) l n)%Z.
Proof.
  revert n. induction l as [|a l IH]; intros n; [cbn; lia|].
  cbn [fold_left].
  destruct (decide (Agent.beliefs a ≠ ∅)) as [Hne|He].
  - rewrite filter_cons_True by done. cbn.
    assert (size (Agent.beliefs a) ≠ 0%nat).
    { intros H0. apply Hne. by apply size_empty_iff, leibniz_equiv in H0. }
    specialize (IH (n + Z.of_nat (size (Agent.beliefs a)))%Z). lia.
  - rewrite filter_cons_False by done.
    specialize (IH (n + Z.of_nat (size (Agent.beliefs a)))%Z). lia.
Qed.

Lemma region_stat_bounds (w : World.t) (region : pystr) :
  let rs := World.region_stat w region in
  (0 <= RegionStat.active_agents rs <= RegionStat.total_agents rs)%Z
  ∧ (RegionStat.total_agents rs <= World.agent_count w)%Z
  ∧ (RegionStat.active_agents rs <= RegionStat.total_adoptions rs)%Z
  ∧ (0 <= RegionStat.saturation rs <= 1)%Q.
Proof.
  unfold World.region_stat. cbn.
  set (region_agents := filter _ (World.agent_values w)).
  pose proof (length_filter (λ a, Agent.beliefs a ≠ ∅) region_agents) as Hact.
  assert (Htot : (length region_agents ≤ size (World.agents w))%nat).
  { subst region_agents. etransitivity; [apply length_filter|].
    unfold World.agent_values. by rewrite length_fmap, length_map_to_list. }
  split; [lia|]. split; [unfold World.agent_count; lia|].
  split; [apply (sum_beliefs_ge region_agents 0)|].
  destruct region_agents as [|a l] eqn:Hl; cbn [IdeaTarget.is_nil]; [lra|].
  rewrite <- Hl in *. apply ratio_unit; [done|]. rewrite Hl. cbn. lia.
Qed.

(** X21.  A snapshot is consistent with the world it is taken of.  There
    are no more active agents than agents; [idea_stats] has one entry per
    idea of the catalog, sorted by adopters, largest first; [regional_stats]
    has an entry exactly for the regions of the configuration, and in each
    the active agents are at most the region's agents, which are at most
    the world's, the belief count is at least the active agents, and the
    saturation is between 0 and 1. *)
Theorem snapshot_consistent (w : World.t) (e : Env.t) :
  let snap := (World.get_snapshot w e).1 in
  (0 <= WorldSnapshot.active_agents snap <= WorldSnapshot.total_agents snap)%Z
  ∧ WorldSnapshot.idea_stats snap
    ≡ₚ World.idea_stat <$> (map_to_list (World.ideas w)).*2
  ∧ Z.of_nat (length (WorldSnapshot.idea_stats snap))
    = WorldSnapshot.total_ideas snap
  ∧ (∀ i j above below, (i ≤ j)%nat →
       WorldSnapshot.idea_stats snap !! i = Some above →
       WorldSnapshot.idea_stats snap !! j = Some below →
       (IdeaStat.adopters below <= IdeaStat.adopters above)%Z)
  ∧ (∀ region,
       region ∈ WorldConfig.regions (World.config w) ↔
       is_Some (WorldSnapshot.regional_stats snap !! region))
  ∧ (∀ region rs,
       WorldSnapshot.regional_stats snap !! region = Some rs →
       (0 <= RegionStat.active_agents rs <= RegionStat.total_agents rs)%Z
       ∧ (RegionStat.total_agents rs <= WorldSnapshot.total_agents snap)%Z
       ∧ (RegionStat.active_agents rs <= RegionStat.total_adoptions rs)%Z
       ∧ (0 <= RegionStat.saturation rs <= 1)%Q).
Proof.
  unfold World.get_snapshot. destruct (Env.utcnow e) as [now e']. cbn.
  set (gt := λ y x : IdeaStat.t, (IdeaStat.adopters x <? IdeaStat.adopters y)%Z).
  split; [|split; [|split; [|split; [|split]]]].
  - unfold World.active_agents, World.spreaders, World.agent_count.
    rewrite length_fmap.
    pose proof (length_filter (λ kv : UUID * Agent.t, Agent.beliefs kv.2 ≠ ∅)
                  (map_to_list (World.agents w))) as H.
    rewrite length_map_to_list in H. lia.
  - apply sort_desc_perm.
  - rewrite (Permutation_length (sort_desc_perm gt _)).
    unfold World.idea_count. by rewrite !length_fmap, length_map_to_list.
  - intros i j above below Hij Hi Hj.
    eapply (StronglySorted_lookup_le
              (λ x y, (IdeaStat.adopters y <= IdeaStat.adopters x)%Z));
      [intros; lia| |exact Hij|exact Hi|exact Hj].
    apply (sort_desc_sorted gt).
    + intros x y Hgt. apply Z.ltb_lt in Hgt. lia.
    + intros x y Hgt. apply Z.ltb_ge in Hgt. lia.
    + intros x y z; lia.
  - intros region. rewrite regional_stats_lookup.
    case_decide as Hin.
    + split; [intros _; by eexists|done].
    + rewrite lookup_empty. split; [done|]. by intros [? ?].
  - intros region rs. rewrite regional_stats_lookup.
    case_decide; [|by rewrite lookup_empty].
    intros [= <-]. apply region_stat_bounds.
Qed.

(** ** Random profiles *)

Lemma same_uuids_trans (e1 e2 e3 : Env.t) :
  same_uuids e1 e2 → same_uuids e2 e3 → same_uuids e1 e3.
Proof. intros [H1 H2] [H3 H4]. split; congruence. Qed.

Lemma randbelow_uuids (n : N) (e : Env.t) :
  same_uuids e (Env.randbelow n e).2.
Proof. done. Qed.

Lemma random_uuids (e : Env.t) : same_uuids e (Env.random e).2.
Proof. done. Qed.

Lemma randbelow_lt (n : N) (e : Env.t) :
  (0 < n)%N → ((Env.randbelow n e).1 < n)%N.
Proof. intros Hn. apply N.mod_upper_bound. lia. Qed.

Lemma choice_spec {A} (d : A) (seq : list A) (e : Env.t) :
  seq ≠ [] →
  (Env.choice d seq e).1 ∈ seq ∧ same_uuids e (Env.choice d seq e).2.
Proof.
  intros Hne. unfold Env.choice.
  pose proof (randbelow_uuids (N.of_nat (length seq)) e) as Hu.
  pose proof (randbelow_lt (N.of_nat (length seq)) e) as Hj.
  destruct (Env.randbelow _ e) as [j e1]. cbn [fst snd] in *.
  split; [|done]. apply list_elem_of_In, nth_In.
  destruct seq; [done|]. cbn [length] in *. lia.
Qed.

Lemma randint_spec (a b : Z) (e : Env.t) :
  (a <= b)%Z →
  (a <= (Env.randint a b e).1 <= b)%Z ∧ same_uuids e (Env.randint a b e).2.
Proof.
  intros Hab. unfold Env.randint.
  pose proof (randbelow_uuids (Z.to_N (b - a + 1)) e) as Hu.
  pose proof (randbelow_lt (Z.to_N (b - a + 1)) e) as Hr.
  destruct (Env.randbelow _ e) as [r e1]. cbn [fst snd] in *.
  split; [lia|done].
Qed.

Lemma sample_from_spec {A} (k : nat) (pool : list A) (m : nat) (e : Env.t) :
  (k ≤ m ≤ length pool)%nat →
  length (Env.sample_from k pool m e).1 = k
  ∧ (Env.sample_from k pool m e).1 ⊆ pool
  ∧ same_uuids e (Env.sample_from k pool m e).2.
Proof.
  revert pool m e.
  induction k as [|k IH]; intros pool m e Hkm; cbn [Env.sample_from].
  - split; [done|]. split; [|done]. by intros x ?%elem_of_nil.
  - pose proof (randbelow_uuids (N.of_nat m) e) as Hu.
    assert (Hj : (N.to_nat (Env.randbelow (N.of_nat m) e).1 < m)%nat).
    { pose proof (randbelow_lt (N.of_nat m) e). lia. }
    destruct (Env.randbelow (N.of_nat m) e) as [j e1]. cbn [fst snd] in Hj, Hu.
    destruct (lookup_lt_is_Some_2 pool (N.to_nat j)) as [x Hx]; [lia|].
    destruct (lookup_lt_is_Some_2 pool (pred m)) as [y Hy]; [lia|].
    rewrite Hx, Hy.
    destruct (IH (<[N.to_nat j := y]> pool) (pred m) e1) as (Hlen & Hsub & Hu');
      [rewrite length_insert; lia|].
    destruct (Env.sample_from k _ _ e1) as [rest e2]. cbn [fst snd] in *.
    split; [cbn; by rewrite Hlen|]. split; [|by eapply same_uuids_trans].
    intros z [->|Hz]%elem_of_cons.
    + by eapply list_elem_of_lookup_2.
    + apply Hsub in Hz. apply list_elem_of_lookup in Hz as [i Hi].
      destruct (decide (i = N.to_nat j)) as [->|Hne].
      * rewrite list_lookup_insert_eq in Hi by (by eapply lookup_lt_Some).
        injection Hi as <-. by eapply list_elem_of_lookup_2.
      * rewrite list_lookup_insert_ne in Hi by done.
        by eapply list_elem_of_lookup_2.
Qed.

Lemma random_profile_total (region : pystr) (e : Env.t) :
  ∃ profile e',
    AgentProfile.random region e = Some (profile, e')
    ∧ AgentProfile.region profile = region
    ∧ AgentProfile.age_group profile ∈ AgentProfile.age_groups_catalog
    ∧ (2 ≤ length (AgentProfile.interests profile) ≤ 5)%nat
    ∧ AgentProfile.interests profile ⊆ AgentProfile.interests_pool
    ∧ same_uuids e e'.
Proof.
  unfold AgentProfile.random.
  destruct (choice_spec [] AgentProfile.age_groups_catalog e) as [Hage Hu1];
    [done|].
  destruct (Env.choice [] AgentProfile.age_groups_catalog e) as [age e1].
  cbn [fst snd] in Hage, Hu1.
  destruct (randint_spec 2 5 e1) as [Hk Hu2]; [lia|].
  destruct (Env.randint 2 5 e1) as [k e2]. cbn [fst snd] in Hk, Hu2.
  unfold Env.sample.
  rewrite (proj2 (Z.leb_le 0 k)) by lia.
  change (length AgentProfile.interests_pool) with 16%nat.
  rewrite (proj2 (Z.leb_le k _)) by lia.
  cbn [andb mbind option_bind].
  destruct (sample_from_spec (Z.to_nat k) AgentProfile.interests_pool
              16 e2) as (Hlen & Hsub & Hu3);
    [change (length AgentProfile.interests_pool) with 16%nat; lia|].
  destruct (Env.sample_from _ _ _ e2) as [interests e3].
  cbn [fst snd] in Hlen, Hsub, Hu3.
  destruct (Env.betavariate 2 2 e3) as [tt e4] eqn:H4.
  destruct (Env.betavariate 2 2 e4) as [op e5] eqn:H5.
  destruct (Env.betavariate 1 5 e5) as [inf e6] eqn:H6.
  eexists _, _. split; [reflexivity|]. cbn [AgentProfile.region
    AgentProfile.age_group AgentProfile.interests].
  split; [done|]. split; [done|]. split; [lia|]. split; [done|].
  eapply same_uuids_trans; [exact Hu1|].
  eapply same_uuids_trans; [exact Hu2|].
  eapply same_uuids_trans; [exact Hu3|].
  injection H4 as _ <-. injection H5 as _ <-. injection H6 as _ <-. done.
Qed.

(** X7.  [AgentProfile.random] never fails, whatever the draws: the
    profile has the region asked for, an age group of the catalog, and
    between two and five interests, all taken from the pool. *)
Theorem random_profile_spec (region : pystr) (e : Env.t) :
  ∃ profile e',
    AgentProfile.random region e = Some (profile, e')
    ∧ AgentProfile.region profile = region
    ∧ AgentProfile.age_group profile ∈ AgentProfile.age_groups_catalog
    ∧ (2 ≤ length (AgentProfile.interests profile) ≤ 5)%nat
    ∧ AgentProfile.interests profile ⊆ AgentProfile.interests_pool.
Proof.
  destruct (random_profile_total region e)
    as (profile & e' & H1 & H2 & H3 & H4 & H5 & _).
  by exists profile, e'.
Qed.

(** ** The initial population *)

Lemma choices_spec {A} (population : list A) (weights : list Q) (e e' : Env.t)
    (x : A) :
  Env.choices population weights e = Some (x, e') →
  x ∈ population ∧ same_uuids e e'.
Proof.
  unfold Env.choices. case_match; [done|].
  destruct (last _) as [total|]; [|done].
  case_match; [done|].
  pose proof (random_uuids e) as Hu.
  destruct (Env.random e) as [u e1].
  destruct (population !! _) as [y|] eqn:Hy; [|done].
  intros [= <- <-]. split; [|done]. by eapply list_elem_of_lookup_2.
Qed.

Lemma population_of_start (w : World.t) :
  World.agents w = ∅ → World.network w = Graph.empty → population_of w w.
Proof.
  intros Ha Hn. split; [by destruct w|]. rewrite Ha, Hn.
  split; [by rewrite dom_empty_L|]. split; [|done].
  intros u v. unfold Graph.has_edge. cbn. by intros ?%elem_of_empty.
Qed.

Lemma create_agent_population (w0 : World.t) (st st' : World.t * Env.t) :
  population_of w0 st.1 → World.create_agent st = Some st' →
  population_of w0 st'.1
  ∧ Env.uuids st'.2 = Env.uuids st.2
  ∧ Env.uuid_pos st'.2 = S (Env.uuid_pos st.2)
  ∧ dom (World.agents st'.1)
    = {[Env.uuids st.2 (Env.uuid_pos st.2)]} ∪ dom (World.agents st.1).
Proof.
  destruct st as [w e]. cbn [fst snd].
  intros (Hfr & Hnodes & Hsym & Hag).
  unfold World.create_agent.
  destruct (Env.choices _ _ e) as [[region e1]|] eqn:Hch; [|done].
  cbn [mbind option_bind].
  apply choices_spec in Hch as [Hregion [Hu1 Hp1]].
  destruct (random_profile_total region e1)
    as (profile & e2 & Hprof & Hreg & _ & _ & _ & [Hu2 Hp2]).
  rewrite Hprof. cbn [mbind option_bind].
  unfold Env.uuid4. intros [= <-]. cbn [fst snd].
  assert (Hcfg : World.config w = World.config w0
                 ∧ World.id w = World.id w0).
  { rewrite <- Hfr. done. }
  destruct Hcfg as [Hcfg Hid].
  split; [|split; [cbn; congruence|split; [cbn; congruence|]]].
  - split; [exact Hfr|]. cbn. split; [|split; [done|]].
    + rewrite dom_insert_L. by rewrite Hnodes.
    + intros k a. destruct (decide (k = Env.uuids e2 (Env.uuid_pos e2)))
        as [->|Hne].
      * rewrite lookup_insert_eq. intros [= <-]. unfold initial_agent. cbn.
        rewrite Hreg, <- Hcfg. by repeat split.
      * rewrite lookup_insert_ne by done. apply Hag.
  - cbn. rewrite dom_insert_L. by rewrite Hu2, Hu1, Hp2, Hp1.
Qed.

Lemma add_connection_initial (w0 : World.t) (g : Graph.t UUID) (k v : UUID)
    (a : Agent.t) :
  initial_agent w0 g k a →
  initial_agent w0 (Graph.add_edge g k v) k (Agent.add_connection a v).
Proof.
  intros (Hid & Hw & Hst & Hb & Hx & Hr & Hc). unfold Agent.add_connection.
  case_decide; cbn.
  - repeat split; try done. intros x [->%elem_of_singleton|Hx']%elem_of_union.
    + apply elem_of_add_edge. by left.
    + apply elem_of_add_edge. right. right. by apply Hc.
  - repeat split; try done. intros x Hx'.
    apply elem_of_add_edge. right. right. by apply Hc.
Qed.

Lemma initial_agent_add_edge (w0 : World.t) (g : Graph.t UUID) (k u v : UUID)
    (a : Agent.t) :
  initial_agent w0 g k a → initial_agent w0 (Graph.add_edge g u v) k a.
Proof.
  intros (Hid & Hw & Hst & Hb & Hx & Hr & Hc). repeat split; try done.
  intros x Hx'. apply elem_of_add_edge. right. right. by apply Hc.
Qed.

Lemma connect_frame (ids : list UUID) (w w' : World.t) (ij : nat * nat)
    (a : gmap UUID Agent.t) (g : Graph.t UUID) :
  World.connect ids w ij = Some w' →
  World.set_agents a (World.set_network g w')
  = World.set_agents a (World.set_network g w).
Proof.
  unfold World.connect.
  destruct (ids !! ij.1) as [ui|]; [|done]. cbn.
  destruct (ids !! ij.2) as [uj|]; [|done]. cbn.
  destruct (World.agents w !! ui) as [ai|]; [|done]. cbn.
  destruct (<[ui:=_]> (World.agents w) !! uj) as [aj|]; [|done]. cbn.
  by intros [= <-].
Qed.

Lemma connect_population (w0 : World.t) (ids : list UUID) (w w' : World.t)
    (ij : nat * nat) :
  population_of w0 w → World.connect ids w ij = Some w' →
  population_of w0 w' ∧ dom (World.agents w') = dom (World.agents w).
Proof.
  destruct ij as [i j]. intros (Hfr & Hnodes & Hsym & Hag) Hc.
  pose proof (connect_frame ids w w' (i, j) (World.agents w0)
                (World.network w0) Hc) as Hframe.
  apply connect_Some in Hc
    as (ui & uj & ai & aj & Hi & Hj & Hai & Haj & Hagents & Hnet).
  assert (Hui : ui ∈ dom (World.agents w)) by (apply elem_of_dom; by eexists).
  assert (Huj : uj ∈ dom (World.agents w)).
  { destruct (decide (uj = ui)) as [->|Hne]; [done|].
    rewrite lookup_insert_ne in Haj by done. apply elem_of_dom. by eexists. }
  assert (Hdom : dom (World.agents w') = dom (World.agents w)).
  { rewrite Hagents, !dom_insert_L.
    apply leibniz_equiv, set_equiv. intros x.
    rewrite !elem_of_union, !elem_of_singleton. split; [|tauto].
    intros [->|[->|?]]; done. }
  split; [|exact Hdom]. split; [|split; [|split]].
  - by rewrite Hframe.
  - rewrite Hnet, Hdom. cbn. rewrite Hnodes.
    apply leibniz_equiv, set_equiv. intros x.
    rewrite !elem_of_union, !elem_of_singleton. split; [|tauto].
    intros [[->| ->]|?]; done.
  - intros u v. rewrite Hnet. unfold Graph.has_edge.
    rewrite !elem_of_add_edge. intros [[-> ->]|[[-> ->]|Huv]]; [tauto|tauto|].
    right. right. by apply Hsym.
  - intros k a. rewrite Hagents, Hnet.
    destruct (decide (k = uj)) as [->|Hkj].
    + rewrite lookup_insert_eq. intros [= <-].
      assert (Haj' : initial_agent w0 (Graph.add_edge (World.network w) ui uj)
                       uj aj).
      { destruct (decide (uj = ui)) as [->|Hne].
        - rewrite lookup_insert_eq in Haj. injection Haj as <-.
          by apply add_connection_initial, Hag.
        - rewrite lookup_insert_ne in Haj by done.
          by apply initial_agent_add_edge, Hag. }
      destruct Haj' as (Hid & Hw & Hst & Hb & Hx & Hr & Hc').
      unfold Agent.add_connection. case_decide; cbn; repeat split; try done.
      intros x [->%elem_of_singleton|Hx']%elem_of_union; [|by apply Hc'].
      apply elem_of_add_edge. right. by left.
    + rewrite lookup_insert_ne by done.
      destruct (decide (k = ui)) as [->|Hki].
      * rewrite lookup_insert_eq. intros [= <-].
        by apply add_connection_initial, Hag.
      * rewrite lookup_insert_ne by done. intros Hk.
        by apply initial_agent_add_edge, Hag.
Qed.

Lemma create_agents_population (w0 : World.t) (l : list nat)
    (st st' : World.t * Env.t) :
  population_of w0 st.1 →
  foldl_opt (λ st _, World.create_agent st) l st = Some st' →
  population_of w0 st'.1
  ∧ dom (World.agents st'.1)
    = list_to_set ((λ i, Env.uuids st.2 (Env.uuid_pos st.2 + i)%nat)
                     <$> seq 0 (length l))
      ∪ dom (World.agents st.1).
Proof.
  revert st. induction l as [|x l IH]; intros st Hst; cbn.
  - intros [= <-]. split; [done|]. by rewrite union_empty_l_L.
  - destruct (World.create_agent st) as [st1|] eqn:Hc; [|done].
    destruct (create_agent_population w0 st st1 Hst Hc)
      as (Hst1 & Hu & Hp & Hd).
    intros Hfold. destruct (IH st1 Hst1 Hfold) as [Hst' Hd'].
    split; [done|]. rewrite Hd', Hd, Hu, Hp, Nat.add_0_r.
    rewrite <- fmap_S_seq, <- list_fmap_compose.
    rewrite union_assoc_L. f_equal.
    rewrite (union_comm_L _ {[_]}). f_equal. f_equal.
    apply list_fmap_ext. intros i y _. cbn. f_equal. lia.
Qed.

Lemma create_network_population (nx : NetworkX.t) (w0 w w' : World.t)
    (e e' : Env.t) :
  population_of w0 w → World._create_network nx w e = Some (w', e') →
  population_of w0 w' ∧ dom (World.agents w') = dom (World.agents w).
Proof.
  intros Hw. unfold World._create_network.
  destruct (match WorldConfig.network_type (World.config w) with
            | NetworkType.SCALE_FREE => _ | _ => _ end)
    as [[temp_graph e1]|]; [|done]. cbn.
  destruct (foldl_opt _ _ w) as [w1|] eqn:Hfold; [|done]. cbn.
  intros [= <- <-].
  apply (foldl_opt_preserves _
           (λ w1, population_of w0 w1
                  ∧ dom (World.agents w1) = dom (World.agents w)) _ _ _)
    in Hfold; [done|done|].
  intros w2 ij w3 _ [Hw2 Hd2] Hc.
  destruct (connect_population w0 _ w2 w3 ij Hw2 Hc) as [Hw3 Hd3].
  split; [done|congruence].
Qed.

Lemma initialize_population_of (nx : NetworkX.t) (w w' : World.t)
    (e e' : Env.t) :
  World.agents w = ∅ → World.network w = Graph.empty →
  World.initialize_population nx w e = Some (w', e') →
  population_of w w'
  ∧ dom (World.agents w')
    = list_to_set
        ((λ i, Env.uuids e (Env.uuid_pos e + i)%nat)
           <$> seq 0 (Z.to_nat (WorldConfig.population_size (World.config w)))).
Proof.
  intros Ha Hn. unfold World.initialize_population.
  destruct (foldl_opt _ _ (w, e)) as [[w1 e1]|] eqn:Hfold; [|done]. cbn.
  intros Hnet.
  destruct (create_agents_population w _ (w, e) (w1, e1)
              (population_of_start w Ha Hn) Hfold) as [Hw1 Hd1].
  destruct (create_network_population nx w w1 w' e1 e' Hw1 Hnet) as [Hw' Hd'].
  split; [done|]. cbn in Hd1.
  rewrite Hd', Hd1, length_seq, Ha, dom_empty_L. by rewrite union_empty_r_L.
Qed.

(** X22.  The population [initialize_population] builds in a world without
    agents and edges.  There are at most [population_size] agents, and
    exactly that many when the identifiers [uuid4] hands out are pairwise
    different.  The nodes of the graph are the agents and its adjacency is
    symmetric.  Every agent is stored under its own identifier, belongs to
    this world, is in the default state without beliefs or exposures, lives
    in a region of the configuration, and is connected only along edges of
    the graph.  Status, step counter, ideas and configuration are
    untouched. *)
Theorem initial_population (nx : NetworkX.t) (w w' : World.t) (e e' : Env.t) :
  World.agents w = ∅ → World.network w = Graph.empty →
  World.initialize_population nx w e = Some (w', e') →
  (World.agent_count w'
   <= Z.max 0 (WorldConfig.population_size (World.config w)))%Z
  ∧ ((∀ i j, (i < j < Z.to_nat (WorldConfig.population_size
                                 (World.config w)))%nat →
             Env.uuids e (Env.uuid_pos e + i)%nat
             ≠ Env.uuids e (Env.uuid_pos e + j)%nat) →
     World.agent_count w'
     = Z.max 0 (WorldConfig.population_size (World.config w)))
  ∧ Graph.nodes (World.network w') = dom (World.agents w')
  ∧ (∀ u v, Graph.has_edge (World.network w') u v →
            Graph.has_edge (World.network w') v u)
  ∧ (∀ k a, World.agents w' !! k = Some a →
       Agent.id a = k
       ∧ Agent.world_id a = World.id w
       ∧ Agent.state a = AgentState.default
       ∧ Agent.beliefs a = ∅
       ∧ Agent.idea_exposures a = ∅
       ∧ AgentProfile.region (Agent.profile a)
         ∈ WorldConfig.regions (World.config w)
       ∧ ∀ v, v ∈ Agent.connections a →
              Graph.has_edge (World.network w') k v)
  ∧ World.status w' = World.status w
  ∧ World.current_step w' = World.current_step w
  ∧ World.ideas w' = World.ideas w
  ∧ World.config w' = World.config w.
Proof.
  intros Ha Hn Hinit.
  destruct (initialize_population_of nx w w' e e' Ha Hn Hinit)
    as [(Hfr & Hnodes & Hsym & Hag) Hdom].
  split; [|split; [|split; [done|split; [done|split; [exact Hag|]]]]].
  - unfold World.agent_count. rewrite <- size_dom, Hdom.
    etransitivity; [apply Nat2Z.inj_le, size_list_to_set_le|].
    rewrite length_fmap, length_seq. lia.
  - intros Hfresh. unfold World.agent_count. rewrite <- size_dom, Hdom.
    rewrite size_list_to_set.
    + rewrite length_fmap, length_seq. lia.
    + apply NoDup_fmap_2_strong; [|apply NoDup_seq].
      intros i j Hi Hj Heq. apply elem_of_seq in Hi, Hj.
      destruct (Nat.lt_trichotomy i j) as [Hlt|[->|Hgt]]; [|done|].
      * exfalso. by apply (Hfresh i j); [lia|].
      * exfalso. by apply (Hfresh j i); [lia|].
  - rewrite <- Hfr. done.
Qed.

(** The GEO_LOCAL world of three agents. *)
Lemma initial_population_witness :
  (World.agent_count geo_world
   <= Z.max 0 (WorldConfig.population_size geo_config))%Z
  ∧ Graph.nodes (World.network geo_world) = dom (World.agents geo_world)
  ∧ World.config geo_world = geo_config.
Proof.
  pose proof (initial_population one_edge_generators
                (World.new 1%N 2%N (py "geo") geo_config [] true
                   (env_const 0)).1
                geo_world
                (World.new 1%N 2%N (py "geo") geo_config [] true
                   (env_const 0)).2
                geo_env eq_refl eq_refl geo_build_result)
    as (Hcount & _ & Hnodes & _ & _ & _ & _ & _ & Hcfg).
  split; [exact Hcount|]. split; [exact Hnodes|exact Hcfg].
Defined.

(** ** Reading dictionaries *)

Lemma idea_from_dict_missing (d : list (string * Value.t)) (e : Env.t) :
  (Value.lookup "id" d = None ∨ Value.lookup "creator_id" d = None
   ∨ Value.lookup "world_id" d = None ∨ Value.lookup "text" d = None) →
  Idea.from_dict (Value.VDict d) e = None.
Proof.
  intros Hmiss. unfold Idea.from_dict. cbn [Value.getitem].
  destruct (Value.lookup "id" d ≫= Value.as_uuid) as [x1|] eqn:H1;
    cbn [mbind option_bind]; [|done].
  destruct (Value.lookup "creator_id" d ≫= Value.as_uuid) as [x2|] eqn:H2;
    cbn [mbind option_bind]; [|done].
  destruct (Value.lookup "world_id" d ≫= Value.as_uuid) as [x3|] eqn:H3;
    cbn [mbind option_bind]; [|done].
  destruct (Value.lookup "text" d ≫= Value.as_str) as [x4|] eqn:H4;
    cbn [mbind option_bind]; [|done].
  exfalso.
  destruct Hmiss as [H|[H|[H|H]]]; rewrite H in *; done.
Qed.

Lemma agent_from_dict_missing (d : list (string * Value.t)) (key : string) :
  key ∈ ["id"; "world_id"; "profile"; "state"; "connections"; "beliefs"]%string →
  Value.lookup key d = None →
  Agent.from_dict (Value.VDict d) = None.
Proof.
  intros Hkey Hmiss. unfold Agent.from_dict. cbn [Value.getitem].
  repeat (match goal with
          | |- (?x ≫= _) = None =>
              let H := fresh in
              destruct x eqn:H; cbn [mbind option_bind]; [|done]
          end).
  exfalso.
  repeat (apply elem_of_cons in Hkey as [->|Hkey];
            [rewrite Hmiss in *; done|]).
  by apply elem_of_nil in Hkey.
Qed.

(** X10.  What [from_dict] requires.  [Idea.from_dict] fails on a
    dictionary that lacks one of the keys id, creator_id, world_id, text,
    and on a dictionary with just these four it returns the idea with every
    other field at its default (virality 0.2, valence 0.5, complexity 0.3,
    budget 3, counters 0) and the creation time read from the clock.
    [Agent.from_dict] has no default: it fails when any of its six
    top-level keys is missing. *)
Theorem from_dict_missing_keys (d : list (string * Value.t)) (key : string)
    (i c w : UUID) (text : pystr) (e : Env.t) :
  ((Value.lookup "id" d = None ∨ Value.lookup "creator_id" d = None
    ∨ Value.lookup "world_id" d = None ∨ Value.lookup "text" d = None) →
   Idea.from_dict (Value.VDict d) e = None)
  ∧ Idea.from_dict
      (Value.VDict [("id", Value.of_uuid i); ("creator_id", Value.of_uuid c);
                    ("world_id", Value.of_uuid w);
                    ("text", Value.VStr text)]%string)
      e
    = Some (Idea.mk i c w text [] [] IdeaTarget.default 0.2%Q 0.5%Q 0.3%Q
              None None 0 0 3 None 0 0 0 (Env.utcnow e).1,
            (Env.utcnow e).2)
  ∧ (key ∈ ["id"; "world_id"; "profile"; "state"; "connections";
            "beliefs"]%string →
     Value.lookup key d = None →
     Agent.from_dict (Value.VDict d) = None).
Proof.
  split; [apply idea_from_dict_missing|].
  split; [|apply agent_from_dict_missing].
  unfold Idea.from_dict, Value.if_set. cbn.
  rewrite !uuid_parse_str. by destruct (Env.utcnow e).
Qed.

(** ** The manager *)

Lemma size_insert_present {A} (m : gmap UUID A) (k : UUID) (x y : A) :
  m !! k = Some x → size (<[k := y]> m) = size m.
Proof. intros Hk. apply map_size_insert_Some. by eexists. Qed.

Lemma size_insert_le {A} (m : gmap UUID A) (k : UUID) (y : A) :
  (size (<[k := y]> m) ≤ S (size m))%nat.
Proof.
  destruct (m !! k) as [x|] eqn:Hk.
  - rewrite (size_insert_present m k x y Hk). lia.
  - by rewrite map_size_insert_None.
Qed.

(** X23.  No operation of the manager takes it over its capacity: when the
    manager holds at most [max_concurrent_worlds] worlds, it still does
    after [create_world] (when it succeeds), [start_world], [stop_world],
    [delete_world] and [step_world], whatever the world identifier. *)
Theorem capacity_kept (nx : NetworkX.t) (m : SimulationManager.t)
    (world_id creator_id : UUID) (name description : pystr)
    (config : option WorldConfig.t) (is_public : bool) (steps : Z)
    (e : Env.t) :
  within_capacity m →
  match SimulationManager.create_world nx m creator_id name description config
          is_public e with
  | Some (m', _, _) => within_capacity m'
  | None => True
  end
  ∧ within_capacity (SimulationManager.start_world m world_id e).1.1
  ∧ within_capacity (SimulationManager.stop_world m world_id).1
  ∧ within_capacity (SimulationManager.delete_world m world_id).1
  ∧ within_capacity (SimulationManager.step_world m world_id steps e).1.1.
Proof.
  intros Hm. unfold within_capacity in *.
  split; [|split; [|split; [|split]]].
  - unfold SimulationManager.create_world.
    destruct (Z.leb_spec (SimulationManager.max_concurrent_worlds m)
                (Z.of_nat (size (SimulationManager.worlds m)))) as [Hfull|Hroom];
      [done|].
    destruct (Env.uuid4 e) as [wid e1].
    destruct (World.new _ _ _ _ _ _ _) as [world e2].
    destruct (World.initialize_population nx world e2) as [[world' e3]|];
      [|done].
    cbn.
    pose proof (size_insert_le (SimulationManager.worlds m) wid world').
    lia.
  - unfold SimulationManager.start_world.
    destruct (SimulationManager.worlds m !! world_id) as [w|] eqn:Hw; [|done].
    case_decide; [done|].
    destruct (World.start w e) as [w' e']. cbn.
    by rewrite (size_insert_present _ _ w).
  - unfold SimulationManager.stop_world.
    destruct (SimulationManager.worlds m !! world_id) as [w|] eqn:Hw; [|done].
    cbn. by rewrite (size_insert_present _ _ w).
  - unfold SimulationManager.delete_world, SimulationManager.stop_world.
    destruct (SimulationManager.worlds m !! world_id) as [w|] eqn:Hw; [|done].
    cbn. rewrite delete_insert_eq.
    pose proof (map_subseteq_size _ _
                  (delete_subseteq (SimulationManager.worlds m) world_id)). lia.
  - unfold SimulationManager.step_world.
    destruct (SimulationManager.worlds m !! world_id) as [w|] eqn:Hw; [|done].
    destruct (SimulationManager.run_steps _ _ _) as [[w2 results] e'].
    cbn. by rewrite (size_insert_present _ _ w).
Qed.

Lemma one_world_within_capacity (w : World.t) :
  within_capacity (one_world_manager w).
Proof.
  unfold within_capacity, one_world_manager.
  cbn [SimulationManager.worlds SimulationManager.max_concurrent_worlds].
  rewrite map_size_singleton. lia.
Qed.

(** One world out of ten. *)
Lemma capacity_kept_witness :
  within_capacity (one_world_manager (created_world None))
  ∧ within_capacity
      (SimulationManager.delete_world (one_world_manager (created_world None))
         7%N).1.
Proof.
  split; [apply one_world_within_capacity|].
  pose proof (capacity_kept one_edge_generators
                (one_world_manager (created_world None)) 7%N 2%N [] [] None
                true 1 (env_const 0)
                (one_world_within_capacity (created_world None)))
    as (_ & _ & _ & Hd & _).
  exact Hd.
Defined.


(** X25.  [delete_world] answers whether the world was there.  Afterwards
    the world is gone, every other world and every other task is as before,
    a manager that did not have the world is unchanged, and deleting again
    answers [false] and changes nothing. *)
Theorem delete_world_spec (m : SimulationManager.t) (world_id : UUID) :
  let m1 := (SimulationManager.delete_world m world_id).1 in
  (SimulationManager.delete_world m world_id).2
  = bool_decide (is_Some (SimulationManager.worlds m !! world_id))
  ∧ SimulationManager.get_world m1 world_id = None
  ∧ (∀ k, k ≠ world_id →
          SimulationManager.get_world m1 k = SimulationManager.get_world m k
          ∧ ((k ∈ SimulationManager.world_tasks m1)
             ↔ (k ∈ SimulationManager.world_tasks m)))
  ∧ ((SimulationManager.worlds m !! world_id = None) → m1 = m)
  ∧ SimulationManager.delete_world m1 world_id = (m1, false).
Proof.
  unfold SimulationManager.delete_world, SimulationManager.stop_world,
    SimulationManager.get_world.
  destruct (SimulationManager.worlds m !! world_id) as [w|] eqn:Hw; cbn.
  - rewrite lookup_delete_eq. repeat split; try done.
    + rewrite lookup_delete_ne, lookup_insert_ne by done. done.
    + intros [? _]%elem_of_difference. done.
    + intros Hk. apply elem_of_difference. split; [done|].
      by intros ?%elem_of_singleton.
  - rewrite Hw. done.
Qed.

Lemma pause_pause (w : World.t) : World.pause (World.pause w) = World.pause w.
Proof.
  unfold World.pause.
  by destruct w as [? ? ? ? ? ? [] ? ? ? ? ? ? ? ? ? ? ? ?].
Qed.

(** X26.  [stop_world] on a world the manager has: the world is paused
    (so it is not RUNNING afterwards, and a world that was not RUNNING is
    unchanged), its task is gone, the other worlds are untouched, and
    stopping it again answers [True] and changes nothing. *)
Theorem stop_world_idempotent (m : SimulationManager.t) (world_id : UUID)
    (w : World.t) :
  SimulationManager.worlds m !! world_id = Some w →
  let m1 := (SimulationManager.stop_world m world_id).1 in
  SimulationManager.stop_world m1 world_id = (m1, true)
  ∧ SimulationManager.get_world m1 world_id = Some (World.pause w)
  ∧ World.status (World.pause w) ≠ WorldStatus.RUNNING
  ∧ (World.status w ≠ WorldStatus.RUNNING → World.pause w = w)
  ∧ (world_id ∉ SimulationManager.world_tasks m1)
  ∧ (∀ k, k ≠ world_id →
          SimulationManager.get_world m1 k = SimulationManager.get_world m k).
Proof.
  intros Hw.
  unfold SimulationManager.stop_world, SimulationManager.get_world.
  rewrite Hw. cbn. rewrite lookup_insert_eq. cbn.
  split; [|split; [|split; [|split; [|split]]]].
  - rewrite pause_pause, insert_insert_eq.
    unfold SimulationManager.set_world_tasks, SimulationManager.set_worlds.
    cbn. do 2 f_equal.
    apply leibniz_equiv, set_equiv. intros x.
    rewrite !elem_of_difference. tauto.
  - done.
  - unfold World.pause. case_decide as Hr; cbn; [done|]. congruence.
  - intros Hs. unfold World.pause. by rewrite decide_False.
  - intros [_ H]%elem_of_difference. by apply H, elem_of_singleton_2.
  - intros k Hk. by rewrite lookup_insert_ne.
Qed.

(** The manager of the line world. *)
Lemma stop_world_idempotent_witness :
  SimulationManager.stop_world
    (SimulationManager.stop_world (one_world_manager line_world) 7%N).1 7%N
  = ((SimulationManager.stop_world (one_world_manager line_world) 7%N).1, true).
Proof.
  exact (proj1 (stop_world_idempotent (one_world_manager line_world) 7%N
                  line_world eq_refl)).
Defined.

(** ** Manual stepping *)






(** ** The loop task *)

(** X28.  The loop task terminates on a bounded world: for a running
    manager and a RUNNING world with [max_steps] ahead of its step counter,
    [_run_world_loop] with more iterations than steps left ends with the
    world COMPLETED at step [max_steps] and the task removed. *)
Theorem run_world_loop_completes (fuel : nat) (m : SimulationManager.t)
    (world_id : UUID) (w : World.t) (max_steps : Z) (e : Env.t) :
  SimulationManager._running m = true →
  SimulationManager.worlds m !! world_id = Some w →
  World.status w = WorldStatus.RUNNING →
  WorldConfig.max_steps (World.config w) = Some max_steps →
  (0 <= World.current_step w < max_steps)%Z →
  (max_steps - World.current_step w < Z.of_nat fuel)%Z →
  ∃ w',
    SimulationManager.worlds
      (SimulationManager._run_world_loop fuel m world_id e).1 !! world_id
    = Some w'
    ∧ World.status w' = WorldStatus.COMPLETED
    ∧ World.current_step w' = max_steps
    ∧ (world_id ∉ SimulationManager.world_tasks
                    (SimulationManager._run_world_loop fuel m world_id e).1).
Proof.
  revert m w e. induction fuel as [|fuel IH]; intros m w e Hrun Hw Hr Hmax Hlt Hf;
    [lia|].
  cbn. rewrite Hw, Hrun, (bool_decide_eq_true_2 _ Hr). cbn.
  pose proof (run_step_running w e Hr) as (Hcfg & _ & _ & Hstep & Hst).
  destruct (World.run_step w e) as [[w1 r1] e1]. cbn in *.
  set (m1 := SimulationManager.set_worlds _ m).
  assert (Hw1 : SimulationManager.worlds m1 !! world_id = Some w1)
    by (subst m1; cbn; by rewrite lookup_insert_eq).
  unfold World.max_steps_reached in Hst. rewrite Hcfg, Hmax, Hstep in Hst.
  destruct (Z.leb_spec max_steps (World.current_step w + 1)) as [Hdone|Hmore].
  - assert (Hc : World.status w1 = WorldStatus.COMPLETED).
    { rewrite Hst. destruct (Z.eqb_spec max_steps 0); [lia|done]. }
    destruct fuel as [|fuel]; [lia|].
    cbn [SimulationManager._run_world_loop]. rewrite Hw1.
    rewrite (bool_decide_eq_false_2 (World.status w1 = WorldStatus.RUNNING))
      by congruence.
    rewrite andb_false_r. cbn. exists w1.
    split; [by rewrite lookup_insert_eq|]. split; [done|]. split; [lia|].
    intros [_ H]%elem_of_difference. by apply H, elem_of_singleton_2.
  - assert (Hr1 : World.status w1 = WorldStatus.RUNNING).
    { rewrite Hst. by rewrite andb_false_r. }
    apply (IH m1 w1 e1); [done|done|done|congruence|lia|lia].
Qed.

(** A RUNNING world that completes at step 2, five iterations. *)
Lemma run_world_loop_completes_witness :
  ∃ w',
    SimulationManager.worlds
      (SimulationManager._run_world_loop 5 (one_world_manager two_step_world)
         7%N (env_const 0)).1 !! 7%N
    = Some w'
    ∧ World.status w' = WorldStatus.COMPLETED
    ∧ World.current_step w' = 2%Z
    ∧ (7%N ∉ SimulationManager.world_tasks
               (SimulationManager._run_world_loop 5
                  (one_world_manager two_step_world) 7%N (env_const 0)).1).
Proof.
  apply (run_world_loop_completes 5 (one_world_manager two_step_world) 7%N
           two_step_world 2 (env_const 0)).
  - reflexivity.
  - reflexivity.
  - reflexivity.
  - reflexivity.
  - split; [discriminate|reflexivity].
  - reflexivity.
Defined.

(** ** Injecting through the manager *)

Lemma inject_idea_returns (sample : World.sampler) (w : World.t)
    (idea : Idea.t) (n : Z) (e : Env.t) :
  sampler_sound sample → (0 <= n)%Z →
  is_Some (World.inject_idea sample w idea n e).
Proof.
  intros Hsample Hn. unfold World.inject_idea. cbn.
  set (cands := (slice_to _ _).*1).
  destruct (Hsample cands (Z.min n (Z.of_nat (length cands))) e)
    as (chosen & e' & -> & _); [lia|].
  cbn. by destruct (fold_left _ chosen _).
Qed.

(** X29.  The manager's [inject_idea] answers [None] and changes nothing
    for a world it does not have.  For a world it has (whose agents are
    stored under their identifiers), when the call returns, it returns the
    idea as stored in the world: identified by the next [uuid4], made by
    the creator asked for, in that world, with the text, tags, target,
    virality and valence asked for, complexity 0.3, mutation budget 3,
    generation 0, no parent and reach 0; its adopter count is the number of
    seeds, the seeds are distinct agents of the world, and each of them
    believes the idea.  And the call does return when [random.sample]
    returns what it is asked for and the number of seeds is not
    negative. *)
Theorem manager_inject_idea (sample : World.sampler) (m : SimulationManager.t)
    (world_id creator_id : UUID) (text : pystr) (tags : option (list pystr))
    (target : option IdeaTarget.t) (virality_score emotional_valence : Q)
    (initial_adopters : Z) (e : Env.t) :
  (SimulationManager.worlds m !! world_id = None →
   SimulationManager.inject_idea sample m world_id creator_id text tags target
     virality_score emotional_valence initial_adopters e = Some (m, None, e))
  ∧ (∀ w m' result e',
      SimulationManager.worlds m !! world_id = Some w →
      keyed_by_id w →
      SimulationManager.inject_idea sample m world_id creator_id text tags
        target virality_score emotional_valence initial_adopters e
      = Some (m', result, e') →
      ∃ idea w' ids,
        result = Some idea
        ∧ SimulationManager.worlds m'
          = <[world_id := w']> (SimulationManager.worlds m)
        ∧ World.ideas w' = <[Idea.id idea := idea]> (World.ideas w)
        ∧ Idea.id idea = (Env.uuid4 e).1
        ∧ Idea.creator_id idea = creator_id
        ∧ Idea.world_id idea = World.id w
        ∧ Idea.text idea = text
        ∧ Idea.tags idea = default [] tags
        ∧ Idea.target idea = default IdeaTarget.default target
        ∧ Idea.virality_score idea = virality_score
        ∧ Idea.emotional_valence idea = emotional_valence
        ∧ Idea.complexity idea = 0.3%Q
        ∧ Idea.mutation_budget idea = 3%Z
        ∧ Idea.generation idea = 0%Z
        ∧ Idea.parent_id idea = None
        ∧ Idea.reach idea = 0%Z
        ∧ Idea.adopter_count idea = Z.of_nat (length ids)
        ∧ NoDup ids
        ∧ ∀ k, k ∈ ids →
            ∃ a, World.agents w' !! k = Some a
                 ∧ Idea.id idea ∈ Agent.beliefs a)
  ∧ (sampler_sound sample → (0 <= initial_adopters)%Z →
     is_Some (SimulationManager.inject_idea sample m world_id creator_id text
                tags target virality_score emotional_valence
                initial_adopters e)).
Proof.
  unfold SimulationManager.inject_idea. split; [|split].
  - by intros ->.
  - intros w m' result e' Hw Hkey. rewrite Hw.
    destruct (Env.uuid4 e) as [idea_id e1].
    destruct (Env.utcnow e1) as [now e2].
    set (idea := Idea.mk _ _ _ _ _ _ _ _ _ _ _ _ _ _ _ _ _ _ _ _).
    destruct (World.inject_idea sample w idea initial_adopters e2)
      as [[[w' ids] e3]|] eqn:Hinj; [|done].
    cbn. intros [= <- <- <-].
    destruct (inject_idea_seeding sample w w' idea initial_adopters e2 e3 ids
                Hkey Hinj) as (Hfr & Hid & Hnd & Hin & Hout).
    cbn [fst snd] in Hfr, Hid, Hnd, Hin, Hout.
    exists (seeded w idea (length ids)), w', ids.
    rewrite Hid. change (Idea.id idea) with idea_id.
    rewrite lookup_insert_eq.
    repeat split; try done.
    intros k Hk. destruct (Hin k Hk) as (a & Ha & Hna & Ha').
    eexists. split; [exact Ha'|]. rewrite adopt_idea_beliefs.
    apply elem_of_union_l, elem_of_singleton_2. reflexivity.
  - intros Hsample Hn.
    destruct (SimulationManager.worlds m !! world_id) as [w|]; [|done].
    destruct (Env.uuid4 e) as [idea_id e1].
    destruct (Env.utcnow e1) as [now e2].
    set (idea := Idea.mk _ _ _ _ _ _ _ _ _ _ _ _ _ _ _ _ _ _ _ _).
    destruct (inject_idea_returns sample w idea initial_adopters e2 Hsample Hn)
      as [[[w' ids] e3] ->].
    done.
Qed.

(** ** The leaderboard *)

(** X30.  The leaderboard route on a world the manager has, for a limit
    that is not negative: it answers with the world's step and a board of
    [min limit (number of ideas)] entries, made from ideas of the catalog,
    each idea at most once; the ranks are 1, 2, 3, ...; the adopter counts
    never go up along the board; and no idea left out has more adopters
    than an entry of the board. *)
Theorem leaderboard_is_top (m : SimulationManager.t) (world_id : UUID)
    (world : World.t) (limit : Z) :
  SimulationManager.get_world m world_id = Some world →
  (0 <= limit)%Z →
  ∃ board top rest,
    Routes.get_leaderboard m world_id limit
    = Some (World.current_step world, board)
    ∧ board = imap Routes.leaderboard_entry top
    ∧ (map_to_list (World.ideas world)).*2 ≡ₚ top ++ rest
    ∧ length board
      = Nat.min (Z.to_nat limit) (size (World.ideas world))
    ∧ (∀ i entry, board !! i = Some entry →
                  LeaderboardEntry.rank entry = (Z.of_nat i + 1)%Z)
    ∧ (∀ i j above below, (i ≤ j)%nat →
         board !! i = Some above → board !! j = Some below →
         (LeaderboardEntry.adopters below
          <= LeaderboardEntry.adopters above)%Z)
    ∧ (∀ entry idea, entry ∈ board → idea ∈ rest →
         (Idea.adopter_count idea <= LeaderboardEntry.adopters entry)%Z).
Proof.
  intros Hw Hlimit. unfold Routes.get_leaderboard. rewrite Hw.
  unfold Routes.top_ideas.
  set (gt := λ y x : Idea.t, (Idea.adopter_count x <? Idea.adopter_count y)%Z).
  set (all := (map_to_list (World.ideas world)).*2).
  destruct (slice_to_prefix limit (sort_desc gt all)) as [rest Hrest].
  set (top := slice_to limit (sort_desc gt all)) in *.
  assert (Hsorted : StronglySorted
            (λ x y, (Idea.adopter_count y <= Idea.adopter_count x)%Z)
            (top ++ rest)).
  { rewrite <- Hrest. apply (sort_desc_sorted gt).
    - intros x y Hgt. apply Z.ltb_lt in Hgt. lia.
    - intros x y Hgt. apply Z.ltb_ge in Hgt. lia.
    - intros x y z; lia. }
  exists (imap Routes.leaderboard_entry top), top, rest.
  split; [done|]. split; [done|]. split; [|split; [|split; [|split]]].
  - by rewrite <- Hrest, sort_desc_perm.
  - rewrite length_imap. subst top. rewrite slice_to_length by done.
    rewrite (Permutation_length (sort_desc_perm gt all)).
    subst all. by rewrite length_fmap, length_map_to_list.
  - intros i entry. rewrite list_lookup_imap.
    destruct (top !! i) as [idea|]; cbn; [|done]. by intros [= <-].
  - intros i j above below Hij. rewrite !list_lookup_imap.
    destruct (top !! i) as [x|] eqn:Hi; cbn; [|done].
    destruct (top !! j) as [y|] eqn:Hj; cbn; [|done].
    intros [= <-] [= <-]. cbn.
    apply StronglySorted_app_1_l in Hsorted.
    apply (StronglySorted_lookup_le
             (λ x y, (Idea.adopter_count y <= Idea.adopter_count x)%Z)
             top i j x y); [intros; lia|done..].
  - intros entry idea [i Hi]%list_elem_of_lookup Hin.
    rewrite list_lookup_imap in Hi.
    destruct (top !! i) as [t|] eqn:Ht; cbn in Hi; [|done].
    injection Hi as <-. cbn.
    apply (StronglySorted_app_1_elem_of _ top rest t idea Hsorted);
      [by eapply list_elem_of_lookup_2|done].
Qed.

(** The line world, limit 1. *)
Lemma leaderboard_is_top_witness :
  ∃ board top rest,
    Routes.get_leaderboard (one_world_manager line_world) 7%N 1
    = Some (World.current_step line_world, board)
    ∧ board = imap Routes.leaderboard_entry top
    ∧ (map_to_list (World.ideas line_world)).*2 ≡ₚ top ++ rest
    ∧ length board
      = Nat.min (Z.to_nat 1) (size (World.ideas line_world))
    ∧ (∀ i entry, board !! i = Some entry →
                  LeaderboardEntry.rank entry = (Z.of_nat i + 1)%Z)
    ∧ (∀ i j above below, (i ≤ j)%nat →
         board !! i = Some above → board !! j = Some below →
         (LeaderboardEntry.adopters below
          <= LeaderboardEntry.adopters above)%Z)
    ∧ (∀ entry idea, entry ∈ board → idea ∈ rest →
         (Idea.adopter_count idea <= LeaderboardEntry.adopters entry)%Z).
Proof.
  apply (leaderboard_is_top (one_world_manager line_world) 7%N line_world 1).
  - reflexivity.
  - discriminate.
Defined.
